(** * jekyll2zola: the converter of [convert.py], embedded and verified

    The program reads a Jekyll post (a YAML front matter fenced by [---]
    lines, then the body), maps the front matter to Zola's fields and
    writes the post back with a TOML front matter fenced by [+++].

    Text is modelled as lists of 8-bit characters; on that range the
    character classes below are the ones Python uses for [str.strip],
    [\s] and [\d]. A file holds the text as it is stored; reading it
    in text mode translates the line ends, and writing it (on a POSIX
    system) leaves them alone. *)

From Stdlib Require Import String Ascii List ZArith Bool Arith Lia.
Import ListNotations.

Set Implicit Arguments.
Set Warnings "-register-all".

(** ** Text *)

Definition str := list ascii.

Definition lit (s : string) : str := list_ascii_of_string s.

Definition NL : ascii := "010"%char.
Definition CR : ascii := "013"%char.
Definition DQUOTE : ascii := "034"%char.

(** [str.isspace] / [\s] on code points below 256. *)
Definition isspace (c : ascii) : bool :=
  let n := nat_of_ascii c in
  ((9 <=? n) && (n <=? 13)) || ((28 <=? n) && (n <=? 32))
  || (n =? 133) || (n =? 160).

(** [\d] on code points below 256: the ASCII digits. *)
Definition isdigit (c : ascii) : bool :=
  let n := nat_of_ascii c in (48 <=? n) && (n <=? 57).

Fixpoint str_eqb (a b : str) : bool :=
  match a, b with
  | [], [] => true
  | x :: a', y :: b' => Ascii.eqb x y && str_eqb a' b'
  | _, _ => false
  end.

Fixpoint lstrip (s : str) : str :=
  match s with
  | c :: s' => if isspace c then lstrip s' else s
  | [] => []
  end.

Definition rstrip (s : str) : str := rev (lstrip (rev s)).

(** [s.strip()] *)
Definition strip (s : str) : str := rstrip (lstrip s).

(** [''.join(parts)] *)
Definition join (parts : list str) : str := concat parts.

(** [s.endswith(suffix)] *)
Fixpoint startswith (s pre : str) : bool :=
  match pre, s with
  | [], _ => true
  | p :: pre', c :: s' => Ascii.eqb c p && startswith s' pre'
  | _ :: _, [] => false
  end.

Definition endswith (s suffix : str) : bool := startswith (rev s) (rev suffix).

(** Iterating over a text file yields its lines, each with its
    terminating newline (the last one may lack it). *)
Fixpoint file_lines (s : str) : list str :=
  match s with
  | [] => []
  | c :: s' =>
      if Ascii.eqb c NL then [c] :: file_lines s'
      else match file_lines s' with
           | [] => [[c]]
           | l :: ls => (c :: l) :: ls
           end
  end.

(** What a file opened in text mode hands over (universal newlines): a
    carriage return followed by a line feed, and a carriage return
    alone, both read as one line feed. *)
Fixpoint universal_newlines (s : str) : str :=
  match s with
  | [] => []
  | c :: s' =>
      if Ascii.eqb c CR then
        NL :: match s' with
              | c' :: s'' =>
                  if Ascii.eqb c' NL then universal_newlines s''
                  else universal_newlines s'
              | [] => []
              end
      else c :: universal_newlines s'
  end.

(** ** Regular expressions

    The fragment of Python's [re] the program uses, with the matcher's
    backtracking order: alternatives left to right, [*] greedy, [+?]
    lazy. A continuation receives the rest of the input and the groups
    captured so far. *)

Inductive regex :=
| Eps
| Cls (p : ascii -> bool)
| Cat (r1 r2 : regex)
| Alt (r1 r2 : regex)
| Star (p : ascii -> bool)
| PlusLazy (p : ascii -> bool)
| Group (n : nat) (r : regex).

Definition caps := list (nat * str).

Fixpoint group (n : nat) (g : caps) : str :=
  match g with
  | [] => []
  | (m, s) :: g' => if Nat.eqb m n then s else group n g'
  end.

(** How many characters lie between the input [s] and what is left of
    it, [s']. *)
Definition consumed (s s' : str) : nat := length s - length s'.
Arguments consumed : simpl never.

Section Matcher.
Variable A : Type.

Fixpoint star_greedy (p : ascii -> bool) (s : str) (k : str -> option A) : option A :=
  match s with
  | c :: s' =>
      if p c then
        match star_greedy p s' k with
        | Some x => Some x
        | None => k s
        end
      else k s
  | [] => k []
  end.

Fixpoint star_lazy (p : ascii -> bool) (s : str) (k : str -> option A) : option A :=
  match k s with
  | Some x => Some x
  | None =>
      match s with
      | c :: s' => if p c then star_lazy p s' k else None
      | [] => None
      end
  end.

Fixpoint rmatch (r : regex) (s : str) (g : caps) (k : str -> caps -> option A) : option A :=
  match r with
  | Eps => k s g
  | Cls p =>
      match s with
      | c :: s' => if p c then k s' g else None
      | [] => None
      end
  | Cat r1 r2 => rmatch r1 s g (fun s' g' => rmatch r2 s' g' k)
  | Alt r1 r2 =>
      match rmatch r1 s g k with
      | Some x => Some x
      | None => rmatch r2 s g k
      end
  | Star p => star_greedy p s (fun s' => k s' g)
  | PlusLazy p =>
      match s with
      | c :: s' => if p c then star_lazy p s' (fun s'' => k s'' g) else None
      | [] => None
      end
  | Group n r1 =>
      rmatch r1 s g
        (fun s' g' => k s' ((n, firstn (consumed s s') s) :: g'))
  end.

End Matcher.

(** [re.match(r, s)]: the length of the match at the start of [s] and
    its groups. *)
Definition re_match (r : regex) (s : str) : option (nat * caps) :=
  rmatch r s [] (fun s' g => Some (consumed s s', g)).

(** [re.search(r, s)]: the text of the leftmost match ([group(0)]). *)
Fixpoint re_search (r : regex) (s : str) : option str :=
  match re_match r s with
  | Some (n, _) => Some (firstn n s)
  | None =>
      match s with
      | [] => None
      | _ :: s' => re_search r s'
      end
  end.

(** [re.sub(r, repl, s)] for a pattern that matches no empty text:
    matches are replaced left to right, without overlap; [skip] counts
    the characters of the current match still to pass over. *)
Fixpoint re_sub_from (r : regex) (repl : caps -> str) (s : str) (skip : nat) : str :=
  match s with
  | [] => []
  | c :: s' =>
      match skip with
      | S n => re_sub_from r repl s' n
      | O =>
          match re_match r s with
          | Some (S n, g) => repl g ++ re_sub_from r repl s' n
          | _ => c :: re_sub_from r repl s' 0
          end
      end
  end.

Definition re_sub (r : regex) (repl : caps -> str) (s : str) : str :=
  re_sub_from r repl s 0.

Definition is_char (a : ascii) : ascii -> bool := fun c => Ascii.eqb c a.
Definition not_char (a : ascii) : ascii -> bool := fun c => negb (Ascii.eqb c a).
Definition in_range (lo hi : ascii) : ascii -> bool :=
  fun c => (nat_of_ascii lo <=? nat_of_ascii c) && (nat_of_ascii c <=? nat_of_ascii hi).

Fixpoint rep (n : nat) (r : regex) : regex :=
  match n with
  | O => Eps
  | S n' => Cat r (rep n' r)
  end.

(** ** Decoded values

    What [yaml.safe_load] hands to the program: scalars, calendar dates,
    lists and mappings (a Python dict keeps its keys in insertion order,
    so a mapping is an association list). The keys of a decoded mapping
    are scalars of any kind; the dicts the program builds itself, and
    the keyword arguments of a call, have strings as keys. *)

Inductive key :=
| KStr (s : str)
| KNone
| KBool (b : bool)
| KInt (z : Z)
| KDate (y m d : Z).

Inductive value :=
| VNone
| VBool (b : bool)
| VInt (z : Z)
| VStr (s : str)
| VDate (y m d : Z)
| VList (l : list value)
| VMap (d : list (key * value)).

(** A dict whose keys are strings. *)
Definition dict := list (str * value).

(** The mapping with the string keys and the values of [d]. *)
Definition VDict (d : dict) : value :=
  VMap (map (fun kv => (KStr (fst kv), snd kv)) d).

Arguments VDict : simpl never.

(** The dict of a mapping whose keys are all strings. *)
Fixpoint str_keys (m : list (key * value)) : option dict :=
  match m with
  | [] => Some []
  | (KStr s, v) :: m' => option_map (cons (s, v)) (str_keys m')
  | _ :: _ => None
  end.

(** Python truth value. *)
Definition truthy (v : value) : bool :=
  match v with
  | VNone => false
  | VBool b => b
  | VInt z => negb (z =? 0)%Z
  | VStr s => match s with [] => false | _ => true end
  | VDate _ _ _ => true
  | VList l => match l with [] => false | _ => true end
  | VMap d => match d with [] => false | _ => true end
  end.

Fixpoint dict_get (k : str) (d : dict) : option value :=
  match d with
  | [] => None
  | (k', v) :: d' => if str_eqb k' k then Some v else dict_get k d'
  end.

Definition dict_mem (k : str) (d : dict) : bool :=
  match dict_get k d with Some _ => true | None => false end.

(** [del d[k]] once the key is known to be there. *)
Definition dict_remove (k : str) (d : dict) : dict :=
  filter (fun kv => negb (str_eqb (fst kv) k)) d.

(** [d[k] = v]: an existing key keeps its place, a new one goes last. *)
Fixpoint dict_set (k : str) (v : value) (d : dict) : dict :=
  match d with
  | [] => [(k, v)]
  | (k', v') :: d' =>
      if str_eqb k' k then (k', v) :: d' else (k', v') :: dict_set k v d'
  end.

(** ** Exceptions *)

Inductive exn := TypeError | KeyError | ValueError | YAMLError | OSError.

Inductive result (A : Type) :=
| Ok (a : A)
| Raise (e : exn).
Arguments Ok {A} a.
Arguments Raise {A} e.

Definition rbind {A B} (r : result A) (f : A -> result B) : result B :=
  match r with
  | Ok a => f a
  | Raise e => Raise e
  end.

(** The two libraries the program calls into. [yaml_safe_load] decodes
    the front matter and raises on text that is not YAML; [toml_dumps]
    serializes a mapping and raises on the values it cannot write. *)
Class Libs := {
  yaml_safe_load : str -> result value;
  toml_dumps : dict -> result str
}.

(** ** Calendar dates: [datetime.strptime(s, '%Y-%m-%d').date()] and
    [date.isoformat()] *)

Record date := mkdate { year : Z; month : Z; day : Z }.

Definition digit_val (c : ascii) : Z := Z.of_nat (nat_of_ascii c) - 48.

Definition digit_char (z : Z) : ascii := ascii_of_nat (48 + Z.to_nat z).

(** [int(s)] on a run of digits, blanks around it ignored. *)
Definition py_int (s : str) : Z :=
  fold_left (fun acc c => 10 * acc + digit_val c)%Z (strip s) 0%Z.

Definition is_leap (y : Z) : bool :=
  ((y mod 4 =? 0) && (negb (y mod 100 =? 0) || (y mod 400 =? 0)))%Z.

Definition days_in_month (y m : Z) : Z :=
  if (m =? 2)%Z then (if is_leap y then 29 else 28)%Z
  else if ((m =? 4) || (m =? 6) || (m =? 9) || (m =? 11))%Z then 30%Z
  else 31%Z.

(** What the [date] constructor accepts. *)
Definition valid_date (y m d : Z) : bool :=
  ((1 <=? y) && (y <=? 9999) && (1 <=? m) && (m <=? 12)
   && (1 <=? d) && (d <=? days_in_month y m))%Z.

(** The pattern [_strptime] builds for ['%Y-%m-%d']:
    [(?P<Y>\d\d\d\d)-(?P<m>1[0-2]|0[1-9]|[1-9])-(?P<d>3[0-1]|[1-2]\d|0[1-9]|[1-9]| [1-9])]. *)
Definition year_re : regex := Group 1 (rep 4 (Cls isdigit)).

Definition month_re : regex :=
  Group 2
    (Alt (Cat (Cls (is_char "1")) (Cls (in_range "0" "2")))
    (Alt (Cat (Cls (is_char "0")) (Cls (in_range "1" "9")))
         (Cls (in_range "1" "9")))).

Definition day_re : regex :=
  Group 3
    (Alt (Cat (Cls (is_char "3")) (Cls (in_range "0" "1")))
    (Alt (Cat (Cls (in_range "1" "2")) (Cls isdigit))
    (Alt (Cat (Cls (is_char "0")) (Cls (in_range "1" "9")))
    (Alt (Cls (in_range "1" "9"))
         (Cat (Cls (is_char " ")) (Cls (in_range "1" "9"))))))).

Definition strptime_re : regex :=
  Cat year_re (Cat (Cls (is_char "-"))
    (Cat month_re (Cat (Cls (is_char "-")) day_re))).

Definition strptime (s : str) : result date :=
  match re_match strptime_re s with
  | None => Raise ValueError
  | Some (n, g) =>
      if negb (n =? length s) then Raise ValueError
      else
        let y := py_int (group 1 g) in
        let m := py_int (group 2 g) in
        let d := py_int (group 3 g) in
        if valid_date y m d then Ok (mkdate y m d) else Raise ValueError
  end.

(** [width] decimal digits of [z], zero padded (the format [%04d] at
    width 4, for [0 <= z < 10^width]). *)
Fixpoint zpad (width : nat) (z : Z) : str :=
  match width with
  | O => []
  | S w => zpad w (z / 10) ++ [digit_char (z mod 10)]
  end.

Definition isoformat (d : date) : str :=
  zpad 4 (year d) ++ lit "-" ++ zpad 2 (month d) ++ lit "-" ++ zpad 2 (day d).

(** ** The file system and the error stream

    A tree of directories and text files, addressed by the list of
    path components below the working directory. *)

Definition path := list str.

Inductive node :=
| File (text : str)
| Dir (entries : list (str * node)).

Fixpoint find_entry (name : str) (entries : list (str * node)) : option node :=
  match entries with
  | [] => None
  | (n, c) :: es => if str_eqb n name then Some c else find_entry name es
  end.

Fixpoint lookup (p : path) (n : node) : option node :=
  match p with
  | [] => Some n
  | name :: rest =>
      match n with
      | Dir entries =>
          match find_entry name entries with
          | Some c => lookup rest c
          | None => None
          end
      | File _ => None
      end
  end.

(** The entry [name] of a directory rewritten by [f]; a missing entry is
    created as [fresh] when there is one. *)
Fixpoint update_entry (name : str) (f : node -> option node) (fresh : option node)
    (entries : list (str * node)) : option (list (str * node)) :=
  match entries with
  | [] => option_map (fun c => [(name, c)]) fresh
  | (n, c) :: es =>
      if str_eqb n name then option_map (fun c' => (n, c') :: es) (f c)
      else option_map (cons (n, c)) (update_entry name f fresh es)
  end.

(** [open(p, 'w').write(text)]: the file is created or truncated; the
    call fails when [p] is a directory or its parent is not one. *)
Fixpoint write_node (p : path) (text : str) (n : node) : option node :=
  match p with
  | [] =>
      match n with
      | File _ => Some (File text)
      | Dir _ => None
      end
  | name :: rest =>
      match n with
      | Dir entries =>
          option_map Dir
            (update_entry name (write_node rest text)
               (match rest with [] => Some (File text) | _ => None end)
               entries)
      | File _ => None
      end
  end.

Record World := mkWorld { fs : node; stderr : list str }.

(** Computations that read and write the world and may raise. *)
Definition M (A : Type) : Type := World -> result A * World.

Definition ret {A} (a : A) : M A := fun w => (Ok a, w).

Definition bind {A B} (c : M A) (f : A -> M B) : M B :=
  fun w =>
    match c w with
    | (Ok a, w') => f a w'
    | (Raise e, w') => (Raise e, w')
    end.

Notation "x <- c ;; k" := (bind c (fun x => k))
  (at level 61, c at next level, right associativity).
Notation "c ;;; k" := (bind c (fun _ => k))
  (at level 61, right associativity).

Definition lift {A} (r : result A) : M A := fun w => (r, w).

Definition isfile (p : path) : M bool :=
  fun w => (Ok (match lookup p (fs w) with Some (File _) => true | _ => false end), w).

Definition isdir (p : path) : M bool :=
  fun w => (Ok (match lookup p (fs w) with Some (Dir _) => true | _ => false end), w).

Definition read_file (p : path) : M str :=
  fun w =>
    match lookup p (fs w) with
    | Some (File text) => (Ok text, w)
    | _ => (Raise OSError, w)
    end.

Definition write_file (p : path) (text : str) : M unit :=
  fun w =>
    match write_node p text (fs w) with
    | Some fs' => (Ok tt, mkWorld fs' (stderr w))
    | None => (Raise OSError, w)
    end.

(** [open(p, 'w')]: the file is there and empty once it is open. *)
Definition open_w (p : path) : M unit := write_file p [].

(** [print(msg, file=sys.stderr)] *)
Definition eprint (msg : str) : M unit :=
  fun w => (Ok tt, mkWorld (fs w) (stderr w ++ [msg])).

Fixpoint for_each {X} (l : list X) (body : X -> M unit) : M unit :=
  match l with
  | [] => ret tt
  | x :: l' => body x ;;; for_each l' body
  end.

(** ** Metadata Encoder: [class ZolaFront] *)

Module ZolaFront.

Record t := mk {
  title : value;
  date : option date;
  description : value;
  author : value;
  extra : dict;
  taxonomies : dict
}.

(** The pattern [\[\s*([^\]]+?)\s*,\s*\]] of [to_toml]. *)
Definition list_re : regex :=
  Cat (Cls (is_char "["))
 (Cat (Star isspace)
 (Cat (Group 1 (PlusLazy (not_char "]")))
 (Cat (Star isspace)
 (Cat (Cls (is_char ","))
 (Cat (Star isspace)
      (Cls (is_char "]")))))))%char.

(** The replacement [[\1]]. *)
Definition list_repl (g : caps) : str := lit "[" ++ group 1 g ++ lit "]".

(** The mapping [data] handed to [toml.dumps]. *)
Definition to_toml_data (self : t) : dict :=
  let data :=
    [ (lit "title", title self);
      (lit "date", match date self with
                   | Some d => VStr (isoformat d)
                   | None => VNone
                   end);
      (lit "description", description self) ] in
  let data :=
    if truthy (VDict (taxonomies self))
    then dict_set (lit "taxonomies") (VDict (taxonomies self)) data
    else data in
  let data :=
    if truthy (VDict (extra self))
    then dict_set (lit "extra") (VDict (extra self)) data
    else data in
  data.

Definition to_toml `{Libs} (self : t) : result str :=
  rbind (toml_dumps (to_toml_data self))
    (fun dumped =>
       let toml_data := strip dumped in
       let toml_data := re_sub list_re list_repl toml_data in
       Ok (toml_data ++ [NL])).

End ZolaFront.

(** ** Writer: [class ZolaDoc] *)

Module ZolaDoc.

Record t := mk { front : ZolaFront.t; content : str }.

Definition to_string `{Libs} (self : t) : result str :=
  rbind (ZolaFront.to_toml (front self))
    (fun toml =>
       Ok (lit "+++" ++ [NL] ++ toml ++ lit "+++" ++ [NL; NL] ++ content self)).

End ZolaDoc.

(** ** Field Mapper: [class JekyllFront] *)

Module JekyllFront.

Record t := mk {
  title : value;
  date : value;
  subtitle : value;
  author : value;
  tags : value;
  extra : dict
}.

(** [__init__], once its parameters are bound. *)
Definition init (title date subtitle author tags : value) (extra : dict) : result t :=
  if dict_mem (lit "layout") extra then
    let extra := dict_remove (lit "layout") extra in
    let extra :=
      match dict_get (lit "header-img") extra with
      | Some v => dict_set (lit "cover") v (dict_remove (lit "header-img") extra)
      | None => extra
      end in
    Ok (mk title date subtitle author tags extra)
  else Raise KeyError.

Definition named : list str :=
  [lit "title"; lit "date"; lit "subtitle"; lit "author"; lit "tags"].

Definition is_named (k : str) : bool := existsb (str_eqb k) named.

Definition arg (k : str) (kw : dict) : value :=
  match dict_get k kw with
  | Some v => v
  | None => VNone
  end.

(** The binding of the keywords [kw] to the parameters of [__init__]:
    the key [self] collides with the receiver, [title] is required, the
    other named parameters default to [None] and the remaining keys are
    collected, in order, into [extra]. *)
Definition call_kw (kw : dict) : result t :=
  if dict_mem (lit "self") kw then Raise TypeError
  else
    match dict_get (lit "title") kw with
    | None => Raise TypeError
    | Some title =>
        init title (arg (lit "date") kw) (arg (lit "subtitle") kw)
          (arg (lit "author") kw) (arg (lit "tags") kw)
          (filter (fun kv => negb (is_named (fst kv))) kw)
    end.

(** The call of [JekyllFront] on the keywords [**front]: [front] must be
    a mapping and every key of it a string. *)
Definition call (front : value) : result t :=
  match front with
  | VMap m =>
      match str_keys m with
      | Some kw => call_kw kw
      | None => Raise TypeError
      end
  | _ => Raise TypeError
  end.

Definition taxonomies_of (self : t) : dict :=
  let taxonomies := [] in
  let taxonomies :=
    if truthy (tags self)
    then dict_set (lit "tags") (tags self) taxonomies
    else taxonomies in
  let taxonomies :=
    if truthy (author self)
    then dict_set (lit "author")
           (match author self with
            | VList _ => author self
            | a => VList [a]
            end) taxonomies
    else taxonomies in
  taxonomies.

Definition to_zola_front (self : t) : result ZolaFront.t :=
  let taxonomies := taxonomies_of self in
  rbind
    (if truthy (date self) then
       match date self with
       | VStr s => rbind (strptime s) (fun d => Ok (Some d))
       | _ => Raise TypeError
       end
     else Ok None)
    (fun d =>
       Ok (ZolaFront.mk (title self) d (subtitle self) (author self)
             (extra self) taxonomies)).

End JekyllFront.

(** ** [class JekyllDoc] *)

Module JekyllDoc.

Record t := mk { front : JekyllFront.t; content : str }.

(** The pattern [\d{4}-\d{2}-\d{2}] of [extract_date]. *)
Definition date_re : regex :=
  Cat (rep 4 (Cls isdigit))
 (Cat (Cls (is_char "-"))
 (Cat (rep 2 (Cls isdigit))
 (Cat (Cls (is_char "-"))
      (rep 2 (Cls isdigit)))))%char.

Definition set_date (f : JekyllFront.t) (d : value) : JekyllFront.t :=
  JekyllFront.mk (JekyllFront.title f) d (JekyllFront.subtitle f)
    (JekyllFront.author f) (JekyllFront.tags f) (JekyllFront.extra f).

Definition extract_date (self : t) (path : str) : t :=
  match re_search date_re path with
  | Some m => mk (set_date (front self) (VStr m)) (content self)
  | None => self
  end.

(** [JekyllDoc(front, content, path)] *)
Definition init (front : value) (content : str) (path : str) : result t :=
  rbind (JekyllFront.call front)
    (fun f => Ok (extract_date (mk f content) path)).

End JekyllDoc.

(** ** Paths *)

Fixpoint join_path (p : path) : str :=
  match p with
  | [] => []
  | [n] => n
  | n :: rest => n ++ lit "/" ++ join_path rest
  end.

(** [str(Path(p))] *)
Definition path_str (p : path) : str :=
  match p with
  | [] => lit "."
  | _ => join_path p
  end.

(** [Path(p).name] *)
Definition path_name (p : path) : str := last p [].

(** ** Document Reader: [class Parser] *)

Inductive ParserState := UNKNOWN | FRONT_MATTER | CONTENT.

Module Parser.

Record t := mk {
  file_path : path;
  state : ParserState;
  raw_front : list str;
  front : value;
  content : list str
}.

(** [Parser.__init__] *)
Definition init (file_path : path) : t :=
  mk file_path UNKNOWN [] VNone [].

Definition is_delim (line : str) : bool := str_eqb (strip line) (lit "---").

(** The body of the loop [for line in file]. *)
Definition read_line (p : t) (line : str) : t :=
  match state p with
  | UNKNOWN =>
      if is_delim line
      then mk (file_path p) FRONT_MATTER (raw_front p) (front p) (content p)
      else p
  | FRONT_MATTER =>
      if is_delim line
      then mk (file_path p) CONTENT (raw_front p) (front p) (content p)
      else mk (file_path p) (state p) (raw_front p ++ [line]) (front p) (content p)
  | CONTENT =>
      mk (file_path p) (state p) (raw_front p) (front p) (content p ++ [line])
  end.

Definition read_lines (p : t) (lines : list str) : t :=
  fold_left read_line lines p.

Definition read `{Libs} (p : t) : M t :=
  text <- read_file (file_path p) ;;
  let p' := read_lines p (file_lines (universal_newlines text)) in
  v <- lift (yaml_safe_load (join (raw_front p'))) ;;
  ret (mk (file_path p') (state p') (raw_front p') v (content p')).

Definition into_jekyll (p : t) : result (option JekyllDoc.t) :=
  if truthy (front p) then
    rbind (JekyllDoc.init (front p) (join (content p)) (path_str (file_path p)))
      (fun d => Ok (Some d))
  else Ok None.

End Parser.

(** [JekyllDoc.open_file] *)
Definition open_file `{Libs} (file_path : path) : M (option JekyllDoc.t) :=
  parser <- Parser.read (Parser.init file_path) ;;
  lift (Parser.into_jekyll parser).

(** ** The pipeline: [convert_file] and [main] *)

Definition parse_error_msg : str :=
  lit "Error: Could not parse the Jekyll document.".

Definition no_input_msg : str := lit "Error: No input file provided.".

Definition convert_file `{Libs} (in_path out_path : path) : M unit :=
  jekyll_doc <- open_file in_path ;;
  match jekyll_doc with
  | Some jekyll_doc =>
      zola_front <- lift (JekyllFront.to_zola_front (JekyllDoc.front jekyll_doc)) ;;
      let zola_doc := ZolaDoc.mk zola_front (JekyllDoc.content jekyll_doc) in
      d <- isdir out_path ;;
      let out_path := if d then out_path ++ [path_name in_path] else out_path in
      open_w out_path ;;;
      text <- lift (ZolaDoc.to_string zola_doc) ;;
      write_file out_path text
  | None => eprint parse_error_msg
  end.

Definition dir_names (entries : list (str * node)) : list str :=
  map fst (filter (fun e => match snd e with Dir _ => true | File _ => false end) entries).

Definition file_names (entries : list (str * node)) : list str :=
  map fst (filter (fun e => match snd e with Dir _ => false | File _ => true end) entries).

(** [for root, dirs, filenames in os.walk(top): body]: a directory is
    listed when the walk reaches it, the body runs on the listing, then
    the subdirectories are walked in turn. [fuel] bounds the depth. *)
Fixpoint walk (fuel : nat) (top : path)
    (body : path -> list str -> list str -> M unit) : M unit :=
  match fuel with
  | O => ret tt
  | S fuel' =>
      fun w =>
        match lookup top (fs w) with
        | Some (Dir entries) =>
            (body top (dir_names entries) (file_names entries) ;;;
             for_each (dir_names entries)
               (fun d => walk fuel' (top ++ [d]) body)) w
        | _ => (Ok tt, w)
        end
  end.

Fixpoint height (n : node) : nat :=
  match n with
  | File _ => 0
  | Dir entries =>
      S ((fix go (es : list (str * node)) : nat :=
            match es with
            | [] => 0
            | (_, c) :: es' => Nat.max (height c) (go es')
            end) entries)
  end.

Definition main_body `{Libs} (outpath : path)
    (root : path) (dirs filenames : list str) : M unit :=
  for_each filenames
    (fun filename =>
       if endswith filename (lit ".md")
       then convert_file (root ++ [filename]) outpath
       else ret tt).

Definition main `{Libs} (inpath outpath : path) : M unit :=
  f <- isfile inpath ;;
  if f then convert_file inpath outpath
  else
    d <- isdir inpath ;;
    if d then
      fun w => walk (height (fs w)) inpath (main_body outpath) w
    else eprint no_input_msg.

(** ** Vocabulary of the statements *)

(** No line of [ls] is a delimiter line. *)
Definition no_delim (ls : list str) : Prop :=
  Forall (fun l => Parser.is_delim l = false) ls.

(** [m] has the shape YYYY-MM-DD: four digits, two digits, two digits,
    separated by hyphens. *)
Definition is_date_shaped (m : str) : bool :=
  match m with
  | [y1; y2; y3; y4; h1; m1; m2; h2; d1; d2] =>
      isdigit y1 && isdigit y2 && isdigit y3 && isdigit y4
      && is_char "-" h1 && isdigit m1 && isdigit m2
      && is_char "-" h2 && isdigit d1 && isdigit d2
  | _ => false
  end.

(** [path] contains a substring of that shape. *)
Definition contains_date (path : str) : Prop :=
  exists pre m post, path = pre ++ m ++ post /\ is_date_shaped m = true.

(** [m] is the first such substring of [path], scanning left to right. *)
Definition first_date_in (path m : str) : Prop :=
  exists pre post,
    path = pre ++ m ++ post /\ is_date_shaped m = true /\
    forall pre' m' post',
      path = pre' ++ m' ++ post' -> is_date_shaped m' = true ->
      length pre <= length pre'.

(** The two-digit months and days [_strptime] accepts. *)
Definition month2_ok (m1 m2 : ascii) : bool :=
  (is_char "1" m1 && in_range "0" "2" m2)
  || (is_char "0" m1 && in_range "1" "9" m2).

Definition day2_ok (d1 d2 : ascii) : bool :=
  (is_char "3" d1 && in_range "0" "1" d2)
  || (in_range "1" "2" d1 && isdigit d2)
  || (is_char "0" d1 && in_range "1" "9" d2).

Definition digits : list ascii := lit "0123456789".

(** What the Reader and the decoder make of the text of a file: the
    decoded front matter, and the body. *)
Definition decoded `{Libs} (in_path : path) (text : str) : result value :=
  yaml_safe_load
    (join (Parser.raw_front
             (Parser.read_lines (Parser.init in_path)
                (file_lines (universal_newlines text))))).

Definition body_of (in_path : path) (text : str) : str :=
  join (Parser.content
          (Parser.read_lines (Parser.init in_path)
             (file_lines (universal_newlines text)))).

(** Where [convert_file] writes. *)
Definition dest (w : World) (in_path out_path : path) : path :=
  match lookup out_path (fs w) with
  | Some (Dir _) => out_path ++ [path_name in_path]
  | _ => out_path
  end.

(** The world after one more line on the error stream. *)
Definition with_err (w : World) (msg : str) : World :=
  mkWorld (fs w) (stderr w ++ [msg]).

(** A run of blanks. *)
Definition blanks (ws : str) : Prop := Forall (fun c => isspace c = true) ws.

(** [s] does not begin with a blank. *)
Definition no_lead_blank (s : str) : Prop :=
  match s with
  | [] => True
  | c :: _ => isspace c = false
  end.

(** What the end of the list pattern, [\s*,\s*\]], leaves of [s] when it
    matches there. *)
Definition after_comma (s : str) : option str :=
  match lstrip s with
  | c :: s1 =>
      if is_char "," c then
        match lstrip s1 with
        | c' :: rest => if is_char "]" c' then Some rest else None
        | [] => None
        end
      else None
  | [] => None
  end.

(** [v] ends with a character that is not a blank. *)
Definition ends_nonblank (v : str) : Prop :=
  exists v0 c, v = v0 ++ [c] /\ isspace c = false.

(** The parts of the list pattern: the captured body and the end. *)
Definition group_re : regex := Group 1 (PlusLazy (not_char "]")).

Definition tail_re : regex :=
  Cat (Star isspace) (Cat (Cls (is_char ","))
    (Cat (Star isspace) (Cls (is_char "]")))).

(** [a] is a prefix of the path [b]: [b] is [a] or lies below it. *)
Definition is_prefix (a b : path) : Prop := exists r, b = a ++ r.

(** The files [os.walk] over [top] hands to the loop body of [main] that
    pass its test on the extension, listed on a snapshot [root] of the
    file system in the order of the walk. *)
Fixpoint walk_list (fuel : nat) (top : path) (root : node) : list path :=
  match fuel with
  | O => []
  | S fuel' =>
      match lookup top root with
      | Some (Dir entries) =>
          map (fun f => top ++ [f])
            (filter (fun f => endswith f (lit ".md")) (file_names entries))
          ++ flat_map (fun d => walk_list fuel' (top ++ [d]) root)
               (dir_names entries)
      | _ => []
      end
  end.

(** Below [top], the file system of [w'] is that of [w]. *)
Definition same_under (top : path) (w w' : World) : Prop :=
  forall q, is_prefix top q -> lookup q (fs w') = lookup q (fs w).

(** Every file of [w] is still a file in [w']. *)
Definition keeps_files (w w' : World) : Prop :=
  forall q t, lookup q (fs w) = Some (File t) ->
              exists t', lookup q (fs w') = Some (File t').

(** The files the walk must reach from [top]: those of the world at the
    start that lie at most [fuel] directories below [top] and have a
    name ending in [.md]. *)
Definition reaches (w0 : World) (fuel : nat) (top : path) (ps : list path) : Prop :=
  forall rel name t,
    length rel < fuel ->
    lookup (top ++ rel ++ [name]) (fs w0) = Some (File t) ->
    endswith name (lit ".md") = true ->
    In (top ++ rel ++ [name]) ps.

(** Every opening bracket of [s] has a closing bracket after it. *)
Fixpoint closed (s : str) : bool :=
  match s with
  | [] => true
  | c :: s' =>
      (if is_char "[" c then existsb (is_char "]") s' else true) && closed s'
  end.

(** [convert_file] skips the document at [p]: it is a file of [w] and
    its front matter decodes to a falsy value. *)
Definition skips `{Libs} (w : World) (p : path) : bool :=
  match lookup p (fs w) with
  | Some (File text) =>
      match decoded p text with
      | Ok v => negb (truthy v)
      | Raise _ => false
      end
  | _ => false
  end.

(** ** The serializer on plain mappings

    What [toml.dumps] of the toml package (0.10) writes for a mapping
    whose keys are bare and whose values are [None], booleans, strings
    of plain characters, lists of those, and tables of such entries:
    first the entries that are no tables, one a line, an entry whose
    value is [None] left out; then each table under its header, after
    an empty line when something precedes it. A list is written with a
    blank before each element and a comma after each, the last one
    included. *)

(** The characters [_dump_str] writes as they are: printable ASCII
    other than the quotes and the backslash. *)
Definition plain_char (c : ascii) : bool :=
  let n := nat_of_ascii c in
  (32 <=? n) && (n <=? 126)
  && negb (n =? 34) && negb (n =? 39) && negb (n =? 92).

Definition plain_str (s : str) : bool := forallb plain_char s.

(** The keys written without quotes: [^[A-Za-z0-9_-]+$]. *)
Definition bare_char (c : ascii) : bool :=
  let n := nat_of_ascii c in
  ((65 <=? n) && (n <=? 90)) || ((97 <=? n) && (n <=? 122))
  || ((48 <=? n) && (n <=? 57)) || (n =? 95) || (n =? 45).

Definition bare_key (k : str) : bool :=
  match k with
  | [] => false
  | _ => forallb bare_char k
  end.

Definition plain_scalar (v : value) : bool :=
  match v with
  | VStr s => plain_str s
  | VBool _ => true
  | _ => false
  end.

Definition plain_value (v : value) : bool :=
  match v with
  | VNone => true
  | VList l => forallb plain_scalar l
  | _ => plain_scalar v
  end.

Definition plain_entries (kw : dict) : bool :=
  forallb (fun kv => bare_key (fst kv) && plain_value (snd kv)) kw.

(** At the top level a value may also be a table of such entries. *)
Definition plain_item (v : value) : bool :=
  match v with
  | VMap m =>
      match str_keys m with
      | Some kw => plain_entries kw
      | None => false
      end
  | v => plain_value v
  end.

Definition plain (d : dict) : bool :=
  forallb (fun kv => bare_key (fst kv) && plain_item (snd kv)) d.

Definition dump_scalar (v : value) : str :=
  match v with
  | VStr s => [DQUOTE] ++ s ++ [DQUOTE]
  | VBool true => lit "true"
  | VBool false => lit "false"
  | _ => []
  end.

(** [dump_value]; a list goes through [dump_list]. *)
Definition dump_value (v : value) : str :=
  match v with
  | VList l =>
      lit "[" ++ concat (map (fun u => lit " " ++ dump_scalar u ++ lit ",") l)
      ++ lit "]"
  | _ => dump_scalar v
  end.

(** The line of an entry that is no table. *)
Definition dump_entry (kv : str * value) : str :=
  match snd kv with
  | VNone => []
  | v => fst kv ++ lit " = " ++ dump_value v ++ [NL]
  end.

Definition dump_entries (kw : dict) : str := concat (map dump_entry kw).

Definition is_table (v : value) : bool :=
  match v with
  | VMap _ => true
  | _ => false
  end.

(** The text so far, [retval], with the table [name] added. *)
Definition dump_section (retval : str) (kv : str * value) : str :=
  match snd kv with
  | VMap m =>
      match str_keys m with
      | Some kw =>
          retval
          ++ (if match retval with [] => false | _ => true end
                 && negb (endswith retval [NL; NL])
              then [NL] else [])
          ++ lit "[" ++ fst kv ++ lit "]" ++ [NL] ++ dump_entries kw
      | None => retval
      end
  | _ => retval
  end.

Definition toml_text (d : dict) : str :=
  fold_left dump_section
    (filter (fun kv => is_table (snd kv)) d)
    (dump_entries (filter (fun kv => negb (is_table (snd kv))) d)).

(** The table [name] as it follows the text [before]. *)
Definition table_text (before name : str) (kw : dict) : str :=
  match kw with
  | [] => []
  | _ =>
      match before with [] => [] | _ => [NL] end
      ++ lit "[" ++ name ++ lit "]" ++ [NL] ++ dump_entries kw
  end.

(** A text of lines none of which is empty: it is empty, or ends in a
    newline that follows another character. *)
Definition tidy (s : str) : Prop :=
  s = [] \/ exists a c, s = a ++ [c; NL] /\ c <> NL.

(** ** Sample documents

    A stand-in for the two libraries on the texts used in the examples:
    what [yaml.safe_load] returns on each of them ([None] on the empty
    text, an error on the unterminated list), and a serializer that
    writes a plain mapping as [toml.dumps] does and raises on the
    others (the one the examples use is a list that mixes a string and
    a table, on which [toml.dumps] raises [TypeError] too). *)

Definition text_lines (ls : list str) : str :=
  concat (map (fun l => l ++ [NL]) ls).

Definition sample_load (s : str) : result value :=
  if str_eqb s [] then Ok VNone
  else if str_eqb s (text_lines [lit "title: Hello"; lit "layout: post"]) then
    Ok (VDict [(lit "title", VStr (lit "Hello")); (lit "layout", VStr (lit "post"))])
  else if str_eqb s (text_lines [lit "title: Hello"]) then
    Ok (VDict [(lit "title", VStr (lit "Hello"))])
  else if str_eqb s (text_lines [lit "subtitle: Sub"; lit "layout: post"]) then
    Ok (VDict [(lit "subtitle", VStr (lit "Sub")); (lit "layout", VStr (lit "post"))])
  else if str_eqb s (text_lines [lit "title: x [1, ] y"; lit "layout: post"]) then
    Ok (VDict [(lit "title", VStr (lit "x [1, ] y"));
               (lit "layout", VStr (lit "post"))])
  else if str_eqb s (text_lines [lit "title: Hello"; lit "layout: post";
                                 lit "links: [a, {b: c}]"]) then
    Ok (VDict [(lit "title", VStr (lit "Hello")); (lit "layout", VStr (lit "post"));
               (lit "links",
                VList [VStr (lit "a"); VDict [(lit "b", VStr (lit "c"))]])])
  else Raise YAMLError.

Definition sample_dumps (d : dict) : result str :=
  if plain d then Ok (toml_text d) else Raise TypeError.

Definition sample_libs : Libs :=
  {| yaml_safe_load := sample_load; toml_dumps := sample_dumps |}.

Definition sample_post : str :=
  text_lines [lit "---"; lit "title: Hello"; lit "layout: post"; lit "---";
              lit "body"].

(** A post with an empty metadata block, and one without a title. *)
Definition empty_post : str := text_lines [lit "---"; lit "---"; lit "body"].

Definition untitled_post : str :=
  text_lines [lit "---"; lit "subtitle: Sub"; lit "layout: post"; lit "---";
              lit "body"].

(** A post whose metadata block is not YAML (an unterminated list). *)
Definition broken_post : str :=
  text_lines [lit "---"; lit "title: ["; lit "---"; lit "body"].

Definition sample_world : World :=
  mkWorld
    (Dir [ (lit "posts",
            Dir [ (lit "empty.md", File empty_post);
                  (lit "2023-05-01-hello.md", File sample_post);
                  (lit "notes.txt", File (lit "not a post"));
                  (lit "old",
                   Dir [ (lit "2021-02-03-hello.md", File sample_post) ]) ]);
           (lit "out", Dir []) ])
    [].

(** A post stored with carriage returns: its lines end in a carriage
    return and a line feed, and its body has a carriage return alone
    too. *)
Definition crlf_body : str :=
  lit "one" ++ [CR; NL] ++ lit "two" ++ [CR] ++ lit "three" ++ [NL].

Definition crlf_post : str :=
  lit "---" ++ [CR; NL] ++ lit "title: Hello" ++ [CR; NL]
  ++ lit "layout: post" ++ [CR; NL] ++ lit "---" ++ [CR; NL] ++ crlf_body.

(** A post whose title has a bracketed span that ends in a comma. *)
Definition bracket_post : str :=
  text_lines [lit "---"; lit "title: x [1, ] y"; lit "layout: post"; lit "---";
              lit "body"].


(** A post without [layout]. *)
Definition bare_post : str :=
  text_lines [lit "---"; lit "title: Hello"; lit "---"; lit "body"].

(** A directory of two posts, [first] and then one that converts. *)
Definition world_of (first : str) : World :=
  mkWorld
    (Dir [ (lit "posts",
            Dir [ (lit "first.md", File first);
                  (lit "2023-05-01-hello.md", File sample_post) ]);
           (lit "out", Dir []) ])
    [].

Definition quoted (s : str) : str := [DQUOTE] ++ s ++ [DQUOTE].

(** A destination front matter with a date, one tag and one further
    key. *)
Definition sample_zola : ZolaFront.t :=
  ZolaFront.mk (VStr (lit "Hello")) (Some (mkdate 2023 5 1)) VNone VNone
    [(lit "comments", VBool true)]
    [(lit "tags", VList [VStr (lit "solo")])].

(** A decoded front matter with a date of its own, and a source front
    matter with a string as author. *)
Definition sample_front : value :=
  VDict [ (lit "title", VStr (lit "Hello"));
          (lit "layout", VStr (lit "post"));
          (lit "date", VStr (lit "2020-01-01")) ].

Definition alice_front : JekyllFront.t :=
  JekyllFront.mk (VStr (lit "Hello")) (VStr (lit "2023-05-01")) VNone
    (VStr (lit "Alice")) VNone [].

(** ** Vocabulary of the further properties *)

(** [l] is one line of a text: it ends with the newline and has no other. *)
Definition is_line (l : str) : Prop :=
  exists l0, l = l0 ++ [NL] /\ ~ In NL l0.

(** The keys of a mapping, in order. *)
Definition keys (d : dict) : list str := map fst d.

(** [d] is a calendar date as the [date] constructor accepts it. *)
Definition valid (d : date) : bool := valid_date (year d) (month d) (day d).

(** [w'] differs from [w] at most at [out] and at the entries of [out]. *)
Definition same_outside (out : path) (w w' : World) : Prop :=
  forall q,
    ~ is_prefix q out -> (forall name, q <> out ++ [name]) ->
    lookup q (fs w') = lookup q (fs w).

(** The directories of [w'] are those of [w]. *)
Definition same_dirs (w w' : World) : Prop :=
  forall q,
    (exists es, lookup q (fs w) = Some (Dir es)) <->
    (exists es', lookup q (fs w') = Some (Dir es')).

(** [t] is [s] with some of its characters removed, all of them
    satisfying [del]. *)
Inductive deleting (del : ascii -> bool) : str -> str -> Prop :=
| deleting_nil : deleting del [] []
| deleting_keep (c : ascii) (s t : str) :
    deleting del s t -> deleting del (c :: s) (c :: t)
| deleting_drop (c : ascii) (s t : str) :
    del c = true -> deleting del s t -> deleting del (c :: s) t.

Definition blank_or_comma (c : ascii) : bool := isspace c || is_char "," c.

(** [p] is a directory of [w] ([os.path.isdir]). *)
Definition is_dir (p : path) (w : World) : bool :=
  match lookup p (fs w) with
  | Some (Dir _) => true
  | _ => false
  end.

(** The text of the file at [q], when [q] is a file of [w]. *)
Definition file_at (q : path) (w : World) : option str :=
  match lookup q (fs w) with
  | Some (File t) => Some t
  | _ => None
  end.

(** [w] and [w'] have the same files, with the same texts. *)
Definition same_files (w w' : World) : Prop :=
  forall q, file_at q w' = file_at q w.

(** The error stream of [w'] is that of [w] followed by diagnostics of
    [convert_file]. *)
Definition only_diagnostics (w w' : World) : Prop :=
  exists k, stderr w' = stderr w ++ repeat parse_error_msg k.

(** * Proofs *)

(** ** Text *)

Lemma str_eqb_eq (a b : str) : str_eqb a b = true <-> a = b.
Proof.
  revert b; induction a as [|x a IH]; intros [|y b]; simpl; split; intro H;
    try reflexivity; try discriminate.
  - apply andb_true_iff in H as [Hx Hab].
    apply Ascii.eqb_eq in Hx. apply IH in Hab. now subst.
  - inversion H; subst. rewrite Ascii.eqb_refl. simpl. now apply IH.
Qed.

Lemma str_eqb_refl (a : str) : str_eqb a a = true.
Proof. now apply str_eqb_eq. Qed.

Lemma str_eqb_neq (a b : str) : str_eqb a b = false <-> a <> b.
Proof.
  split.
  - intros H E. apply str_eqb_eq in E. congruence.
  - intros H. destruct (str_eqb a b) eqn:E; [|reflexivity].
    apply str_eqb_eq in E. contradiction.
Qed.

Lemma join_file_lines (s : str) : join (file_lines s) = s.
Proof.
  unfold join. induction s as [|c s IH]; simpl; [reflexivity|].
  destruct (Ascii.eqb c NL); simpl; [now rewrite IH|].
  destruct (file_lines s) as [|l ls]; simpl in *; now rewrite <- IH.
Qed.

(** ** The Document Reader *)

Lemma read_lines_app (p : Parser.t) (a b : list str) :
  Parser.read_lines p (a ++ b) = Parser.read_lines (Parser.read_lines p a) b.
Proof. unfold Parser.read_lines. apply fold_left_app. Qed.

Lemma read_unknown_skip (p : Parser.t) (pre : list str) :
  Parser.state p = UNKNOWN -> no_delim pre -> Parser.read_lines p pre = p.
Proof.
  intros Hs Hpre. induction Hpre as [|l pre Hl _ IH]; [reflexivity|].
  unfold Parser.read_lines in *. simpl.
  unfold Parser.read_line at 2. now rewrite Hs, Hl.
Qed.

Lemma read_front_acc (meta : list str) :
  no_delim meta ->
  forall p, Parser.state p = FRONT_MATTER ->
  Parser.read_lines p meta =
  Parser.mk (Parser.file_path p) FRONT_MATTER (Parser.raw_front p ++ meta)
    (Parser.front p) (Parser.content p).
Proof.
  induction 1 as [|l meta Hl _ IH]; intros p Hs.
  - simpl. rewrite app_nil_r. destruct p; simpl in *; now subst.
  - unfold Parser.read_lines in *. simpl.
    unfold Parser.read_line at 2. rewrite Hs, Hl.
    rewrite IH by reflexivity. simpl. now rewrite <- app_assoc.
Qed.

Lemma read_content_acc (rest : list str) :
  forall p, Parser.state p = CONTENT ->
  Parser.read_lines p rest =
  Parser.mk (Parser.file_path p) CONTENT (Parser.raw_front p)
    (Parser.front p) (Parser.content p ++ rest).
Proof.
  induction rest as [|l rest IH]; intros p Hs.
  - simpl. rewrite app_nil_r. destruct p; simpl in *; now subst.
  - unfold Parser.read_lines in *. simpl.
    unfold Parser.read_line at 2. rewrite Hs.
    rewrite IH by reflexivity. simpl. now rewrite <- app_assoc.
Qed.

(** Every sequence of lines either has no delimiter or splits at its
    first one. *)
Lemma first_delim (ls : list str) :
  no_delim ls \/
  exists pre d rest,
    ls = pre ++ d :: rest /\ no_delim pre /\ Parser.is_delim d = true.
Proof.
  induction ls as [|l ls IH].
  - left. constructor.
  - destruct (Parser.is_delim l) eqn:Hl.
    + right. exists [], l, ls. repeat split; [constructor | exact Hl].
    + destruct IH as [Hn | (pre & d & rest & -> & Hpre & Hd)].
      * left. now constructor.
      * right. exists (l :: pre), d, rest. repeat split; [now constructor | exact Hd].
Qed.

(** The three shapes a file can have, and the Reader's result on each. *)
Lemma reader_cases (fp : path) (ls : list str) :
  let r := Parser.read_lines (Parser.init fp) ls in
  (exists pre d1 meta d2 rest,
      ls = pre ++ d1 :: meta ++ d2 :: rest /\
      no_delim pre /\ Parser.is_delim d1 = true /\
      no_delim meta /\ Parser.is_delim d2 = true /\
      r = Parser.mk fp CONTENT meta VNone rest)
  \/ (exists pre d1 meta,
      ls = pre ++ d1 :: meta /\
      no_delim pre /\ Parser.is_delim d1 = true /\ no_delim meta /\
      r = Parser.mk fp FRONT_MATTER meta VNone [])
  \/ (no_delim ls /\ r = Parser.mk fp UNKNOWN [] VNone []).
Proof.
  intros r. subst r.
  destruct (first_delim ls) as [Hn | (pre & d1 & tl & -> & Hpre & Hd1)].
  { right; right. split; [exact Hn|]. now apply read_unknown_skip. }
  assert (Hstep : Parser.read_lines (Parser.init fp) (pre ++ d1 :: tl) =
                  Parser.read_lines (Parser.mk fp FRONT_MATTER [] VNone []) tl).
  { rewrite read_lines_app, (read_unknown_skip (Parser.init fp) eq_refl Hpre).
    unfold Parser.read_lines. simpl. unfold Parser.read_line at 2. simpl.
    now rewrite Hd1. }
  rewrite Hstep.
  destruct (first_delim tl) as [Hn | (meta & d2 & rest & -> & Hmeta & Hd2)].
  { right; left. exists pre, d1, tl. repeat split; try assumption.
    now rewrite read_front_acc. }
  left. exists pre, d1, meta, d2, rest. repeat split; try assumption.
  rewrite read_lines_app, (read_front_acc Hmeta) by reflexivity.
  unfold Parser.read_lines. simpl. unfold Parser.read_line at 2. simpl.
  rewrite Hd2. fold (Parser.read_lines (Parser.mk fp CONTENT meta VNone []) rest).
  now rewrite read_content_acc.
Qed.

(** The content lines are the last lines of the file, untouched. *)
Lemma content_is_suffix (fp : path) (ls : list str) :
  exists hd, ls = hd ++ Parser.content (Parser.read_lines (Parser.init fp) ls).
Proof.
  destruct (reader_cases fp ls)
    as [(pre & d1 & meta & d2 & rest & -> & _ & _ & _ & _ & ->)
       |[(pre & d1 & meta & -> & _ & _ & _ & ->) | [_ ->]]];
    cbn [Parser.content].
  - exists (pre ++ d1 :: meta ++ [d2]).
    now rewrite <- !app_assoc, <- !app_comm_cons, <- app_assoc.
  - exists (pre ++ d1 :: meta). now rewrite app_nil_r.
  - exists ls. now rewrite app_nil_r.
Qed.

(** C7. The Reader is a three-state classifier of the lines: a line is a
    delimiter when it equals [---] once stripped; the first delimiter
    moves UNKNOWN to FRONT_MATTER, the second FRONT_MATTER to CONTENT;
    the lines between them are the metadata lines and the lines after
    the second are the content lines, verbatim. A file without a second
    delimiter yields the metadata collected and no content, and a file
    without any yields neither: the scan is total and never fails. *)
Theorem C7_reader_classifier :
  (forall line, Parser.is_delim line = true <-> strip line = lit "---") /\
  forall (fp : path) (ls : list str),
    let r := Parser.read_lines (Parser.init fp) ls in
    (exists pre d1 meta d2 rest,
        ls = pre ++ d1 :: meta ++ d2 :: rest /\
        no_delim pre /\ Parser.is_delim d1 = true /\
        no_delim meta /\ Parser.is_delim d2 = true /\
        r = Parser.mk fp CONTENT meta VNone rest)
    \/ (exists pre d1 meta,
        ls = pre ++ d1 :: meta /\
        no_delim pre /\ Parser.is_delim d1 = true /\ no_delim meta /\
        r = Parser.mk fp FRONT_MATTER meta VNone [])
    \/ (no_delim ls /\ r = Parser.mk fp UNKNOWN [] VNone []).
Proof.
  split; [intro line; apply str_eqb_eq | exact reader_cases].
Qed.

(** C10. The lines before the first delimiter line are discarded: the
    Reader's result on [pre ++ rest] is its result on [rest] alone, so
    no line of [pre] reaches the metadata or the content lines. *)
Theorem C10_preamble_discarded (fp : path) (pre rest : list str) :
  no_delim pre ->
  Parser.read_lines (Parser.init fp) (pre ++ rest) =
  Parser.read_lines (Parser.init fp) rest
  /\ Parser.raw_front (Parser.read_lines (Parser.init fp) pre) = []
  /\ Parser.content (Parser.read_lines (Parser.init fp) pre) = [].
Proof.
  intros Hpre.
  rewrite read_lines_app, (read_unknown_skip (Parser.init fp) eq_refl Hpre).
  repeat split.
Qed.

Lemma C10_preamble_discarded_witness :
  no_delim [lit "junk"; lit "more junk"] /\
  Parser.read_lines (Parser.init [lit "a.md"])
    ([lit "junk"; lit "more junk"] ++ [lit "---"; lit "title: T"; lit "---"; lit "body"]) =
  Parser.mk [lit "a.md"] CONTENT [lit "title: T"] VNone [lit "body"].
Proof.
  assert (H : no_delim [lit "junk"; lit "more junk"])
    by (repeat constructor).
  split; [exact H|].
  rewrite (proj1 (C10_preamble_discarded [lit "a.md"]
                    [lit "---"; lit "title: T"; lit "---"; lit "body"] H)).
  reflexivity.
Defined.

(** ** The date pattern of [extract_date] *)

Lemma date_shaped_length (m : str) : is_date_shaped m = true -> length m = 10.
Proof.
  do 10 (destruct m as [|? m]; [discriminate|]).
  destruct m; [reflexivity | discriminate].
Qed.

Lemma firstn_app_exact {A} (a b : list A) : firstn (length a) (a ++ b) = a.
Proof. induction a; simpl; [now destruct b | now f_equal]. Qed.

Ltac next_char s c :=
  destruct s as [|c s]; [try discriminate; try reflexivity|]; cbn.

Lemma date_re_match_some (s : str) (x : nat * caps) :
  re_match JekyllDoc.date_re s = Some x ->
  is_date_shaped (firstn 10 s) = true /\ x = (10, []).
Proof.
  unfold re_match, JekyllDoc.date_re.
  next_char s y1. destruct (isdigit y1); [|discriminate].
  next_char s y2. destruct (isdigit y2); [|discriminate].
  next_char s y3. destruct (isdigit y3); [|discriminate].
  next_char s y4. destruct (isdigit y4); [|discriminate].
  next_char s h1. destruct (is_char "-" h1); [|discriminate].
  next_char s m1. destruct (isdigit m1); [|discriminate].
  next_char s m2. destruct (isdigit m2); [|discriminate].
  next_char s h2. destruct (is_char "-" h2); [|discriminate].
  next_char s d1. destruct (isdigit d1); [|discriminate].
  next_char s d2. destruct (isdigit d2); [|discriminate].
  intros [= <-]. split; [reflexivity|].
  f_equal. unfold consumed. simpl length. lia.
Qed.

Lemma date_re_match_shaped (s : str) :
  is_date_shaped (firstn 10 s) = true ->
  re_match JekyllDoc.date_re s = Some (10, []).
Proof.
  unfold re_match, JekyllDoc.date_re.
  do 10 (destruct s as [|? s]; [discriminate|]).
  rewrite firstn_cons, firstn_cons, firstn_cons, firstn_cons, firstn_cons,
    firstn_cons, firstn_cons, firstn_cons, firstn_cons, firstn_cons, firstn_O.
  cbn [is_date_shaped]. intros H.
  do 9 (apply andb_true_iff in H as [H ?]).
  cbn. repeat match goal with E : _ = true |- _ => rewrite E; clear E end.
  do 2 f_equal. unfold consumed. simpl length. lia.
Qed.

Lemma date_re_match (s : str) :
  re_match JekyllDoc.date_re s =
  if is_date_shaped (firstn 10 s) then Some (10, []) else None.
Proof.
  destruct (is_date_shaped (firstn 10 s)) eqn:Hd.
  - now apply date_re_match_shaped.
  - destruct (re_match JekyllDoc.date_re s) as [x|] eqn:Hm; [|reflexivity].
    apply date_re_match_some in Hm as [Hm _]. congruence.
Qed.

Lemma re_search_date_unfold (s : str) :
  re_search JekyllDoc.date_re s =
  if is_date_shaped (firstn 10 s) then Some (firstn 10 s)
  else match s with
       | [] => None
       | _ :: s' => re_search JekyllDoc.date_re s'
       end.
Proof.
  destruct s as [|c s]; cbn [re_search]; rewrite date_re_match;
    now destruct (is_date_shaped _).
Qed.

(** [re.search] with the date pattern returns the first substring of
    the shape, and nothing exactly when there is none. *)
Lemma re_search_date_spec (path : str) :
  match re_search JekyllDoc.date_re path with
  | Some m => first_date_in path m
  | None => ~ contains_date path
  end.
Proof.
  induction path as [|c path IH]; rewrite re_search_date_unfold.
  - cbn. intros (pre & m & post & E & Hm).
    apply date_shaped_length in Hm.
    apply (f_equal (@length _)) in E. rewrite !length_app in E. simpl in E. lia.
  - destruct (is_date_shaped (firstn 10 (c :: path))) eqn:Hd.
    + exists [], (skipn 10 (c :: path)). split; [|split].
      * exact (eq_sym (firstn_skipn 10 (c :: path))).
      * exact Hd.
      * intros; simpl; lia.
    + destruct (re_search JekyllDoc.date_re path) as [m|].
      * destruct IH as (pre & post & -> & Hm & Hmin).
        exists (c :: pre), post. split; [reflexivity|]. split; [exact Hm|].
        intros [|c' pre'] m' post' E Hm'.
        -- exfalso. simpl in E. rewrite E in Hd.
           rewrite <- (date_shaped_length _ Hm'), firstn_app_exact in Hd. congruence.
        -- simpl in E. injection E as _ E. simpl.
           apply le_n_S. eapply Hmin; eassumption.
      * intros (pre & m & post & E & Hm). destruct pre as [|c' pre].
        -- simpl in E. rewrite E in Hd.
           rewrite <- (date_shaped_length _ Hm), firstn_app_exact in Hd. congruence.
        -- simpl in E. injection E as _ E. apply IH. now exists pre, m, post.
Qed.

(** ** [strptime] and [isoformat] on strings of the shape YYYY-MM-DD *)

Lemma isdigit_In (c : ascii) : isdigit c = true -> In c digits.
Proof.
  destruct c as [[] [] [] [] [] [] [] []]; vm_compute; intros H;
    try discriminate H; tauto.
Qed.

Ltac digit_cases H :=
  apply isdigit_In in H; cbn in H;
  repeat (destruct H as [<- | H]); [.. | contradiction].





Lemma consumed_app (a r : str) : consumed (a ++ r) r = length a.
Proof. unfold consumed. rewrite length_app. lia. Qed.

Lemma capture_app (a r : str) : firstn (consumed (a ++ r) r) (a ++ r) = a.
Proof. rewrite consumed_app. apply firstn_app_exact. Qed.

Lemma strptime_re_parts :
  strptime_re =
  Cat year_re (Cat (Cls (is_char "-"))
    (Cat month_re (Cat (Cls (is_char "-")) day_re))).
Proof. reflexivity. Qed.

Lemma year_match {A} (y1 y2 y3 y4 : ascii) (rest : str) (g : caps)
    (k : str -> caps -> option A) :
  isdigit y1 = true -> isdigit y2 = true -> isdigit y3 = true -> isdigit y4 = true ->
  rmatch year_re (y1 :: y2 :: y3 :: y4 :: rest) g k =
  k rest ((1, [y1; y2; y3; y4]) :: g).
Proof.
  intros H1 H2 H3 H4.
  pose proof (capture_app [y1; y2; y3; y4] rest) as Hc. simpl app in Hc.
  cbn. rewrite H1, H2, H3, H4. now rewrite Hc.
Qed.

Lemma isdigit_not_hyphen (c : ascii) : isdigit c = true -> is_char "-" c = false.
Proof. intros H. digit_cases H; reflexivity. Qed.

Lemma month_match {A} (m1 m2 : ascii) (rest : str) (g : caps)
    (k : str -> caps -> option A) :
  isdigit m1 = true -> isdigit m2 = true ->
  (forall c s g', isdigit c = true -> k (c :: s) g' = None) ->
  rmatch month_re (m1 :: m2 :: rest) g k =
  if month2_ok m1 m2 then k rest ((2, [m1; m2]) :: g) else None.
Proof.
  intros H1 H2 Hk.
  pose proof (capture_app [m1; m2] rest) as Hc.
  digit_cases H1; digit_cases H2; cbn in *;
    rewrite ?Hk by reflexivity; try reflexivity;
    rewrite Hc; now destruct (k rest _).
Qed.

Lemma day_match {A} (d1 d2 : ascii) (g : caps) (f : str -> caps -> A) :
  isdigit d1 = true -> isdigit d2 = true ->
  rmatch day_re [d1; d2] g (fun s' g' => Some (f s' g')) =
  if day2_ok d1 d2 then Some (f [] ((3, [d1; d2]) :: g))
  else if in_range "1" "9" d1 then Some (f [d2] ((3, [d1]) :: g))
  else None.
Proof.
  intros H1 H2. digit_cases H1; digit_cases H2; vm_compute; reflexivity.
Qed.

Lemma is_char_eq (a c : ascii) : is_char a c = true -> c = a.
Proof. apply Ascii.eqb_eq. Qed.


(** ** The date override *)

Lemma init_date (front : value) (content path : str) (doc : JekyllDoc.t) (m : str) :
  JekyllDoc.init front content path = Ok doc ->
  re_search JekyllDoc.date_re path = Some m ->
  JekyllFront.date (JekyllDoc.front doc) = VStr m.
Proof.
  unfold JekyllDoc.init, JekyllDoc.extract_date. intros Hdoc Hs.
  destruct (JekyllFront.call front) as [f|e]; [|discriminate].
  cbn in Hdoc. rewrite Hs in Hdoc. now injection Hdoc as <-.
Qed.




(** ** Mappings *)

Lemma dict_get_filter (P : str -> bool) (k : str) (d : dict) :
  dict_get k (filter (fun kv => P (fst kv)) d) =
  if P k then dict_get k d else None.
Proof.
  induction d as [|[k' v] d IH]; simpl.
  - now destruct (P k).
  - destruct (str_eqb k' k) eqn:E.
    + apply str_eqb_eq in E. subst k'.
      destruct (P k) eqn:Pk; simpl.
      * now rewrite str_eqb_refl.
      * rewrite IH, ?Pk. reflexivity.
    + destruct (P k'); simpl; [rewrite E|]; exact IH.
Qed.

Lemma dict_get_remove (k k' : str) (d : dict) :
  dict_get k (dict_remove k' d) = if str_eqb k k' then None else dict_get k d.
Proof.
  unfold dict_remove.
  rewrite (dict_get_filter (fun x => negb (str_eqb x k'))).
  now destruct (str_eqb k k').
Qed.

Lemma dict_get_set (k k' : str) (v : value) (d : dict) :
  dict_get k (dict_set k' v d) = if str_eqb k' k then Some v else dict_get k d.
Proof.
  induction d as [|[k0 v0] d IH]; simpl.
  - reflexivity.
  - destruct (str_eqb k0 k') eqn:E0; simpl.
    + apply str_eqb_eq in E0. subst k0. now destruct (str_eqb k' k).
    + destruct (str_eqb k0 k) eqn:E1; [|exact IH].
      destruct (str_eqb k' k) eqn:E2; [|reflexivity].
      apply str_eqb_eq in E1, E2. subst. now rewrite str_eqb_refl in E0.
Qed.

Lemma dict_mem_filter (P : str -> bool) (k : str) (d : dict) :
  P k = true ->
  dict_mem k (filter (fun kv => P (fst kv)) d) = dict_mem k d.
Proof. unfold dict_mem. intros HP. now rewrite dict_get_filter, HP. Qed.

(** ** The file system *)

Lemma find_update_same (name : str) (f : node -> option node)
    (fresh : option node) (es es' : list (str * node)) :
  update_entry name f fresh es = Some es' ->
  exists c',
    find_entry name es' = Some c' /\
    match find_entry name es with
    | Some c => f c = Some c'
    | None => fresh = Some c'
    end.
Proof.
  revert es'. induction es as [|[n c] es IH]; intros es'; simpl.
  - destruct fresh as [c'|]; [|discriminate]. intros [= <-]. simpl.
    rewrite str_eqb_refl. now exists c'.
  - destruct (str_eqb n name) eqn:E.
    + destruct (f c) as [c'|]; [|discriminate]. intros [= <-]. simpl.
      rewrite E. now exists c'.
    + destruct (update_entry name f fresh es) as [es0|]; [|discriminate].
      intros [= <-]. simpl. rewrite E. now apply IH.
Qed.

Lemma find_update_other (name name' : str) (f : node -> option node)
    (fresh : option node) (es es' : list (str * node)) :
  name' <> name ->
  update_entry name f fresh es = Some es' ->
  find_entry name' es' = find_entry name' es.
Proof.
  intros Hne. revert es'. induction es as [|[n c] es IH]; intros es'; simpl.
  - destruct fresh as [c'|]; [|discriminate]. intros [= <-]. simpl.
    destruct (str_eqb name name') eqn:E; [|reflexivity].
    apply str_eqb_eq in E. congruence.
  - destruct (str_eqb n name) eqn:E.
    + destruct (f c) as [c'|]; [|discriminate]. intros [= <-]. simpl.
      apply str_eqb_eq in E. subst n.
      destruct (str_eqb name name') eqn:E'; [|reflexivity].
      apply str_eqb_eq in E'. congruence.
    + destruct (update_entry name f fresh es) as [es0|]; [|discriminate].
      intros [= <-]. simpl. destruct (str_eqb n name'); [reflexivity|].
      now apply IH.
Qed.

(** After a write the file is there, with the text written. *)
Lemma lookup_write_same (p : path) (text : str) :
  forall n n', write_node p text n = Some n' -> lookup p n' = Some (File text).
Proof.
  induction p as [|name rest IH]; intros n n'; simpl.
  - destruct n; [|discriminate]. now intros [= <-].
  - destruct n as [t|es]; [discriminate|].
    destruct (update_entry name _ _ es) as [es'|] eqn:Hu; [|discriminate].
    intros [= <-].
    destruct (find_update_same _ _ _ _ Hu) as (c' & Hf & Hc). rewrite Hf.
    destruct (find_entry name es) as [c|].
    + now apply IH with c.
    + destruct rest; [|discriminate]. now injection Hc as <-.
Qed.

(** A write fails on a directory. *)
Lemma write_dir_fails (p : path) (text : str) :
  forall n es, lookup p n = Some (Dir es) -> write_node p text n = None.
Proof.
  induction p as [|name rest IH]; intros n es; simpl.
  - now intros [= ->].
  - destruct n as [t|es0]; [discriminate|].
    destruct (find_entry name es0) as [c|] eqn:Hf; [|discriminate].
    intros Hl.
    destruct (update_entry name _ _ es0) as [es'|] eqn:Hu; [|reflexivity].
    destruct (find_update_same _ _ _ _ Hu) as (c' & _ & Hc).
    rewrite Hf, (IH _ _ Hl) in Hc. discriminate.
Qed.

(** A write leaves every path alone that is not a prefix of its own. *)
Lemma lookup_write_frame (p : path) (text : str) :
  forall n n' q,
    write_node p text n = Some n' ->
    ~ is_prefix q p ->
    lookup q n' = lookup q n.
Proof.
  induction p as [|name rest IH]; intros n n' q; simpl.
  - destruct n; [|discriminate]. intros [= <-] Hq.
    destruct q as [|x q]; [|reflexivity].
    exfalso. apply Hq. now exists [].
  - destruct n as [t|es]; [discriminate|].
    destruct (update_entry name _ _ es) as [es'|] eqn:Hu; [|discriminate].
    intros [= <-] Hq.
    destruct q as [|x q]; [exfalso; apply Hq; now exists (name :: rest)|].
    simpl.
    destruct (list_eq_dec ascii_dec x name) as [->|Hne].
    + destruct (find_update_same _ _ _ _ Hu) as (c' & Hf & Hc). rewrite Hf.
      destruct (find_entry name es) as [c|].
      * apply (IH _ _ _ Hc). intros [r ->]. apply Hq. now exists r.
      * destruct rest; [|discriminate]. injection Hc as <-.
        destruct q as [|y q]; [|reflexivity].
        exfalso. apply Hq. now exists [].
    + now rewrite (find_update_other _ _ _ Hne Hu).
Qed.

(** A second write at the same path replaces the first. *)
Lemma update_update (name : str) (f g h : node -> option node)
    (fresh fresh1 fresh2 : option node) :
  (forall c c1 c2, f c = Some c1 -> g c1 = Some c2 -> h c = Some c2) ->
  (forall c1 c2, fresh = Some c1 -> g c1 = Some c2 -> fresh2 = Some c2) ->
  forall es es1 es2,
    update_entry name f fresh es = Some es1 ->
    update_entry name g fresh1 es1 = Some es2 ->
    update_entry name h fresh2 es = Some es2.
Proof.
  intros Hfg Hfr. induction es as [|[n c] es IH]; intros es1 es2; simpl.
  - destruct fresh as [c1|]; [|discriminate]. intros [= <-]. simpl.
    rewrite str_eqb_refl. destruct (g c1) as [c2|] eqn:Hg; [|discriminate].
    intros [= <-]. now rewrite (Hfr c1 c2 eq_refl Hg).
  - destruct (str_eqb n name) eqn:E.
    + destruct (f c) as [c1|] eqn:Hf; [|discriminate]. intros [= <-]. simpl.
      rewrite E. destruct (g c1) as [c2|] eqn:Hg; [|discriminate].
      intros [= <-]. now rewrite (Hfg c c1 c2 Hf Hg).
    + destruct (update_entry name f fresh es) as [es1'|] eqn:Hu; [|discriminate].
      intros [= <-]. simpl. rewrite E.
      destruct (update_entry name g fresh1 es1') as [es2'|] eqn:Hu2; [|discriminate].
      intros [= <-]. now rewrite (IH _ _ eq_refl Hu2).
Qed.

Lemma write_write (p : path) (s s' : str) :
  forall n n1 n2,
    write_node p s n = Some n1 ->
    write_node p s' n1 = Some n2 ->
    write_node p s' n = Some n2.
Proof.
  induction p as [|name rest IH]; intros n n1 n2; simpl.
  - destruct n as [t|es]; [|discriminate]. intros [= <-]. now intros [= <-].
  - destruct n as [t|es]; [discriminate|].
    destruct (update_entry name _ _ es) as [es1|] eqn:Hu; [|discriminate].
    intros [= <-].
    destruct (update_entry name _ _ es1) as [es2|] eqn:Hu2; [|discriminate].
    intros [= <-].
    erewrite update_update; [reflexivity | | | exact Hu | exact Hu2].
    + intros c c1 c2. apply IH.
    + intros c1 c2. destruct rest; [|discriminate].
      intros [= <-]. simpl. now intros [= <-].
Qed.

(** A file that could be opened can be written. *)
Lemma write_again (p : path) (s s' : str) :
  forall n n1,
    write_node p s n = Some n1 ->
    exists n2, write_node p s' n1 = Some n2.
Proof.
  induction p as [|name rest IH]; intros n n1; simpl.
  - destruct n as [t|es]; [|discriminate]. intros [= <-]. now eexists.
  - destruct n as [t|es]; [discriminate|].
    destruct (update_entry name _ _ es) as [es1|] eqn:Hu; [|discriminate].
    intros [= <-].
    destruct (find_update_same _ _ _ _ Hu) as (c' & Hf & Hc).
    assert (Hc' : exists c2, write_node rest s' c' = Some c2).
    { destruct (find_entry name es) as [c|].
      - exact (IH _ _ Hc).
      - destruct rest; [|discriminate]. injection Hc as <-. now eexists. }
    destruct Hc' as [c2 Hc2].
    clear Hu Hc. revert Hf. generalize (match rest with
                                        | [] => Some (File s')
                                        | _ :: _ => None
                                        end).
    induction es1 as [|[n0 c0] es1 IHes]; intros fresh; simpl; [discriminate|].
    destruct (str_eqb n0 name).
    + intros [= ->]. rewrite Hc2. now eexists.
    + intros Hf. destruct (IHes fresh Hf) as [n2 Hn2].
      destruct (update_entry name (write_node rest s') fresh es1);
        [now eexists | discriminate].
Qed.

(** Opening a file and then writing it is one write. *)
Lemma open_then_write (p : path) (s : str) (n : node) :
  match write_node p [] n with
  | Some n1 => write_node p s n1 = write_node p s n /\ write_node p s n <> None
  | None => write_node p s n = None
  end.
Proof.
  destruct (write_node p [] n) as [n1|] eqn:H1.
  - destruct (@write_again p [] s n n1 H1) as [n2 H2].
    pose proof (@write_write p [] s n n1 n2 H1 H2) as H3.
    rewrite H2, H3. split; [reflexivity | discriminate].
  - destruct (write_node p s n) as [n2|] eqn:H2; [|reflexivity].
    destruct (@write_again p s [] n n2 H2) as [n3 H3].
    pose proof (@write_write p s [] n n2 n3 H2 H3) as H4. congruence.
Qed.

(** ** The pipeline *)

Section Pipeline.
Context {L : Libs}.

Lemma convert_file_spec (in_path out_path : path) (w : World) (text : str) :
  lookup in_path (fs w) = Some (File text) ->
  convert_file in_path out_path w =
  match decoded in_path text with
  | Raise e => (Raise e, w)
  | Ok v =>
      if truthy v then
        match JekyllDoc.init v (body_of in_path text) (path_str in_path) with
        | Raise e => (Raise e, w)
        | Ok doc =>
            match JekyllFront.to_zola_front (JekyllDoc.front doc) with
            | Raise e => (Raise e, w)
            | Ok zf =>
                match ZolaDoc.to_string (ZolaDoc.mk zf (JekyllDoc.content doc)) with
                | Ok s => write_file (dest w in_path out_path) s w
                | Raise e =>
                    match write_node (dest w in_path out_path) [] (fs w) with
                    | Some fs1 => (Raise e, mkWorld fs1 (stderr w))
                    | None => (Raise OSError, w)
                    end
                end
            end
        end
      else (Ok tt, with_err w parse_error_msg)
  end.
Proof.
  intros Hf.
  unfold convert_file, open_file, Parser.read, bind, read_file, lift, ret,
    decoded, body_of, dest.
  cbn [Parser.file_path Parser.init]. rewrite Hf.
  destruct (yaml_safe_load _) as [v|e]; [|reflexivity].
  unfold Parser.into_jekyll. cbn [Parser.front Parser.content Parser.file_path].
  destruct (truthy v); [|reflexivity].
  assert (Hfp : forall ls p, Parser.file_path (Parser.read_lines p ls) = Parser.file_path p).
  { induction ls as [|l ls IH]; intros p; [reflexivity|].
    unfold Parser.read_lines in *. simpl. rewrite IH.
    unfold Parser.read_line.
    destruct (Parser.state p), (Parser.is_delim l); reflexivity. }
  rewrite Hfp. cbn [Parser.file_path Parser.init].
  destruct (JekyllDoc.init _ _ _) as [doc|e]; [|reflexivity].
  cbn [rbind].
  destruct (JekyllFront.to_zola_front _) as [zf|e]; [|reflexivity].
  unfold isdir, open_w, write_file.
  destruct (lookup out_path (fs w)) as [[t|es]|];
    match goal with |- context [write_node ?D [] (fs w)] =>
      destruct (ZolaDoc.to_string _) as [s|e];
      [ pose proof (open_then_write D s (fs w)) as Ho;
        destruct (write_node D [] (fs w)) as [fs1|]; cbn [fs stderr];
        [ destruct Ho as [-> Hne];
          destruct (write_node D s (fs w)); [reflexivity | now destruct Hne]
        | now rewrite Ho ]
      | destruct (write_node D [] (fs w)) as [fs1|]; reflexivity ]
    end.
Qed.

Lemma convert_file_unreadable (p out : path) (w : World) :
  (forall t, lookup p (fs w) <> Some (File t)) ->
  convert_file p out w = (Raise OSError, w).
Proof.
  intros Hp.
  unfold convert_file, open_file, Parser.read, bind, read_file.
  cbn [Parser.file_path Parser.init].
  destruct (lookup p (fs w)) as [[t|es]|]; try reflexivity.
  now destruct (Hp t).
Qed.

(** What one conversion does to the world: nothing when it raises before
    the output is open, one diagnostic, one file written, or, when the
    serializer raises, the output left open and empty. *)
Lemma convert_file_effect (p out : path) (w w' : World) (r : result unit) :
  convert_file p out w = (r, w') ->
  (exists e, r = Raise e /\ w' = w)
  \/ (r = Ok tt /\ w' = with_err w parse_error_msg)
  \/ (r = Ok tt /\ stderr w' = stderr w /\
      exists s, write_node (dest w p out) s (fs w) = Some (fs w'))
  \/ (exists e zf,
        r = Raise e /\ toml_dumps (ZolaFront.to_toml_data zf) = Raise e /\
        stderr w' = stderr w /\
        write_node (dest w p out) [] (fs w) = Some (fs w')).
Proof.
  destruct (lookup p (fs w)) as [[text|es]|] eqn:Hp.
  2,3: rewrite convert_file_unreadable by (intros t; rewrite Hp; discriminate);
       intros [= <- <-]; left; now eexists.
  rewrite (@convert_file_spec p out w text Hp).
  destruct (decoded p text) as [v|e]; [|intros [= <- <-]; left; now eexists].
  destruct (truthy v); [|intros [= <- <-]; right; left; now split].
  destruct (JekyllDoc.init _ _ _) as [doc|e];
    [|intros [= <- <-]; left; now eexists].
  destruct (JekyllFront.to_zola_front _) as [zf|e];
    [|intros [= <- <-]; left; now eexists].
  destruct (ZolaDoc.to_string _) as [s|e] eqn:Hs.
  - unfold write_file.
    destruct (write_node (dest w p out) s (fs w)) as [fs1|] eqn:Hw;
      intros [= <- <-].
    + right. right. left. cbn [fs stderr]. repeat split. now exists s.
    + left. now eexists.
  - destruct (write_node (dest w p out) [] (fs w)) as [fs1|] eqn:Hw;
      intros [= <- <-].
    + right. right. right. exists e, zf. cbn [fs stderr].
      split; [reflexivity|]. split; [|now split].
      unfold ZolaDoc.to_string, ZolaFront.to_toml in Hs.
      cbn [ZolaDoc.front] in Hs.
      destruct (toml_dumps (ZolaFront.to_toml_data zf)); [discriminate|].
      now injection Hs as ->.
    + left. now eexists.
Qed.

Lemma main_body_cons (out root : path) (dirs : list str) (f : str)
    (rest : list str) (w : World) :
  endswith f (lit ".md") = true ->
  main_body out root dirs (f :: rest) w =
  match convert_file (root ++ [f]) out w with
  | (Ok _, w') => main_body out root dirs rest w'
  | (Raise e, w') => (Raise e, w')
  end.
Proof.
  intros Hmd. unfold main_body. cbn [for_each]. rewrite Hmd.
  unfold bind. now destruct (convert_file _ _ w) as [[[]|e] w'].
Qed.

Lemma main_body_other (out root : path) (dirs : list str) (f : str)
    (rest : list str) (w : World) :
  endswith f (lit ".md") = false ->
  main_body out root dirs (f :: rest) w = main_body out root dirs rest w.
Proof.
  intros Hmd. unfold main_body. cbn [for_each]. rewrite Hmd. reflexivity.
Qed.

End Pipeline.

(** ** The Field Mapper *)

Lemma not_named_layout k :
  JekyllFront.is_named k = true -> str_eqb k (lit "layout") = false.
Proof.
  intros H. apply str_eqb_neq. intros ->. discriminate H.
Qed.

Lemma str_keys_VDict (kw : dict) :
  str_keys (map (fun kv => (KStr (fst kv), snd kv)) kw) = Some kw.
Proof.
  induction kw as [|[k v] kw IH]; [reflexivity|].
  cbn [map str_keys fst snd]. now rewrite IH.
Qed.

Lemma str_keys_Some (m : list (key * value)) (kw : dict) :
  str_keys m = Some kw -> VMap m = VDict kw.
Proof.
  unfold VDict. revert kw. induction m as [|[k v] m IH]; intros kw; cbn [str_keys].
  - now intros [= <-].
  - destruct k as [s| | | |]; try discriminate.
    destruct (str_keys m) as [kw'|]; [|discriminate].
    intros [= <-]. cbn [map fst snd]. specialize (IH kw' eq_refl).
    now injection IH as ->.
Qed.

Lemma VDict_inj (a b : dict) : VDict a = VDict b -> a = b.
Proof.
  unfold VDict. intros [= E]. apply (f_equal str_keys) in E.
  rewrite !str_keys_VDict in E. now injection E.
Qed.

Lemma truthy_VDict (kw : dict) :
  truthy (VDict kw) = match kw with [] => false | _ => true end.
Proof. now destruct kw. Qed.

Lemma call_VDict (kw : dict) : JekyllFront.call (VDict kw) = JekyllFront.call_kw kw.
Proof. unfold JekyllFront.call, VDict. now rewrite str_keys_VDict. Qed.

(** Only a mapping with strings as keys gets through the call. *)
Lemma call_mapping (front : value) :
  (exists kw, front = VDict kw) \/
  (JekyllFront.call front = Raise TypeError /\ forall kw, front <> VDict kw).
Proof.
  destruct front as [| | | | | |m];
    try (right; split; [reflexivity | intros kw; unfold VDict; discriminate]).
  destruct (str_keys m) as [kw|] eqn:Hk.
  - left. exists kw. now apply str_keys_Some.
  - right. split; [cbn [JekyllFront.call]; now rewrite Hk|].
    intros kw E. unfold VDict in E. injection E as ->.
    rewrite str_keys_VDict in Hk. discriminate.
Qed.

Lemma call_with_title (kw : dict) (title : value) :
  dict_mem (lit "self") kw = false ->
  dict_get (lit "title") kw = Some title ->
  JekyllFront.call (VDict kw) =
  JekyllFront.init title (JekyllFront.arg (lit "date") kw)
    (JekyllFront.arg (lit "subtitle") kw) (JekyllFront.arg (lit "author") kw)
    (JekyllFront.arg (lit "tags") kw)
    (filter (fun kv => negb (JekyllFront.is_named (fst kv))) kw).
Proof.
  intros Hs Ht. rewrite call_VDict. unfold JekyllFront.call_kw. now rewrite Hs, Ht.
Qed.

(** C2, as the code has it. For a decoded mapping whose keys are
    strings, with a [title] and no key [self]: the keys other than
    [title], [date], [subtitle], [author] and [tags] are collected into
    [extra]; [layout] is then removed and the value of [header-img]
    moved to [cover]. When such a mapping has no [layout] the
    construction raises [KeyError], and the error leaves the loop over
    the files: no later file is converted. A mapping without [title],
    with a key [self] or with a key that is no string raises
    [TypeError] instead, when the parameters are bound, whether it has
    [layout] or not. *)
Theorem C2_extra_and_layout `{Libs} (kw : dict) :
  (forall title,
     dict_mem (lit "self") kw = false ->
     dict_get (lit "title") kw = Some title ->
     (dict_mem (lit "layout") kw = true ->
      exists f,
        JekyllFront.call (VDict kw) = Ok f /\
        forall k,
          dict_get k (JekyllFront.extra f) =
          if JekyllFront.is_named k || str_eqb k (lit "layout")
             || str_eqb k (lit "header-img")
          then None
          else if str_eqb k (lit "cover") then
                 match dict_get (lit "header-img") kw with
                 | Some v => Some v
                 | None => dict_get (lit "cover") kw
                 end
               else dict_get k kw) /\
     (dict_mem (lit "layout") kw = false ->
      JekyllFront.call (VDict kw) = Raise KeyError /\
      forall (out root : path) (dirs : list str) (name : str) (rest : list str)
             (w : World) (text : str),
        lookup (root ++ [name]) (fs w) = Some (File text) ->
        endswith name (lit ".md") = true ->
        decoded (root ++ [name]) text = Ok (VDict kw) ->
        main_body out root dirs (name :: rest) w = (Raise KeyError, w))) /\
  (dict_get (lit "title") kw = None ->
   JekyllFront.call (VDict kw) = Raise TypeError) /\
  (dict_mem (lit "self") kw = true ->
   JekyllFront.call (VDict kw) = Raise TypeError) /\
  (forall m, str_keys m = None -> JekyllFront.call (VMap m) = Raise TypeError).
Proof.
  split; [|split; [|split]].
  2:{ intros Ht. rewrite call_VDict. unfold JekyllFront.call_kw. rewrite Ht.
      now destruct (dict_mem (lit "self") kw). }
  2:{ intros Hs. rewrite call_VDict. unfold JekyllFront.call_kw. now rewrite Hs. }
  2:{ intros m Hm. cbn [JekyllFront.call]. now rewrite Hm. }
  intros title Hs Ht. rewrite (call_with_title _ Hs Ht).
  unfold JekyllFront.init.
  rewrite (dict_mem_filter (fun k => negb (JekyllFront.is_named k)))
    by reflexivity.
  split; intros Hl; rewrite Hl.
  - eexists. split; [reflexivity|]. intros k. cbn [JekyllFront.extra].
    set (e0 := filter (fun kv => negb (JekyllFront.is_named (fst kv))) kw).
    assert (He0 : forall x, dict_get x e0 =
                            if JekyllFront.is_named x then None else dict_get x kw).
    { intros x. unfold e0.
      rewrite (dict_get_filter (fun k => negb (JekyllFront.is_named k))).
      now destruct (JekyllFront.is_named x). }
    rewrite dict_get_remove, He0. cbn [JekyllFront.is_named existsb].
    change (JekyllFront.is_named (lit "header-img")) with false. cbv iota.
    change (str_eqb (lit "header-img") (lit "layout")) with false. cbv iota.
    destruct (JekyllFront.is_named k) eqn:Hn.
    + pose proof (not_named_layout _ Hn) as Hkl.
      assert (Hkh : str_eqb k (lit "header-img") = false)
        by (apply str_eqb_neq; intros ->; discriminate Hn).
      assert (Hkc : str_eqb (lit "cover") k = false)
        by (apply str_eqb_neq; intros <-; discriminate Hn).
      cbn [orb].
      destruct (dict_get (lit "header-img") kw).
      * rewrite dict_get_set, Hkc, !dict_get_remove, Hkh, Hkl, He0, Hn.
        reflexivity.
      * rewrite dict_get_remove, Hkl, He0, Hn. reflexivity.
    + cbn [orb].
      destruct (str_eqb k (lit "layout")) eqn:Hkl.
      { apply str_eqb_eq in Hkl. subst k. cbn [orb].
        destruct (dict_get (lit "header-img") kw).
        - rewrite dict_get_set, !dict_get_remove. reflexivity.
        - rewrite dict_get_remove. reflexivity. }
      cbn [orb].
      destruct (str_eqb k (lit "header-img")) eqn:Hkh.
      { apply str_eqb_eq in Hkh. subst k.
        destruct (dict_get (lit "header-img") kw) eqn:Hh.
        - rewrite dict_get_set, !dict_get_remove. reflexivity.
        - rewrite dict_get_remove, He0. cbn. exact Hh. }
      destruct (dict_get (lit "header-img") kw) eqn:Hh.
      * rewrite dict_get_set, !dict_get_remove, Hkh, Hkl, He0, Hn.
        destruct (str_eqb k (lit "cover")) eqn:Hkc.
        -- apply str_eqb_eq in Hkc. subst k. reflexivity.
        -- assert (Hck : str_eqb (lit "cover") k = false).
           { apply str_eqb_neq. intros <-. now rewrite str_eqb_refl in Hkc. }
           now rewrite Hck.
      * rewrite dict_get_remove, Hkl, He0, Hn.
        destruct (str_eqb k (lit "cover")) eqn:Hkc; [|reflexivity].
        apply str_eqb_eq in Hkc. now subst k.
  - split; [reflexivity|].
    intros out root dirs name rest w text Hf Hmd Hdec.
    rewrite main_body_cons by exact Hmd.
    rewrite (@convert_file_spec _ (root ++ [name]) out w text Hf), Hdec.
    assert (Htr : truthy (VDict kw) = true)
      by (rewrite truthy_VDict; destruct kw; [discriminate Ht | reflexivity]).
    rewrite Htr. unfold JekyllDoc.init.
    rewrite (call_with_title _ Hs Ht). unfold JekyllFront.init.
    rewrite (dict_mem_filter (fun k => negb (JekyllFront.is_named k)))
      by reflexivity.
    rewrite Hl. reflexivity.
Qed.

Lemma C2_extra_and_layout_witness :
  dict_mem (lit "self") [(lit "title", VStr (lit "Hello"))] = false /\
  dict_get (lit "title") [(lit "title", VStr (lit "Hello"))]
    = Some (VStr (lit "Hello")) /\
  dict_mem (lit "layout") [(lit "title", VStr (lit "Hello"))] = false /\
  JekyllFront.call (VDict [(lit "title", VStr (lit "Hello"))]) = Raise KeyError /\
  JekyllFront.call
    (VMap [(KStr (lit "title"), VStr (lit "Hello"));
           (KStr (lit "layout"), VStr (lit "post"));
           (KInt 1, VStr (lit "one"))]) = Raise TypeError.
Proof.
  do 3 (split; [reflexivity|]). split.
  - exact (proj1 (proj2 (proj1 (@C2_extra_and_layout sample_libs
                                  [(lit "title", VStr (lit "Hello"))])
                           (VStr (lit "Hello")) eq_refl eq_refl) eq_refl)).
  - exact (proj2 (proj2 (proj2 (@C2_extra_and_layout sample_libs [])))
             [(KStr (lit "title"), VStr (lit "Hello"));
              (KStr (lit "layout"), VStr (lit "post"));
              (KInt 1, VStr (lit "one"))] eq_refl).
Defined.

(** C2 as stated fails twice. A [header-img] key is a key other than the
    five named ones and [layout], yet it is not in [extra]: its value is
    stored under [cover]. And a mapping that lacks [layout] but also
    lacks [title] raises [TypeError] when the parameters are bound, not
    the lookup error. *)
Lemma C2_counterexample :
  (exists f,
      JekyllFront.call
        (VDict [(lit "title", VStr (lit "Hello"));
                (lit "layout", VStr (lit "post"));
                (lit "header-img", VStr (lit "a.png"))]) = Ok f /\
      dict_get (lit "header-img") (JekyllFront.extra f) = None /\
      JekyllFront.extra f = [(lit "cover", VStr (lit "a.png"))]) /\
  dict_mem (lit "layout") [(lit "subtitle", VStr (lit "Sub"))] = false /\
  JekyllFront.call (VDict [(lit "subtitle", VStr (lit "Sub"))]) = Raise TypeError /\
  ~ (forall front : dict,
        dict_mem (lit "layout") front = false ->
        JekyllFront.call (VDict front) = Raise KeyError).
Proof.
  split; [eexists; repeat split; reflexivity|].
  repeat (split; [reflexivity|]).
  intros Hall.
  specialize (Hall [(lit "subtitle", VStr (lit "Sub"))] eq_refl).
  discriminate Hall.
Qed.

(** C4. In the destination front matter the top-level [author] is the
    source value as it was typed. The taxonomies map has [tags] exactly
    when the source [tags] is non-empty, and [author] exactly when the
    source [author] is non-empty: a non-empty string becomes the
    one-element list of it, a non-empty list is kept unchanged; an empty
    or absent value leaves the key out. *)
Theorem C4_taxonomies (jf : JekyllFront.t) (zf : ZolaFront.t) :
  JekyllFront.to_zola_front jf = Ok zf ->
  ZolaFront.author zf = JekyllFront.author jf /\
  ZolaFront.taxonomies zf =
    (if truthy (JekyllFront.tags jf)
     then [(lit "tags", JekyllFront.tags jf)] else []) ++
    (if truthy (JekyllFront.author jf)
     then [(lit "author",
            match JekyllFront.author jf with
            | VList _ => JekyllFront.author jf
            | a => VList [a]
            end)]
     else []) /\
  (forall s, JekyllFront.author jf = VStr s -> s <> [] ->
     dict_get (lit "author") (ZolaFront.taxonomies zf) = Some (VList [VStr s]) /\
     ZolaFront.author zf = VStr s) /\
  (forall l, JekyllFront.author jf = VList l -> l <> [] ->
     dict_get (lit "author") (ZolaFront.taxonomies zf) = Some (VList l)) /\
  (truthy (JekyllFront.author jf) = false ->
     dict_get (lit "author") (ZolaFront.taxonomies zf) = None) /\
  (truthy (JekyllFront.tags jf) = false ->
     dict_get (lit "tags") (ZolaFront.taxonomies zf) = None).
Proof.
  unfold JekyllFront.to_zola_front. intros Hz.
  destruct (if truthy (JekyllFront.date jf) then _ else _) as [d|e];
    [|discriminate].
  cbn in Hz. injection Hz as <-. cbn [ZolaFront.author ZolaFront.taxonomies].
  unfold JekyllFront.taxonomies_of.
  split; [reflexivity|]. split.
  { destruct (truthy (JekyllFront.tags jf)), (truthy (JekyllFront.author jf));
      reflexivity. }
  split; [|split; [|split]].
  - intros s Ha Hne. rewrite Ha. split; [|reflexivity].
    destruct s; [contradiction|]. cbn [truthy].
    destruct (truthy (JekyllFront.tags jf)); reflexivity.
  - intros l Ha Hne. rewrite Ha.
    destruct l; [contradiction|]. cbn [truthy].
    destruct (truthy (JekyllFront.tags jf)); reflexivity.
  - intros Ha. rewrite Ha.
    destruct (truthy (JekyllFront.tags jf)); reflexivity.
  - intros Ht. rewrite Ht.
    destruct (truthy (JekyllFront.author jf)); reflexivity.
Qed.

Lemma C4_taxonomies_witness :
  exists zf,
    JekyllFront.to_zola_front alice_front = Ok zf /\
    dict_get (lit "author") (ZolaFront.taxonomies zf)
      = Some (VList [VStr (lit "Alice")]) /\
    ZolaFront.author zf = VStr (lit "Alice") /\
    dict_get (lit "tags") (ZolaFront.taxonomies zf) = None.
Proof.
  eexists. split; [vm_compute; reflexivity|].
  pose proof (@C4_taxonomies alice_front _ eq_refl)
    as (_ & _ & Hs & _ & _ & Ht).
  destruct (Hs (lit "Alice") eq_refl ltac:(discriminate)) as [H1 H2].
  split; [exact H1|]. split; [exact H2|]. exact (Ht eq_refl).
Defined.

(** ** The Metadata Encoder *)

Lemma isdigit_digit_char (z : Z) : isdigit (digit_char (z mod 10)) = true.
Proof.
  unfold digit_char.
  assert (Hn : Z.to_nat (z mod 10) < 10)
    by (pose proof (Z.mod_pos_bound z 10 eq_refl); lia).
  destruct (Z.to_nat (z mod 10)) as [|n]; [reflexivity|].
  do 9 (destruct n as [|n]; [reflexivity|]). lia.
Qed.

Lemma isoformat_shaped (d : date) : is_date_shaped (isoformat d) = true.
Proof.
  unfold isoformat. cbn [zpad app lit list_ascii_of_string is_date_shaped].
  rewrite !isdigit_digit_char. reflexivity.
Qed.

(** The mapping handed to the serializer. *)
Lemma to_toml_data_layout (zf : ZolaFront.t) :
  ZolaFront.to_toml_data zf =
    [ (lit "title", ZolaFront.title zf);
      (lit "date", match ZolaFront.date zf with
                   | Some d => VStr (isoformat d)
                   | None => VNone
                   end);
      (lit "description", ZolaFront.description zf) ]
    ++ match ZolaFront.taxonomies zf with
       | [] => []
       | _ => [(lit "taxonomies", VDict (ZolaFront.taxonomies zf))]
       end
    ++ match ZolaFront.extra zf with
       | [] => []
       | _ => [(lit "extra", VDict (ZolaFront.extra zf))]
       end.
Proof.
  unfold ZolaFront.to_toml_data. rewrite !truthy_VDict.
  destruct (ZolaFront.taxonomies zf), (ZolaFront.extra zf); reflexivity.
Qed.

(** A document without a title, and one without [layout], end the run
    before the next file is looked at. *)
Example missing_keys_abort :
  @main sample_libs [lit "posts"] [lit "out"] (world_of untitled_post)
    = (Raise TypeError, world_of untitled_post) /\
  @main sample_libs [lit "posts"] [lit "out"] (world_of bare_post)
    = (Raise KeyError, world_of bare_post).
Proof. split; vm_compute; reflexivity. Qed.

(** ** The Writer *)

Lemma call_ok (v : value) (f : JekyllFront.t) :
  JekyllFront.call v = Ok f ->
  exists kw, v = VDict kw /\ dict_get (lit "title") kw = Some (JekyllFront.title f).
Proof.
  intros H. destruct (call_mapping v) as [[kw ->] | [E _]]; [|congruence].
  rewrite call_VDict in H. unfold JekyllFront.call_kw in H.
  destruct (dict_mem (lit "self") kw); [discriminate|].
  destruct (dict_get (lit "title") kw) as [t|] eqn:Ht; [|discriminate].
  unfold JekyllFront.init in H.
  destruct (dict_mem (lit "layout") _); [|discriminate].
  injection H as <-. exists kw. split; [reflexivity | exact Ht].
Qed.

Lemma init_ok (v : value) (content path : str) (doc : JekyllDoc.t) :
  JekyllDoc.init v content path = Ok doc ->
  JekyllDoc.content doc = content /\
  exists kw,
    v = VDict kw /\
    dict_get (lit "title") kw = Some (JekyllFront.title (JekyllDoc.front doc)).
Proof.
  unfold JekyllDoc.init.
  destruct (JekyllFront.call v) as [f|e] eqn:Hc; [|discriminate].
  cbn [rbind]. intros [= <-].
  apply call_ok in Hc. unfold JekyllDoc.extract_date.
  destruct (re_search _ _); cbn; auto.
Qed.

Lemma to_zola_front_title (jf : JekyllFront.t) (zf : ZolaFront.t) :
  JekyllFront.to_zola_front jf = Ok zf ->
  ZolaFront.title zf = JekyllFront.title jf.
Proof.
  unfold JekyllFront.to_zola_front.
  destruct (if truthy (JekyllFront.date jf) then _ else _); [|discriminate].
  cbn. now intros [= <-].
Qed.

Lemma body_is_suffix (in_path : path) (text : str) :
  exists head, universal_newlines text = head ++ body_of in_path text.
Proof.
  destruct (content_is_suffix in_path (file_lines (universal_newlines text)))
    as [hd Hhd].
  exists (join hd). unfold body_of.
  rewrite <- (join_file_lines (universal_newlines text)) at 1. rewrite Hhd at 1.
  unfold join. apply concat_app.
Qed.

(** A text without a carriage return is read as it is. *)
Lemma universal_newlines_id (s : str) : ~ In CR s -> universal_newlines s = s.
Proof.
  induction s as [|c s IH]; intros Hs; [reflexivity|].
  cbn [universal_newlines]. destruct (Ascii.eqb c CR) eqn:E.
  - apply Ascii.eqb_eq in E. subst c. exfalso. apply Hs. now left.
  - f_equal. apply IH. intros Hin. apply Hs. now right.
Qed.

(** C8, as the code has it. When a document is converted, the file
    written is the [+++] line, the encoded metadata, the [+++] line
    again, an empty line and then the content. The encoded metadata is
    what the serializer makes of the mapping, stripped, passed through
    the normalization pass and ended by a line end; the title in that
    mapping is the decoded title, unchanged. The content is the tail of
    the input text as it is read in text mode, with its line ends
    translated: for an input without a carriage return it is the tail
    of the input, byte for byte. *)
Theorem C8_output_layout `{Libs} (in_path out_path : path) (w w' : World)
    (text : str) (v : value) :
  lookup in_path (fs w) = Some (File text) ->
  decoded in_path text = Ok v ->
  truthy v = true ->
  convert_file in_path out_path w = (Ok tt, w') ->
  exists kw title doc zf dumped,
    v = VDict kw /\
    dict_get (lit "title") kw = Some title /\
    JekyllDoc.init v (body_of in_path text) (path_str in_path) = Ok doc /\
    JekyllFront.to_zola_front (JekyllDoc.front doc) = Ok zf /\
    ZolaFront.title zf = title /\
    dict_get (lit "title") (ZolaFront.to_toml_data zf) = Some title /\
    toml_dumps (ZolaFront.to_toml_data zf) = Ok dumped /\
    lookup (dest w in_path out_path) (fs w') =
      Some (File (lit "+++" ++ [NL]
                  ++ (re_sub ZolaFront.list_re ZolaFront.list_repl (strip dumped)
                      ++ [NL])
                  ++ lit "+++" ++ [NL; NL] ++ body_of in_path text)) /\
    stderr w' = stderr w /\
    (exists head, universal_newlines text = head ++ body_of in_path text) /\
    (~ In CR text -> exists head, text = head ++ body_of in_path text).
Proof.
  intros Hf Hd Ht.
  rewrite (@convert_file_spec _ in_path out_path w text Hf), Hd, Ht.
  destruct (JekyllDoc.init _ _ _) as [doc|e] eqn:Hi; [|discriminate].
  destruct (JekyllFront.to_zola_front _) as [zf|e] eqn:Hz.
  2:{ intros E. discriminate E. }
  unfold ZolaDoc.to_string, ZolaFront.to_toml.
  cbn [ZolaDoc.front ZolaDoc.content].
  destruct (toml_dumps (ZolaFront.to_toml_data zf)) as [dumped|e] eqn:Hdump;
    cbn [rbind].
  2:{ destruct (write_node _ _ (fs w)); intros E; discriminate E. }
  pose proof Hi as Hi'. apply init_ok in Hi' as (Hc & kw & -> & Htitle).
  unfold write_file.
  destruct (write_node _ _ (fs w)) as [fs'|] eqn:Hw; [|discriminate].
  intros [= <-]. cbn [fs stderr].
  exists kw, (JekyllFront.title (JekyllDoc.front doc)), doc, zf, dumped.
  pose proof (to_zola_front_title _ Hz) as Hzt.
  repeat split; try assumption.
  - unfold ZolaFront.to_toml_data.
    destruct (truthy (VDict (ZolaFront.taxonomies zf)));
      destruct (truthy (VDict (ZolaFront.extra zf))); cbn; now rewrite Hzt.
  - apply lookup_write_same in Hw. rewrite Hw. now rewrite Hc.
  - apply body_is_suffix.
  - intros Hcr. destruct (body_is_suffix in_path text) as [hd Hhd].
    exists hd. now rewrite (@universal_newlines_id text Hcr) in Hhd.
Qed.

Lemma C8_output_layout_witness :
  exists w',
    @convert_file sample_libs [lit "posts"; lit "2023-05-01-hello.md"]
      [lit "out"] sample_world = (Ok tt, w') /\
    exists kw title doc zf dumped,
      VDict [(lit "title", VStr (lit "Hello")); (lit "layout", VStr (lit "post"))]
        = VDict kw /\
      dict_get (lit "title") kw = Some title /\
      JekyllDoc.init
        (VDict [(lit "title", VStr (lit "Hello")); (lit "layout", VStr (lit "post"))])
        (body_of [lit "posts"; lit "2023-05-01-hello.md"] sample_post)
        (path_str [lit "posts"; lit "2023-05-01-hello.md"]) = Ok doc /\
      JekyllFront.to_zola_front (JekyllDoc.front doc) = Ok zf /\
      ZolaFront.title zf = title /\
      dict_get (lit "title") (ZolaFront.to_toml_data zf) = Some title /\
      @toml_dumps sample_libs (ZolaFront.to_toml_data zf) = Ok dumped /\
      lookup (dest sample_world [lit "posts"; lit "2023-05-01-hello.md"] [lit "out"])
        (fs w') =
        Some (File (lit "+++" ++ [NL]
                    ++ (re_sub ZolaFront.list_re ZolaFront.list_repl (strip dumped)
                        ++ [NL])
                    ++ lit "+++" ++ [NL; NL]
                    ++ body_of [lit "posts"; lit "2023-05-01-hello.md"] sample_post)) /\
      stderr w' = stderr sample_world /\
      (exists head,
         universal_newlines sample_post =
         head ++ body_of [lit "posts"; lit "2023-05-01-hello.md"] sample_post) /\
      (~ In CR sample_post ->
       exists head,
         sample_post =
         head ++ body_of [lit "posts"; lit "2023-05-01-hello.md"] sample_post).
Proof.
  eexists. split; [vm_compute; reflexivity|].
  exact (@C8_output_layout sample_libs
           [lit "posts"; lit "2023-05-01-hello.md"] [lit "out"]
           sample_world _ sample_post
           (VDict [(lit "title", VStr (lit "Hello"));
                   (lit "layout", VStr (lit "post"))])
           eq_refl eq_refl eq_refl eq_refl).
Defined.

(** C8 as stated fails on an input with carriage returns: the file is
    read in text mode, so the content written has line feeds where the
    input had a carriage return and a line feed, or a carriage return
    alone, and is not the content of the input byte for byte. It fails
    for the title too, when the title has a bracketed span that ends in
    a comma: the normalization pass rewrites the span in the serialized
    title. *)
Lemma C8_counterexample :
  (crlf_post =
     (lit "---" ++ [CR; NL] ++ lit "title: Hello" ++ [CR; NL]
      ++ lit "layout: post" ++ [CR; NL] ++ lit "---" ++ [CR; NL])
     ++ crlf_body /\
   exists w' written,
     @convert_file sample_libs [lit "posts"; lit "first.md"] [lit "out"]
       (world_of crlf_post) = (Ok tt, w') /\
     lookup [lit "out"; lit "first.md"] (fs w') = Some (File written) /\
     endswith written crlf_body = false /\
     endswith written (text_lines [lit "one"; lit "two"; lit "three"]) = true)
  /\
  (@decoded sample_libs [lit "posts"; lit "first.md"] bracket_post =
     Ok (VDict [(lit "title", VStr (lit "x [1, ] y"));
                (lit "layout", VStr (lit "post"))]) /\
   exists w',
     @convert_file sample_libs [lit "posts"; lit "first.md"] [lit "out"]
       (world_of bracket_post) = (Ok tt, w') /\
     lookup [lit "out"; lit "first.md"] (fs w') =
       Some (File (text_lines [ lit "+++";
                                lit "title = " ++ quoted (lit "x [1] y");
                                lit "+++"; lit ""; lit "body" ]))).
Proof.
  split.
  - split; [reflexivity|]. do 2 eexists.
    split; [vm_compute; reflexivity|].
    split; [vm_compute; reflexivity|].
    split; vm_compute; reflexivity.
  - split; [vm_compute; reflexivity|]. eexists.
    split; vm_compute; reflexivity.
Qed.

(** The file written for the sample post, in full. *)
Example sample_conversion :
  exists w',
    @convert_file sample_libs [lit "posts"; lit "2023-05-01-hello.md"]
      [lit "out"] sample_world = (Ok tt, w') /\
    lookup [lit "out"; lit "2023-05-01-hello.md"] (fs w') =
      Some (File (text_lines [lit "+++"] ++
                  lit "title = " ++ [DQUOTE] ++ lit "Hello" ++ [DQUOTE; NL] ++
                  lit "date = " ++ [DQUOTE] ++ lit "2023-05-01" ++ [DQUOTE; NL] ++
                  text_lines [lit "+++"; lit ""; lit "body"])).
Proof. eexists. split; vm_compute; reflexivity. Qed.

(** ** Errors and the run *)

(** C5, as the code has it. In the loop over the files of a directory:
    a document whose decoded metadata is a non-empty mapping without
    [title] raises [TypeError], which ends the loop (no later file is
    converted); a document whose metadata decodes to [None] or another
    empty value, as an empty block does, prints the diagnostic, writes
    nothing, and the loop goes on with the next file; a document on
    which the decoder raises ends the loop with that error. *)
Theorem C5_isolation `{Libs} (out root : path) (dirs : list str) (name : str)
    (rest : list str) (w : World) (text : str) :
  lookup (root ++ [name]) (fs w) = Some (File text) ->
  endswith name (lit ".md") = true ->
  (forall kw,
      decoded (root ++ [name]) text = Ok (VDict kw) ->
      kw <> [] ->
      dict_get (lit "title") kw = None ->
      main_body out root dirs (name :: rest) w = (Raise TypeError, w)) /\
  (forall v,
      decoded (root ++ [name]) text = Ok v ->
      truthy v = false ->
      convert_file (root ++ [name]) out w = (Ok tt, with_err w parse_error_msg) /\
      fs (with_err w parse_error_msg) = fs w /\
      main_body out root dirs (name :: rest) w =
      main_body out root dirs rest (with_err w parse_error_msg)) /\
  (forall e,
      decoded (root ++ [name]) text = Raise e ->
      main_body out root dirs (name :: rest) w = (Raise e, w)).
Proof.
  intros Hf Hmd.
  pose proof (@convert_file_spec _ (root ++ [name]) out w text Hf) as Hc.
  split; [|split].
  - intros kw Hd Hne Ht. rewrite main_body_cons, Hc, Hd by exact Hmd.
    rewrite truthy_VDict. destruct kw as [|kv kw]; [contradiction|].
    unfold JekyllDoc.init. rewrite call_VDict. unfold JekyllFront.call_kw.
    rewrite Ht. now destruct (dict_mem (lit "self") (kv :: kw)).
  - intros v Hd Hv. split; [|split].
    + rewrite Hc, Hd, Hv. reflexivity.
    + reflexivity.
    + rewrite main_body_cons, Hc, Hd, Hv by exact Hmd. reflexivity.
  - intros e Hd. rewrite main_body_cons, Hc, Hd by exact Hmd. reflexivity.
Qed.

Lemma C5_isolation_witness :
  lookup ([lit "posts"] ++ [lit "empty.md"]) (fs sample_world)
    = Some (File empty_post) /\
  endswith (lit "empty.md") (lit ".md") = true /\
  @decoded sample_libs ([lit "posts"] ++ [lit "empty.md"]) empty_post = Ok VNone /\
  @convert_file sample_libs ([lit "posts"] ++ [lit "empty.md"]) [lit "out"]
    sample_world = (Ok tt, with_err sample_world parse_error_msg).
Proof.
  repeat (split; [reflexivity|]).
  exact (proj1 (proj1 (proj2 (@C5_isolation sample_libs [lit "out"] [lit "posts"]
                                [] (lit "empty.md") [] sample_world empty_post
                                eq_refl eq_refl))
                  VNone eq_refl eq_refl)).
Defined.

(** C5 as stated fails on a metadata block that is not YAML: the decoder
    raises, nothing catches the error, and the run ends there, with no
    diagnostic and without converting the next file. *)
Lemma C5_counterexample :
  @decoded sample_libs [lit "posts"; lit "first.md"] broken_post
    = Raise YAMLError /\
  @main sample_libs [lit "posts"] [lit "out"] (world_of broken_post)
    = (Raise YAMLError, world_of broken_post).
Proof. split; vm_compute; reflexivity. Qed.

(** ** The list pattern of [to_toml] *)

Lemma lstrip_blanks (ws rest : str) :
  blanks ws -> no_lead_blank rest -> lstrip (ws ++ rest) = rest.
Proof.
  intros Hws Hr. induction Hws as [|c ws Hc _ IH]; simpl.
  - destruct rest as [|c r]; [reflexivity|]. simpl in *. now rewrite Hr.
  - now rewrite Hc.
Qed.

Lemma lstrip_no_lead (s : str) : no_lead_blank s -> lstrip s = s.
Proof. intros H. apply (@lstrip_blanks [] s); [constructor | exact H]. Qed.

Lemma lstrip_split (s : str) :
  exists ws, s = ws ++ lstrip s /\ blanks ws /\ no_lead_blank (lstrip s).
Proof.
  induction s as [|c s (ws & E & Hws & Hn)]; simpl.
  - exists []. repeat split. constructor.
  - destruct (isspace c) eqn:Hc.
    + exists (c :: ws). repeat split;
        [cbn [app]; now f_equal | now constructor | exact Hn].
    + exists []. repeat split; [constructor | exact Hc].
Qed.

(** A greedy star of blanks in front of something that cannot start
    with a blank takes all the blanks. *)
Lemma star_greedy_lstrip {A} (s : str) (k : str -> option A) :
  (forall c r, isspace c = true -> k (c :: r) = None) ->
  star_greedy isspace s k = k (lstrip s).
Proof.
  intros Hk. induction s as [|c s IH]; simpl; [reflexivity|].
  destruct (isspace c) eqn:Hc; [|reflexivity].
  rewrite IH, (Hk c s Hc). now destruct (k (lstrip s)).
Qed.

(** In front of anything, it takes all the blanks when that succeeds. *)
Lemma star_greedy_first {A} (ws rest : str) (k : str -> option A) (x : A) :
  blanks ws -> no_lead_blank rest -> k rest = Some x ->
  star_greedy isspace (ws ++ rest) k = Some x.
Proof.
  intros Hws Hr Hk. induction Hws as [|c ws Hc _ IH]; simpl.
  - destruct rest as [|c r]; [exact Hk|]. simpl in *. now rewrite Hr.
  - now rewrite Hc, IH.
Qed.

Lemma star_greedy_none {A} (p : ascii -> bool) (s : str) (k : str -> option A) :
  (forall u v, s = u ++ v -> Forall (fun c => p c = true) u -> k v = None) ->
  star_greedy p s k = None.
Proof.
  induction s as [|c s IH]; intros Hk; simpl.
  - apply (Hk [] []); [reflexivity | constructor].
  - assert (Hs : k (c :: s) = None) by (apply (Hk []); [reflexivity | constructor]).
    destruct (p c) eqn:Hc; [|exact Hs].
    rewrite IH; [exact Hs|].
    intros u v -> Hu. apply (Hk (c :: u)); [reflexivity | now constructor].
Qed.

(** A lazy star stops at the first place where the rest matches. *)
Lemma star_lazy_shortest {A} (p : ascii -> bool) (u rest : str)
    (k : str -> option A) (x : A) :
  Forall (fun c => p c = true) u ->
  (forall u1 u2, u = u1 ++ u2 -> u2 <> [] -> k (u2 ++ rest) = None) ->
  k rest = Some x ->
  star_lazy p (u ++ rest) k = Some x.
Proof.
  intros Hu. induction Hu as [|c u Hc _ IH]; intros Hnone Hk.
  - simpl. destruct rest; simpl; now rewrite Hk.
  - pose proof (Hnone [] (c :: u) eq_refl ltac:(discriminate)) as H0.
    cbn [app] in *. cbn [star_lazy]. rewrite H0, Hc.
    apply IH; [|exact Hk].
    intros u1 u2 -> Hne. now apply (Hnone (c :: u1) u2).
Qed.

Lemma star_lazy_none {A} (p : ascii -> bool) (s : str) (k : str -> option A) :
  (forall u v, s = u ++ v -> Forall (fun c => p c = true) u -> k v = None) ->
  star_lazy p s k = None.
Proof.
  induction s as [|c s IH]; intros Hk.
  - simpl. now rewrite (Hk [] [] eq_refl (Forall_nil _)).
  - cbn [star_lazy]. rewrite (Hk [] (c :: s) eq_refl (Forall_nil _)).
    destruct (p c) eqn:Hc; [|reflexivity].
    apply IH. intros u v -> Hu. apply (Hk (c :: u)); [reflexivity|].
    now constructor.
Qed.

Lemma isspace_not_comma (c : ascii) : isspace c = true -> is_char "," c = false.
Proof.
  intros H. unfold is_char. destruct (Ascii.eqb c ",") eqn:E; [|reflexivity].
  apply Ascii.eqb_eq in E. subst c. discriminate H.
Qed.

Lemma isspace_not_rbracket (c : ascii) : isspace c = true -> is_char "]" c = false.
Proof.
  intros H. unfold is_char. destruct (Ascii.eqb c "]") eqn:E; [|reflexivity].
  apply Ascii.eqb_eq in E. subst c. discriminate H.
Qed.

(** The end of the pattern, [\s*,\s*\]], as a function of the input. *)
Lemma tail_match {A} (s : str) (g : caps) (k : str -> caps -> option A) :
  rmatch tail_re s g k =
  match after_comma s with
  | Some rest => k rest g
  | None => None
  end.
Proof.
  unfold tail_re. cbn [rmatch]. unfold after_comma.
  rewrite star_greedy_lstrip.
  - destruct (lstrip s) as [|c s1]; [reflexivity|].
    destruct (is_char "," c); [|reflexivity].
    rewrite star_greedy_lstrip.
    + destruct (lstrip s1) as [|c' rest]; [reflexivity|].
      now destruct (is_char "]" c').
    + intros c0 r H0. now rewrite (isspace_not_rbracket _ H0).
  - intros c0 r H0. now rewrite (isspace_not_comma _ H0).
Qed.

Lemma list_re_parts :
  ZolaFront.list_re =
  Cat (Cls (is_char "[")) (Cat (Star isspace) (Cat group_re tail_re)).
Proof. reflexivity. Qed.

Lemma ends_nonblank_suffix (a u : str) :
  ends_nonblank (a ++ u) -> u <> [] -> ends_nonblank u.
Proof.
  intros (v0 & c & E & Hc) Hu.
  destruct (exists_last Hu) as (u0 & c' & ->).
  rewrite app_assoc in E. apply app_inj_tail in E as [_ ->].
  now exists u0, c.
Qed.

Lemma ends_nonblank_lstrip (v : str) :
  ends_nonblank v ->
  exists c v1,
    isspace c = false /\
    (forall t, lstrip (v ++ t) = c :: v1 ++ t) /\
    (forall x, In x (c :: v1) -> In x v) /\
    (v1 = [] \/ ends_nonblank v1).
Proof.
  induction v as [|a v IH]; intros Hv.
  - destruct Hv as (v0 & c & E & _). now destruct v0.
  - destruct (isspace a) eqn:Ha.
    + assert (Hv' : ends_nonblank v).
      { apply (ends_nonblank_suffix [a]); [exact Hv|].
        intros ->. destruct Hv as (v0 & c & E & Hc).
        destruct v0 as [|x [|y v0]]; try discriminate.
        injection E as ->. congruence. }
      destruct (IH Hv') as (c & v1 & Hc & Hl & Hin & Hend).
      exists c, v1. repeat split; try assumption.
      * intros t. simpl. rewrite Ha. apply Hl.
      * intros x Hx. right. now apply Hin.
    + exists a, v. split; [exact Ha|]. split; [|split].
      * intros t. simpl. now rewrite Ha.
      * intros x Hx. exact Hx.
      * destruct v as [|b v]; [now left|]. right.
        apply (ends_nonblank_suffix [a]); [exact Hv | discriminate].
Qed.

Lemma after_comma_ok (ws2 ws3 post : str) :
  blanks ws2 -> blanks ws3 ->
  after_comma (ws2 ++ ","%char :: ws3 ++ "]"%char :: post) = Some post.
Proof.
  intros H2 H3. unfold after_comma.
  rewrite (@lstrip_blanks ws2 _ H2) by reflexivity.
  change (is_char "," ",") with true. cbv iota.
  rewrite (@lstrip_blanks ws3 _ H3) by reflexivity.
  reflexivity.
Qed.

(** Inside the body the end of the pattern matches nowhere. *)
Lemma after_comma_body_none (v ws2 ws3 post : str) :
  ends_nonblank v -> ~ In "]"%char v -> blanks ws2 ->
  after_comma (v ++ ws2 ++ ","%char :: ws3 ++ "]"%char :: post) = None.
Proof.
  intros Hv Hrb H2. unfold after_comma.
  destruct (ends_nonblank_lstrip Hv) as (c & v1 & Hc & Hl & Hin & Hend).
  rewrite Hl.
  destruct (is_char "," c); [|reflexivity].
  destruct Hend as [-> | Hv1].
  - cbn [app]. rewrite (@lstrip_blanks ws2 _ H2) by reflexivity. reflexivity.
  - destruct (ends_nonblank_lstrip Hv1) as (c' & v2 & Hc' & Hl' & Hin' & _).
    rewrite Hl'. unfold is_char.
    destruct (Ascii.eqb c' "]") eqn:E; [|reflexivity].
    apply Ascii.eqb_eq in E. subst c'. exfalso. apply Hrb.
    apply Hin. right. apply Hin'. now left.
Qed.

Lemma not_char_true (a c : ascii) : c <> a -> not_char a c = true.
Proof.
  intros H. unfold not_char. destruct (Ascii.eqb c a) eqn:E; [|reflexivity].
  apply Ascii.eqb_eq in E. contradiction.
Qed.

(** The body and the end of the pattern on a bracketed span. *)
Lemma group_match {A} (body ws2 ws3 post : str) (k : str -> caps -> option A) (x : A) :
  ends_nonblank body -> ~ In "]"%char body -> blanks ws2 -> blanks ws3 ->
  k post [(1, body)] = Some x ->
  rmatch (Cat group_re tail_re)
    (body ++ ws2 ++ ","%char :: ws3 ++ "]"%char :: post) [] k = Some x.
Proof.
  intros Hb Hrb H2 H3 Hk.
  set (tail := ws2 ++ ","%char :: ws3 ++ "]"%char :: post).
  pose proof (capture_app body tail) as Hcap.
  destruct body as [|b body'].
  { destruct Hb as (v0 & c & E & _). now destruct v0. }
  unfold group_re. cbn [rmatch app] in *.
  rewrite not_char_true by (intros ->; apply Hrb; now left).
  apply star_lazy_shortest.
  - apply Forall_forall. intros c Hc. apply not_char_true.
    intros ->. apply Hrb. now right.
  - intros u1 u2 -> Hne. rewrite tail_match.
    unfold tail. rewrite after_comma_body_none; try assumption; try reflexivity.
    + apply (ends_nonblank_suffix (b :: u1)); assumption.
    + intros Hin. apply Hrb. right. apply in_or_app. now right.
  - rewrite tail_match. unfold tail at 1.
    rewrite (after_comma_ok post H2 H3). rewrite Hcap. exact Hk.
Qed.

Lemma list_re_match (ws1 body ws2 ws3 post : str) :
  blanks ws1 -> blanks ws2 -> blanks ws3 ->
  no_lead_blank body -> ends_nonblank body -> ~ In "]"%char body ->
  re_match ZolaFront.list_re
    ("["%char :: ws1 ++ body ++ ws2 ++ ","%char :: ws3 ++ "]"%char :: post) =
  Some (S (length (ws1 ++ body ++ ws2 ++ ","%char :: ws3 ++ ["]"%char])),
        [(1, body)]).
Proof.
  intros H1 H2 H3 Hlead Hend Hrb.
  unfold re_match. rewrite list_re_parts. cbn [rmatch].
  change (is_char "[" "[") with true. cbv iota.
  apply star_greedy_first; [exact H1| |].
  - destruct body as [|b body]; [|exact Hlead].
    destruct Hend as (v0 & c & E & _). now destruct v0.
  - apply group_match; try assumption. do 2 f_equal.
    change ("["%char :: ws1 ++ body ++ ws2 ++ ","%char :: ws3 ++ "]"%char :: post)
      with (("["%char :: ws1) ++ body ++ ws2 ++ ","%char :: ws3 ++ "]"%char :: post).
    replace (("["%char :: ws1) ++ body ++ ws2 ++ ","%char :: ws3 ++ "]"%char :: post)
      with (("["%char :: ws1 ++ body ++ ws2 ++ ","%char :: ws3 ++ ["]"%char]) ++ post).
    + rewrite consumed_app. reflexivity.
    + cbn [app]. f_equal. rewrite <- !app_assoc. do 3 f_equal.
      cbn [app]. f_equal. now rewrite <- app_assoc.
Qed.

Lemma re_sub_from_skip (r : regex) (repl : caps -> str) (a rest : str) :
  re_sub_from r repl (a ++ rest) (length a) = re_sub_from r repl rest 0.
Proof.
  induction a as [|c a IH]; [reflexivity|]. exact IH.
Qed.

Lemma list_re_other_char (c : ascii) (s : str) :
  c <> "["%char -> re_match ZolaFront.list_re (c :: s) = None.
Proof.
  intros Hc. unfold re_match. rewrite list_re_parts. cbn [rmatch].
  unfold is_char. destruct (Ascii.eqb c "[") eqn:E; [|reflexivity].
  apply Ascii.eqb_eq in E. contradiction.
Qed.

Lemma re_sub_nomatch (r : regex) (repl : caps -> str) (c : ascii) (s : str) :
  re_match r (c :: s) = None ->
  re_sub r repl (c :: s) = c :: re_sub r repl s.
Proof. unfold re_sub. cbn [re_sub_from]. now intros ->. Qed.

(** Text without an opening bracket passes through the substitution. *)
Lemma re_sub_no_bracket (pre s : str) :
  ~ In "["%char pre ->
  re_sub ZolaFront.list_re ZolaFront.list_repl (pre ++ s) =
  pre ++ re_sub ZolaFront.list_re ZolaFront.list_repl s.
Proof.
  induction pre as [|c pre IH]; intros Hpre; [reflexivity|].
  cbn [app]. rewrite re_sub_nomatch.
  - f_equal. apply IH. intros Hin. apply Hpre. now right.
  - apply list_re_other_char. intros ->. apply Hpre. now left.
Qed.

Lemma app_split_before {X} (P : X -> Prop) (u v a b : list X) (x : X) :
  Forall P u -> ~ P x -> u ++ v = a ++ x :: b ->
  exists v', a = u ++ v' /\ v = v' ++ x :: b.
Proof.
  intros Hu Hx. revert a. induction Hu as [|c u Hc _ IH]; intros a E.
  - now exists a.
  - destruct a as [|c' a]; simpl in E.
    + injection E as -> _. contradiction.
    + injection E as -> E. destruct (IH _ E) as (v' & -> & ->). now exists v'.
Qed.

Lemma after_comma_no_comma (v post : str) :
  ~ In ","%char v -> after_comma (v ++ "]"%char :: post) = None.
Proof.
  induction v as [|c v IH]; intros Hv.
  - reflexivity.
  - unfold after_comma in *. cbn [app lstrip].
    destruct (isspace c).
    + apply IH. intros Hin. apply Hv. now right.
    + unfold is_char at 1. destruct (Ascii.eqb c ",") eqn:E; [|reflexivity].
      apply Ascii.eqb_eq in E. subst c. exfalso. apply Hv. now left.
Qed.

(** A bracketed span without a comma is no match. *)
Lemma list_re_no_comma (name post : str) :
  ~ In ","%char name -> ~ In "]"%char name ->
  re_match ZolaFront.list_re ("["%char :: name ++ "]"%char :: post) = None.
Proof.
  intros Hc Hrb. unfold re_match. rewrite list_re_parts. cbn [rmatch].
  change (is_char "[" "[") with true. cbv iota.
  apply star_greedy_none. intros u v E Hu. symmetry in E.
  apply (app_split_before (P := fun c => isspace c = true)) in E
    as (v' & -> & ->); [|exact Hu | discriminate].
  unfold group_re. cbn [rmatch].
  destruct v' as [|b v']; [reflexivity|]. cbn [app].
  destruct (not_char "]" b); [|reflexivity].
  apply star_lazy_none. intros u2 v2 E2 Hu2. symmetry in E2.
  apply (app_split_before (P := fun c => not_char "]" c = true)) in E2
    as (v3 & -> & ->); [|exact Hu2 | discriminate].
  rewrite tail_match, after_comma_no_comma; [reflexivity|].
  intros Hin. apply Hc. apply in_or_app. right. right.
  apply in_or_app. now right.
Qed.

(** A table header, or any bracketed span without a comma, is left as it
    is. *)
Lemma re_sub_header (pre name post : str) :
  ~ In "["%char pre -> ~ In "["%char name ->
  ~ In ","%char name -> ~ In "]"%char name ->
  re_sub ZolaFront.list_re ZolaFront.list_repl
    (pre ++ "["%char :: name ++ "]"%char :: post) =
  pre ++ "["%char :: name ++ "]"%char
      :: re_sub ZolaFront.list_re ZolaFront.list_repl post.
Proof.
  intros Hpre Hname Hc Hrb.
  rewrite re_sub_no_bracket by exact Hpre. f_equal.
  rewrite re_sub_nomatch by (now apply list_re_no_comma). f_equal.
  rewrite re_sub_no_bracket by exact Hname. reflexivity.
Qed.

Lemma star_greedy_inv {A} (p : ascii -> bool) (s : str) (k : str -> option A) (x : A) :
  star_greedy p s k = Some x ->
  exists u v, s = u ++ v /\ Forall (fun c => p c = true) u /\ k v = Some x.
Proof.
  induction s as [|c s IH]; simpl.
  - intros H. exists [], []. repeat split; [constructor | exact H].
  - destruct (p c) eqn:Hc.
    + destruct (star_greedy p s k) as [y|] eqn:Hs.
      * intros [= ->]. destruct (IH eq_refl) as (u & v & -> & Hu & Hk).
        exists (c :: u), v. repeat split; [now constructor | exact Hk].
      * intros H. exists [], (c :: s). repeat split; [constructor | exact H].
    + intros H. exists [], (c :: s). repeat split; [constructor | exact H].
Qed.

Lemma star_lazy_inv {A} (p : ascii -> bool) (s : str) (k : str -> option A) (x : A) :
  star_lazy p s k = Some x ->
  exists u v, s = u ++ v /\ Forall (fun c => p c = true) u /\ k v = Some x.
Proof.
  induction s as [|c s IH].
  - simpl. destruct (k []) as [y|] eqn:Hk; [|discriminate].
    intros [= ->]. exists [], []. repeat split; [constructor | exact Hk].
  - cbn [star_lazy]. destruct (k (c :: s)) as [y|] eqn:Hk.
    + intros [= ->]. exists [], (c :: s). repeat split; [constructor | exact Hk].
    + destruct (p c) eqn:Hc; [|discriminate].
      intros H. destruct (IH H) as (u & v & -> & Hu & Hv).
      exists (c :: u), v. repeat split; [now constructor | exact Hv].
Qed.

Lemma after_comma_inv (s post : str) :
  after_comma s = Some post ->
  exists ws2 ws3,
    s = ws2 ++ ","%char :: ws3 ++ "]"%char :: post /\ blanks ws2 /\ blanks ws3.
Proof.
  unfold after_comma.
  destruct (lstrip_split s) as (ws2 & E & B2 & _).
  destruct (lstrip s) as [|c s1]; [discriminate|].
  destruct (is_char "," c) eqn:Hc; [|discriminate].
  apply is_char_eq in Hc. subst c.
  destruct (lstrip_split s1) as (ws3 & E3 & B3 & _).
  destruct (lstrip s1) as [|c' rest]; [discriminate|].
  destruct (is_char "]" c') eqn:Hc'; [|discriminate].
  apply is_char_eq in Hc'. subst c'.
  intros [= <-]. exists ws2, ws3. rewrite E, E3 at 1. now repeat split.
Qed.

(** Every match of the list pattern is a bracketed span that ends in a
    comma. *)
Lemma list_re_inv (s : str) (n : nat) (g : caps) :
  re_match ZolaFront.list_re s = Some (n, g) ->
  exists ws1 body ws2 ws3 post,
    s = "["%char :: ws1 ++ body ++ ws2 ++ ","%char :: ws3 ++ "]"%char :: post /\
    blanks ws1 /\ blanks ws2 /\ blanks ws3 /\
    g = [(1, body)] /\
    n = S (length (ws1 ++ body ++ ws2 ++ ","%char :: ws3 ++ ["]"%char])).
Proof.
  unfold re_match. rewrite list_re_parts. cbn [rmatch].
  destruct s as [|c s1]; [discriminate|].
  destruct (is_char "[" c) eqn:Hc; [|discriminate].
  apply is_char_eq in Hc. subst c. intros H.
  apply star_greedy_inv in H as (ws1 & s2 & -> & B1 & H).
  unfold group_re in H. cbn [rmatch] in H.
  destruct s2 as [|b s2]; [discriminate|].
  destruct (not_char "]" b); [|discriminate].
  apply star_lazy_inv in H as (u & s3 & -> & _ & H).
  rewrite tail_match in H.
  destruct (after_comma s3) as [post|] eqn:Ha; [|discriminate].
  injection H as <- <-.
  apply after_comma_inv in Ha as (ws2 & ws3 & -> & B2 & B3).
  exists ws1, (b :: u), ws2, ws3, post.
  repeat split; try assumption.
  - pose proof (capture_app (b :: u) (ws2 ++ ","%char :: ws3 ++ "]"%char :: post)) as Hcap.
    cbn [app] in Hcap. now rewrite Hcap.
  - unfold consumed.
    repeat (rewrite length_app || cbn [length app]). lia.
Qed.

(** Blanks are stripped from a text the same whatever follows it, when
    what follows does not begin with a blank. *)
Lemma lstrip_app (u x : str) :
  no_lead_blank x -> lstrip (u ++ x) = lstrip u ++ x.
Proof.
  intros Hx. induction u as [|c u IH]; cbn [app lstrip].
  - destruct x as [|c x]; [reflexivity|]. cbn in Hx |- *. now rewrite Hx.
  - destruct (isspace c); [exact IH | reflexivity].
Qed.

Lemma lstrip_In (u : str) (c : ascii) : In c (lstrip u) -> In c u.
Proof.
  induction u as [|a u IH]; cbn [lstrip]; [easy|].
  destruct (isspace a); [intros H; right; now apply IH | easy].
Qed.

(** Whether the end of the pattern matches in front of the first
    closing bracket does not depend on what follows the bracket. *)
Lemma after_comma_local (u : str) :
  ~ In "]"%char u ->
  exists ok : bool,
    forall z, after_comma (u ++ "]"%char :: z) = if ok then Some z else None.
Proof.
  intros Hu. unfold after_comma.
  destruct (lstrip u) as [|c u1] eqn:E1.
  - exists false. intros z. rewrite lstrip_app by reflexivity. rewrite E1.
    reflexivity.
  - destruct (is_char "," c) eqn:Hc.
    + destruct (lstrip u1) as [|c' u2] eqn:E2.
      * exists true. intros z. rewrite lstrip_app by reflexivity. rewrite E1.
        cbn [app]. rewrite Hc. rewrite lstrip_app by reflexivity. rewrite E2.
        reflexivity.
      * exists false. intros z. rewrite lstrip_app by reflexivity. rewrite E1.
        cbn [app]. rewrite Hc. rewrite lstrip_app by reflexivity. rewrite E2.
        cbn [app]. unfold is_char.
        destruct (Ascii.eqb c' "]") eqn:E; [|reflexivity].
        apply Ascii.eqb_eq in E. subst c'. exfalso. apply Hu.
        apply lstrip_In. rewrite E1. right. apply lstrip_In. rewrite E2.
        now left.
    + exists false. intros z. rewrite lstrip_app by reflexivity. rewrite E1.
      cbn [app]. now rewrite Hc.
Qed.

(** A star in front of a character it cannot take hands to its
    continuation only texts that end with what follows that
    character. *)
Lemma star_greedy_local {A} (p : ascii -> bool) (x : ascii) (t z : str)
    (k k' : str -> option A) :
  p x = false ->
  (forall a b, t = a ++ b -> k (b ++ x :: z) = k' (b ++ [x])) ->
  star_greedy p (t ++ x :: z) k = star_greedy p (t ++ [x]) k'.
Proof.
  intros Hx. induction t as [|c t IH]; intros Hk; cbn [app star_greedy].
  - rewrite Hx. apply (Hk [] []). reflexivity.
  - rewrite IH by (intros a b ->; apply (Hk (c :: a) b); reflexivity).
    pose proof (Hk [] (c :: t) eq_refl) as H0. cbn [app] in H0.
    now rewrite H0.
Qed.

Lemma star_lazy_local {A} (p : ascii -> bool) (x : ascii) (t z : str)
    (k k' : str -> option A) :
  p x = false ->
  (forall a b, t = a ++ b -> k (b ++ x :: z) = k' (b ++ [x])) ->
  star_lazy p (t ++ x :: z) k = star_lazy p (t ++ [x]) k'.
Proof.
  intros Hx. induction t as [|c t IH]; intros Hk.
  - pose proof (Hk [] [] eq_refl) as H0. cbn [app] in H0.
    cbn [app star_lazy]. rewrite H0, Hx. now destruct (k' [x]).
  - pose proof (Hk [] (c :: t) eq_refl) as H0. cbn [app] in H0.
    cbn [app star_lazy]. rewrite H0.
    rewrite IH by (intros a b ->; apply (Hk (c :: a) b); reflexivity).
    reflexivity.
Qed.

Lemma not_char_self (a : ascii) : not_char a a = false.
Proof. unfold not_char. now rewrite Ascii.eqb_refl. Qed.

(** A match of the list pattern ends at the first closing bracket: what
    follows that bracket has no part in it. *)
Lemma list_re_local (t z : str) :
  ~ In "]"%char t ->
  re_match ZolaFront.list_re ("["%char :: t ++ "]"%char :: z) =
  re_match ZolaFront.list_re ("["%char :: t ++ ["]"%char]).
Proof.
  intros Ht. unfold re_match. rewrite list_re_parts. cbn [rmatch].
  change (is_char "[" "[") with true. cbv iota.
  apply star_greedy_local; [reflexivity|].
  intros a1 s1 ->. unfold group_re. cbn [rmatch].
  destruct s1 as [|b s1]; cbn [app].
  { now rewrite not_char_self. }
  destruct (not_char "]" b); [|reflexivity].
  apply star_lazy_local; [apply not_char_self|].
  intros a2 s2 ->. rewrite !tail_match.
  destruct (@after_comma_local s2) as [ok Hok].
  { intros Hin. apply Ht. apply in_or_app. right. right. apply in_or_app.
    now right. }
  rewrite (Hok z), (Hok []). destruct ok; [|reflexivity].
  assert (E0 : forall y,
            consumed ("["%char :: (a1 ++ b :: a2 ++ s2) ++ "]"%char :: y) y =
            S (S (length (a1 ++ b :: a2 ++ s2)))).
  { intros y. unfold consumed. cbn [length]. rewrite !length_app.
    cbn [length]. lia. }
  assert (E1 : forall y,
            firstn (consumed (b :: (a2 ++ s2) ++ "]"%char :: y)
                      (s2 ++ "]"%char :: y))
              (b :: (a2 ++ s2) ++ "]"%char :: y) = b :: a2).
  { intros y.
    replace (consumed (b :: (a2 ++ s2) ++ "]"%char :: y) (s2 ++ "]"%char :: y))
      with (S (length a2))
      by (unfold consumed; cbn [length]; rewrite !length_app; cbn [length]; lia).
    cbn [firstn]. f_equal. rewrite <- app_assoc, firstn_app, firstn_all.
    rewrite Nat.sub_diag. cbn [firstn]. apply app_nil_r. }
  now rewrite (E0 z), (E0 []), (E1 z), (E1 []).
Qed.

Lemma existsb_split (c : ascii) (s : str) :
  existsb (is_char c) s = true ->
  exists t v, s = t ++ c :: v /\ ~ In c t.
Proof.
  induction s as [|a s IH]; cbn [existsb]; [discriminate|].
  destruct (is_char c a) eqn:Ha.
  - intros _. apply is_char_eq in Ha. subst a. exists [], s. now split.
  - intros H. destruct (IH H) as (t & v & -> & Ht). exists (a :: t), v.
    split; [reflexivity|]. intros [-> | Hin]; [|contradiction].
    unfold is_char in Ha. now rewrite Ascii.eqb_refl in Ha.
Qed.

(** Where every opening bracket is closed, a match does not reach past
    the text. *)
Lemma list_re_closed (c : ascii) (pre s : str) :
  (if is_char "[" c then existsb (is_char "]") pre else true) = true ->
  re_match ZolaFront.list_re (c :: pre ++ s) =
  re_match ZolaFront.list_re (c :: pre).
Proof.
  destruct (is_char "[" c) eqn:Hc.
  - apply is_char_eq in Hc. subst c. intros H.
    apply existsb_split in H as (t & v & -> & Ht).
    rewrite <- app_assoc. cbn [app].
    now rewrite (@list_re_local t (v ++ s) Ht), (@list_re_local t v Ht).
  - intros _. rewrite !list_re_other_char; [reflexivity | |];
      intros ->; discriminate Hc.
Qed.

Lemma list_re_length (s : str) (n : nat) (g : caps) :
  re_match ZolaFront.list_re s = Some (n, g) -> n <= length s.
Proof.
  intros H.
  destruct (list_re_inv _ H) as (ws1 & body & ws2 & ws3 & post & -> & _ & _ & _ & _ & ->).
  cbn [length]. repeat (rewrite length_app || cbn [length]). lia.
Qed.

(** The pass works on a text whose brackets are closed and on what
    follows it apart. *)
Lemma re_sub_closed (pre s : str) :
  forall skip,
    closed pre = true -> skip <= length pre ->
    re_sub_from ZolaFront.list_re ZolaFront.list_repl (pre ++ s) skip =
    re_sub_from ZolaFront.list_re ZolaFront.list_repl pre skip
    ++ re_sub ZolaFront.list_re ZolaFront.list_repl s.
Proof.
  induction pre as [|c pre IH]; intros skip Hcl Hskip.
  - cbn [length] in Hskip. replace skip with 0 by lia. reflexivity.
  - cbn [closed] in Hcl. apply andb_prop in Hcl as [Hc Hcl].
    cbn [app re_sub_from]. destruct skip as [|n].
    + rewrite (@list_re_closed c pre s Hc).
      destruct (re_match ZolaFront.list_re (c :: pre)) as [[[|n] g]|] eqn:Hm.
      * cbn [app]. f_equal. apply IH; [exact Hcl | lia].
      * apply list_re_length in Hm. cbn [length] in Hm.
        rewrite <- app_assoc. f_equal. apply IH; [exact Hcl | lia].
      * cbn [app]. f_equal. apply IH; [exact Hcl | lia].
    + apply IH; [exact Hcl | cbn [length] in Hskip; lia].
Qed.

Lemma deleting_refl (del : ascii -> bool) (s : str) : deleting del s s.
Proof. induction s; now constructor. Qed.

Lemma deleting_all (del : ascii -> bool) (ws t s : str) :
  Forall (fun c => del c = true) ws -> deleting del s t -> deleting del (ws ++ s) t.
Proof. induction 1; intros Hs; cbn [app]; [exact Hs | constructor; auto]. Qed.

Lemma deleting_app (del : ascii -> bool) (a s t : str) :
  deleting del s t -> deleting del (a ++ s) (a ++ t).
Proof. intros H. induction a; cbn [app]; [exact H | now constructor]. Qed.

Lemma blanks_deleted (ws : str) :
  blanks ws -> Forall (fun c => blank_or_comma c = true) ws.
Proof.
  unfold blanks. apply Forall_impl. intros c Hc. unfold blank_or_comma.
  now rewrite Hc.
Qed.

Lemma re_sub_from_deleting (s : str) :
  forall skip,
    deleting blank_or_comma (skipn skip s)
      (re_sub_from ZolaFront.list_re ZolaFront.list_repl s skip).
Proof.
  induction s as [|c s IH]; intros skip.
  - destruct skip; constructor.
  - destruct skip as [|k]; [|apply IH].
    cbn [skipn re_sub_from].
    destruct (re_match ZolaFront.list_re (c :: s)) as [[[|n] g]|] eqn:Hm;
      try (constructor; apply (IH 0)).
    destruct (list_re_inv _ Hm) as (ws1 & body & ws2 & ws3 & post & E & B1 & B2 & B3 & -> & En).
    injection E as -> ->. injection En as ->.
    set (m := ws1 ++ body ++ ws2 ++ ","%char :: ws3 ++ ["]"%char]).
    assert (Es : ws1 ++ body ++ ws2 ++ ","%char :: ws3 ++ "]"%char :: post = m ++ post).
    { unfold m. rewrite <- !app_assoc. do 3 f_equal. cbn [app]. f_equal.
      now rewrite <- app_assoc. }
    pose proof (IH (length m)) as Hp. rewrite Es in Hp |- *.
    rewrite skipn_app, skipn_all, Nat.sub_diag in Hp. cbn [skipn app] in Hp.
    revert Hp. generalize (re_sub_from ZolaFront.list_re ZolaFront.list_repl
                             (m ++ post) (length m)).
    intros R Hp. rewrite <- Es. clear Es m Hm IH.
    unfold ZolaFront.list_repl. cbn [group Nat.eqb lit list_ascii_of_string app].
    constructor. rewrite <- !app_assoc.
    apply deleting_all; [now apply blanks_deleted|].
    apply deleting_app.
    apply deleting_all; [now apply blanks_deleted|].
    cbn [app]. apply deleting_drop; [reflexivity|].
    apply deleting_all; [now apply blanks_deleted|].
    constructor. exact Hp.
Qed.

(** C3, as the code has it. The normalization pass rewrites a
    bracketed span that ends in a comma, [[ blanks body blanks , blanks ]],
    to [[body]]: the blanks after the opening bracket and the trailing
    comma go, whether the span lies on one line or on several and
    whatever the number of elements in [body]. This holds of every such
    span that does not lie inside an earlier bracket: every opening
    bracket of the text before it, [pre], is closed in [pre], as the
    header of a table is. The text before the span and the text after
    it go through the pass on their own. *)
Theorem C3_list_normalization (pre ws1 body ws2 ws3 post : str) :
  closed pre = true ->
  blanks ws1 -> blanks ws2 -> blanks ws3 ->
  no_lead_blank body -> ends_nonblank body -> ~ In "]"%char body ->
  re_sub ZolaFront.list_re ZolaFront.list_repl
    (pre ++ "["%char :: ws1 ++ body ++ ws2 ++ ","%char :: ws3 ++ "]"%char :: post) =
  re_sub ZolaFront.list_re ZolaFront.list_repl pre
  ++ "["%char :: body ++ "]"%char
      :: re_sub ZolaFront.list_re ZolaFront.list_repl post.
Proof.
  intros Hpre H1 H2 H3 Hlead Hend Hrb.
  unfold re_sub at 1. rewrite re_sub_closed by (assumption || lia).
  fold (re_sub ZolaFront.list_re ZolaFront.list_repl pre). f_equal.
  unfold re_sub. cbn [re_sub_from].
  rewrite list_re_match by assumption.
  unfold ZolaFront.list_repl. cbn [group Nat.eqb lit list_ascii_of_string app].
  f_equal. rewrite <- app_assoc. cbn [app]. do 2 f_equal.
  replace (ws1 ++ body ++ ws2 ++ ","%char :: ws3 ++ "]"%char :: post)
    with ((ws1 ++ body ++ ws2 ++ ","%char :: ws3 ++ ["]"%char]) ++ post).
  - apply re_sub_from_skip.
  - rewrite <- !app_assoc. do 3 f_equal. cbn [app]. f_equal.
    now rewrite <- app_assoc.
Qed.

Ltac not_in :=
  let H := fresh in
  intros H; cbn in H;
  repeat (destruct H as [H | H]; [discriminate H|]); exact H.

Lemma C3_list_normalization_witness :
  re_sub ZolaFront.list_re ZolaFront.list_repl
    ((lit "title = " ++ quoted (lit "Hello") ++ [NL; NL]
        ++ lit "[taxonomies]" ++ [NL] ++ lit "tags = ")
       ++ "["%char :: lit " " ++ quoted (lit "solo") ++ []
       ++ ","%char :: [] ++ "]"%char :: [NL]) =
  re_sub ZolaFront.list_re ZolaFront.list_repl
    (lit "title = " ++ quoted (lit "Hello") ++ [NL; NL]
       ++ lit "[taxonomies]" ++ [NL] ++ lit "tags = ")
  ++ "["%char :: quoted (lit "solo") ++ "]"%char
    :: re_sub ZolaFront.list_re ZolaFront.list_repl [NL].
Proof.
  apply C3_list_normalization.
  - reflexivity.
  - repeat constructor.
  - constructor.
  - constructor.
  - reflexivity.
  - exists (DQUOTE :: lit "solo"), DQUOTE. split; reflexivity.
  - not_in.
Defined.

(** Inside an earlier bracket that is still open a span is not
    rewritten in this way: the match that starts at the outer bracket
    takes it, and the blank after the inner bracket stays. *)
Example nested_span :
  re_sub ZolaFront.list_re ZolaFront.list_repl (lit "days = [ [ 1,], 2,]")
    = lit "days = [[ 1], 2,]".
Proof. vm_compute. reflexivity. Qed.

(** A single-element list comes out on one line, as the serializer
    prints it and also when it is spread over lines. *)
Example solo_tag_one_line :
  re_sub ZolaFront.list_re ZolaFront.list_repl
    (lit "tags = [ " ++ quoted (lit "solo") ++ lit ",]" ++ [NL]) =
  lit "tags = [" ++ quoted (lit "solo") ++ lit "]" ++ [NL]
  /\
  re_sub ZolaFront.list_re ZolaFront.list_repl
    (lit "tags = [" ++ [NL] ++ lit "  " ++ quoted (lit "solo") ++ lit "," ++ [NL]
       ++ lit "]" ++ [NL]) =
  lit "tags = [" ++ quoted (lit "solo") ++ lit "]" ++ [NL].
Proof. split; vm_compute; reflexivity. Qed.

(** C3 as stated fails: the pass also rewrites a list of two elements
    that lies on one line, and of a two-element list spread over lines
    it removes the first break and the last comma only. *)
Lemma C3_counterexample :
  ~ In NL (lit "days = [ 1, 2,]") /\
  re_sub ZolaFront.list_re ZolaFront.list_repl (lit "days = [ 1, 2,]")
    = lit "days = [1, 2]" /\
  re_sub ZolaFront.list_re ZolaFront.list_repl
    (lit "days = [" ++ [NL] ++ lit "  1," ++ [NL] ++ lit "  2," ++ [NL] ++ lit "]")
    = lit "days = [1," ++ [NL] ++ lit "  2]".
Proof.
  split; [not_in|].
  split; vm_compute; reflexivity.
Qed.

(** ** The Metadata Encoder: the serialized text *)

Lemma plain_not_table (v : value) : plain_value v = true -> is_table v = false.
Proof. destruct v; try reflexivity. discriminate. Qed.

Lemma plain_item_value (v : value) : plain_value v = true -> plain_item v = true.
Proof. destruct v; try (intros H; exact H). discriminate. Qed.

Lemma plain_item_VDict (kw : dict) : plain_item (VDict kw) = plain_entries kw.
Proof. unfold VDict, plain_item. now rewrite str_keys_VDict. Qed.

Lemma isdigit_plain (c : ascii) : isdigit c = true -> plain_char c = true.
Proof.
  intros H. apply isdigit_In in H. cbn in H.
  repeat (destruct H as [<- | H]; [reflexivity|]). contradiction.
Qed.

Lemma date_shaped_plain (m : str) : is_date_shaped m = true -> plain_str m = true.
Proof.
  unfold is_date_shaped.
  destruct m as [|y1 [|y2 [|y3 [|y4 [|h1 [|m1 [|m2 [|h2 [|d1 [|d2 [|x m]]]]]]]]]]];
    try discriminate.
  intros H. do 9 (apply andb_prop in H as [H ?]).
  repeat match goal with
         | X : is_char _ _ = true |- _ => apply is_char_eq in X; subst
         | X : isdigit _ = true |- _ => apply isdigit_plain in X
         end.
  cbn [plain_str forallb].
  repeat match goal with X : plain_char _ = true |- _ => rewrite X; clear X end.
  reflexivity.
Qed.

(** What the serializer writes for a value ends in a character, which
    is no newline. *)
Lemma dump_value_last (v : value) :
  plain_value v = true -> v <> VNone ->
  exists a c, dump_value v = a ++ [c] /\ c <> NL.
Proof.
  destruct v as [| b | z | s | y m d | l | m]; try discriminate.
  - intros _ H. now destruct H.
  - intros _ _. destruct b.
    + exists (lit "tru"), "e"%char. split; [reflexivity | discriminate].
    + exists (lit "fals"), "e"%char. split; [reflexivity | discriminate].
  - intros _ _. exists (DQUOTE :: s), DQUOTE. split; [reflexivity | discriminate].
  - intros _ _. cbn [dump_value].
    exists (lit "[" ++ concat (map (fun u => lit " " ++ dump_scalar u ++ lit ",") l)),
      "]"%char.
    split; [now rewrite <- app_assoc | discriminate].
Qed.

Lemma tidy_nil : tidy [].
Proof. now left. Qed.

Lemma tidy_app (a b : str) : tidy a -> tidy b -> tidy (a ++ b).
Proof.
  intros Ha [-> | (b0 & c & -> & Hc)].
  - now rewrite app_nil_r.
  - right. exists (a ++ b0), c. split; [now rewrite <- app_assoc | exact Hc].
Qed.

Lemma tidy_line (a : str) (c : ascii) : c <> NL -> tidy (a ++ [c; NL]).
Proof. intros Hc. right. now exists a, c. Qed.

Lemma tidy_entry (kv : str * value) :
  plain_value (snd kv) = true -> tidy (dump_entry kv).
Proof.
  destruct kv as [k v]. cbn [snd]. intros Hv.
  assert (Hn : v = VNone \/ v <> VNone)
    by (destruct v; (now left) || (right; discriminate)).
  destruct Hn as [-> | Hn]; [apply tidy_nil|].
  destruct (dump_value_last Hv Hn) as (a & c & E & Hc).
  replace (dump_entry (k, v)) with ((k ++ lit " = " ++ a) ++ [c; NL]).
  - now apply tidy_line.
  - unfold dump_entry. cbn [fst snd].
    destruct v; try (now destruct Hn); rewrite E, <- !app_assoc; reflexivity.
Qed.

Lemma tidy_entries (kw : dict) : plain_entries kw = true -> tidy (dump_entries kw).
Proof.
  unfold plain_entries, dump_entries.
  induction kw as [|kv kw IH]; cbn [forallb map concat]; [intros _; apply tidy_nil|].
  intros H. apply andb_prop in H as [H1 H2]. apply andb_prop in H1 as [_ H1].
  apply tidy_app; [now apply tidy_entry | now apply IH].
Qed.

Lemma tidy_endswith (s : str) : tidy s -> endswith s [NL; NL] = false.
Proof.
  intros [-> | (a & c & -> & Hc)]; [reflexivity|].
  unfold endswith. rewrite rev_app_distr. cbn [rev app startswith].
  apply Ascii.eqb_neq in Hc. rewrite Hc. now rewrite andb_false_r.
Qed.

(** A table after a tidy text: an empty line when something precedes,
    the header, the entries. *)
Lemma dump_section_table (retval name : str) (kw : dict) :
  tidy retval -> kw <> [] ->
  dump_section retval (name, VDict kw) = retval ++ table_text retval name kw.
Proof.
  intros Ht Hkw. unfold dump_section, VDict. cbn [snd fst].
  rewrite str_keys_VDict, (tidy_endswith Ht). unfold table_text.
  destruct kw as [|kv kw]; [now destruct Hkw|].
  f_equal. now destruct retval.
Qed.

Lemma tidy_table (before name : str) (kw : dict) :
  plain_entries kw = true -> tidy (table_text before name kw).
Proof.
  intros Hkw. unfold table_text. destruct kw as [|kv kw]; [apply tidy_nil|].
  set (m := match before with [] => [] | _ :: _ => [NL] end).
  replace (m ++ lit "[" ++ name ++ lit "]" ++ [NL] ++ dump_entries (kv :: kw))
    with (((m ++ lit "[" ++ name) ++ ["]"%char; NL]) ++ dump_entries (kv :: kw))
    by (rewrite <- !app_assoc; reflexivity).
  apply tidy_app; [|now apply tidy_entries].
  apply tidy_line. discriminate.
Qed.

(** The mapping the encoder builds is plain when its parts are. *)
Lemma to_toml_data_plain (zf : ZolaFront.t) :
  plain_value (ZolaFront.title zf) = true ->
  plain_value (ZolaFront.description zf) = true ->
  plain_entries (ZolaFront.taxonomies zf) = true ->
  plain_entries (ZolaFront.extra zf) = true ->
  plain (ZolaFront.to_toml_data zf) = true.
Proof.
  intros Ht Hd Htx Hex. rewrite to_toml_data_layout.
  assert (Hdate : plain_item (match ZolaFront.date zf with
                              | Some d => VStr (isoformat d)
                              | None => VNone
                              end) = true).
  { destruct (ZolaFront.date zf) as [d|]; [|reflexivity].
    apply (@date_shaped_plain (isoformat d) (isoformat_shaped d)). }
  apply plain_item_value in Ht, Hd.
  rewrite <- plain_item_VDict in Htx, Hex.
  destruct (ZolaFront.taxonomies zf) as [|x tx];
    destruct (ZolaFront.extra zf) as [|y ex];
    unfold plain; cbn [app forallb fst snd];
    rewrite ?Ht, ?Hd, ?Hdate, ?Htx, ?Hex; reflexivity.
Qed.

(** What the serializer of the toml package writes for the mapping of
    the encoder. *)
Lemma toml_text_layout (zf : ZolaFront.t) :
  plain_value (ZolaFront.title zf) = true ->
  plain_value (ZolaFront.description zf) = true ->
  plain_entries (ZolaFront.taxonomies zf) = true ->
  plain_entries (ZolaFront.extra zf) = true ->
  let head :=
    dump_entry (lit "title", ZolaFront.title zf)
    ++ match ZolaFront.date zf with
       | Some d => lit "date = " ++ [DQUOTE] ++ isoformat d ++ [DQUOTE; NL]
       | None => []
       end
    ++ dump_entry (lit "description", ZolaFront.description zf) in
  let tax := table_text head (lit "taxonomies") (ZolaFront.taxonomies zf) in
  let ext := table_text (head ++ tax) (lit "extra") (ZolaFront.extra zf) in
  toml_text (ZolaFront.to_toml_data zf) = head ++ tax ++ ext.
Proof.
  intros Ht Hd Htx Hex head tax ext.
  assert (Hhead : tidy head).
  { unfold head. apply tidy_app; [now apply tidy_entry|].
    apply tidy_app; [|now apply tidy_entry].
    destruct (ZolaFront.date zf) as [d|]; [|apply tidy_nil].
    apply (tidy_line (lit "date = " ++ [DQUOTE] ++ isoformat d)
             (c := DQUOTE)). discriminate. }
  assert (Htax : tidy (head ++ tax)).
  { apply tidy_app; [exact Hhead | now apply tidy_table]. }
  assert (Escalars :
            dump_entries
              [ (lit "title", ZolaFront.title zf);
                (lit "date", match ZolaFront.date zf with
                             | Some d => VStr (isoformat d)
                             | None => VNone
                             end);
                (lit "description", ZolaFront.description zf) ] = head).
  { unfold dump_entries, head. cbn [map concat]. rewrite app_nil_r.
    do 2 f_equal. now destruct (ZolaFront.date zf). }
  assert (Hnt : is_table (match ZolaFront.date zf with
                          | Some d => VStr (isoformat d)
                          | None => VNone
                          end) = false)
    by now destruct (ZolaFront.date zf).
  pose proof (@plain_not_table _ Ht) as Ht'.
  pose proof (@plain_not_table _ Hd) as Hd'.
  unfold toml_text. rewrite to_toml_data_layout.
  revert Htax. unfold ext, tax.
  destruct (ZolaFront.taxonomies zf) as [|x tx];
    destruct (ZolaFront.extra zf) as [|y ex]; intros Htax;
    cbn [app filter fst snd]; rewrite Ht', Hd', Hnt;
    change (is_table (VDict ?k)) with true;
    cbn [negb fold_left]; rewrite Escalars.
  - cbn [table_text]. now rewrite !app_nil_r.
  - rewrite dump_section_table by (exact Hhead || discriminate).
    cbn [table_text]. now rewrite !app_nil_r.
  - rewrite dump_section_table by (exact Hhead || discriminate).
    cbn [table_text]. now rewrite !app_nil_r.
  - rewrite (@dump_section_table head (lit "taxonomies") (x :: tx))
      by (exact Hhead || discriminate).
    rewrite dump_section_table by (exact Htax || discriminate).
    now rewrite <- app_assoc.
Qed.

Lemma sample_dumps_plain (d : dict) :
  plain d = true -> @toml_dumps sample_libs d = Ok (toml_text d).
Proof. intros Hd. cbn [toml_dumps sample_libs]. unfold sample_dumps. now rewrite Hd. Qed.

(** C6. The encoder hands the serializer the entries title, date and
    description, in that order, followed by the table taxonomies when
    it is not empty and by the table extra when it is not empty; the
    date is the string YYYY-MM-DD of the calendar date, and [None]
    without one. With a serializer that writes plain mappings as the
    toml package does, and a front matter whose values are plain, the
    serialized text is: the line of title, the line of date when there
    is one, the line of description, each left out when the value is
    [None]; then the table [[taxonomies]] and the table [[extra]], each
    only when it is not empty and after an empty line when something
    precedes it. What the encoder returns is that text, stripped, after
    the normalization pass, which only deletes blanks and commas, and
    with a newline at the end. *)
Theorem C6_encoder_layout `{Libs} (zf : ZolaFront.t) :
  (forall d, plain d = true -> toml_dumps d = Ok (toml_text d)) ->
  plain_value (ZolaFront.title zf) = true ->
  plain_value (ZolaFront.description zf) = true ->
  plain_entries (ZolaFront.taxonomies zf) = true ->
  plain_entries (ZolaFront.extra zf) = true ->
  let head :=
    dump_entry (lit "title", ZolaFront.title zf)
    ++ match ZolaFront.date zf with
       | Some d => lit "date = " ++ [DQUOTE] ++ isoformat d ++ [DQUOTE; NL]
       | None => []
       end
    ++ dump_entry (lit "description", ZolaFront.description zf) in
  let tax := table_text head (lit "taxonomies") (ZolaFront.taxonomies zf) in
  let ext := table_text (head ++ tax) (lit "extra") (ZolaFront.extra zf) in
  ZolaFront.to_toml_data zf =
    [ (lit "title", ZolaFront.title zf);
      (lit "date", match ZolaFront.date zf with
                   | Some d => VStr (isoformat d)
                   | None => VNone
                   end);
      (lit "description", ZolaFront.description zf) ]
    ++ match ZolaFront.taxonomies zf with
       | [] => []
       | _ => [(lit "taxonomies", VDict (ZolaFront.taxonomies zf))]
       end
    ++ match ZolaFront.extra zf with
       | [] => []
       | _ => [(lit "extra", VDict (ZolaFront.extra zf))]
       end /\
  (forall d, is_date_shaped (isoformat d) = true) /\
  toml_dumps (ZolaFront.to_toml_data zf) = Ok (head ++ tax ++ ext) /\
  ZolaFront.to_toml zf =
    Ok (re_sub ZolaFront.list_re ZolaFront.list_repl (strip (head ++ tax ++ ext))
        ++ [NL]) /\
  deleting blank_or_comma (strip (head ++ tax ++ ext))
    (re_sub ZolaFront.list_re ZolaFront.list_repl (strip (head ++ tax ++ ext))).
Proof.
  intros Hlib Ht Hd Htx Hex head tax ext.
  assert (E : toml_dumps (ZolaFront.to_toml_data zf) = Ok (head ++ tax ++ ext)).
  { rewrite Hlib by now apply to_toml_data_plain.
    f_equal. now apply toml_text_layout. }
  split; [apply to_toml_data_layout|].
  split; [apply isoformat_shaped|].
  split; [exact E|]. split.
  - unfold ZolaFront.to_toml. rewrite E. reflexivity.
  - apply (re_sub_from_deleting _ 0).
Qed.

Lemma C6_encoder_layout_witness :
  @toml_dumps sample_libs (ZolaFront.to_toml_data sample_zola) =
    Ok (text_lines [ lit "title = " ++ quoted (lit "Hello");
                     lit "date = " ++ quoted (lit "2023-05-01");
                     [];
                     lit "[taxonomies]";
                     lit "tags = [ " ++ quoted (lit "solo") ++ lit ",]";
                     [];
                     lit "[extra]";
                     lit "comments = true" ]) /\
  @ZolaFront.to_toml sample_libs sample_zola =
    Ok (text_lines [ lit "title = " ++ quoted (lit "Hello");
                     lit "date = " ++ quoted (lit "2023-05-01");
                     [];
                     lit "[taxonomies]";
                     lit "tags = [" ++ quoted (lit "solo") ++ lit "]";
                     [];
                     lit "[extra]";
                     lit "comments = true" ]).
Proof.
  destruct (@C6_encoder_layout sample_libs sample_zola sample_dumps_plain
              eq_refl eq_refl eq_refl eq_refl) as (_ & _ & H1 & H2 & _).
  split; [exact H1 | exact H2].
Defined.

(** ** The Walker *)

Lemma lookup_app (a b : path) (root : node) :
  lookup (a ++ b) root =
  match lookup a root with
  | Some n => lookup b n
  | None => None
  end.
Proof.
  revert root. induction a as [|x a IH]; intros root; [reflexivity|].
  simpl. destruct root as [t|es]; [reflexivity|].
  destruct (find_entry x es); [apply IH | reflexivity].
Qed.

(** A write keeps the directories. *)
Lemma write_keeps_dirs (p : path) (text : str) :
  forall q n n' es,
    write_node p text n = Some n' ->
    lookup q n = Some (Dir es) ->
    exists es', lookup q n' = Some (Dir es').
Proof.
  induction p as [|name rest IH]; intros q n n' es0; simpl.
  - destruct n as [t|es]; [|discriminate]. intros _ Hq.
    destruct q; discriminate.
  - destruct n as [t|es]; [discriminate|].
    destruct (update_entry name _ _ es) as [es'|] eqn:Hu; [|discriminate].
    intros [= <-] Hq. destruct q as [|x q]; [now exists es'|].
    simpl in *.
    destruct (list_eq_dec ascii_dec x name) as [->|Hne].
    + destruct (find_update_same _ _ _ _ Hu) as (c' & Hf & Hc). rewrite Hf.
      destruct (find_entry name es) as [c|]; [|discriminate].
      now apply (IH q c c' es0).
    + rewrite (find_update_other _ _ _ Hne Hu). now exists es0.
Qed.

Lemma find_entry_file (name : str) (es : list (str * node)) (t : str) :
  find_entry name es = Some (File t) -> In name (file_names es).
Proof.
  unfold file_names. induction es as [|[n c] es IH]; simpl; [discriminate|].
  destruct (str_eqb n name) eqn:E.
  - intros [= ->]. apply str_eqb_eq in E. subst n. now left.
  - intros Hf. destruct c; simpl; [right|]; now apply IH.
Qed.

Lemma find_entry_dir (name : str) (es es' : list (str * node)) :
  find_entry name es = Some (Dir es') -> In name (dir_names es).
Proof.
  unfold dir_names. induction es as [|[n c] es IH]; simpl; [discriminate|].
  destruct (str_eqb n name) eqn:E.
  - intros [= ->]. apply str_eqb_eq in E. subst n. now left.
  - intros Hf. destruct c; simpl; [|right]; now apply IH.
Qed.

Lemma height_entry (name : str) (es : list (str * node)) (c : node) :
  find_entry name es = Some c -> height c < height (Dir es).
Proof.
  cbn [height]. induction es as [|[n c0] es IH]; simpl; [discriminate|].
  destruct (str_eqb n name).
  - intros [= ->]. lia.
  - intros Hf. specialize (IH Hf). lia.
Qed.

Lemma lookup_height (p : path) :
  forall root n, lookup p root = Some n -> height n <= height root.
Proof.
  induction p as [|x p IH]; intros root n; simpl.
  - now intros [= ->].
  - destruct root as [t|es]; [discriminate|].
    destruct (find_entry x es) as [c|] eqn:Hf; [|discriminate].
    intros Hl. apply IH in Hl. apply height_entry in Hf. lia.
Qed.

Lemma path_name_last (p : path) (name : str) : path_name (p ++ [name]) = name.
Proof. unfold path_name. apply last_last. Qed.


(** It lists only names that end in [.md]. *)
Lemma walk_list_md (root : node) :
  forall fuel top p,
    In p (walk_list fuel top root) ->
    endswith (path_name p) (lit ".md") = true.
Proof.
  induction fuel as [|fuel IH]; intros top p; cbn [walk_list]; [contradiction|].
  destruct (lookup top root) as [[t|es]|]; try contradiction.
  intros Hin. apply in_app_or in Hin as [Hin|Hin].
  - apply in_map_iff in Hin as (f & <- & Hf).
    apply filter_In in Hf as [_ Hf]. now rewrite path_name_last.
  - apply in_flat_map in Hin as (d & _ & Hin). now apply IH in Hin.
Qed.

Section Walk.
Context {L : Libs}.
Variables (inpath out : path) (w0 : World) (es0 : list (str * node)).
Hypothesis Hin : lookup inpath (fs w0) = Some (Dir es0).
Hypothesis Hsep : ~ is_prefix inpath out.

Lemma for_each_app {X} (a b : list X) (body : X -> M unit) (w : World) :
  for_each (a ++ b) body w = (for_each a body ;;; for_each b body) w.
Proof.
  revert w. induction a as [|x a IH]; intros w; cbn [app for_each].
  - reflexivity.
  - unfold bind in *. destruct (body x w) as [[[]|e] w1]; [|reflexivity].
    apply IH.
Qed.

Lemma main_body_for_each (top : path) (dirs files : list str) (w : World) :
  main_body out top dirs files w =
  @for_each path
    (map (fun f => top ++ [f])
       (filter (fun f => endswith f (lit ".md")) files))
    (fun p => convert_file p out) w.
Proof.
  revert w. induction files as [|f files IH]; intros w; [reflexivity|].
  cbn [filter]. destruct (endswith f (lit ".md")) eqn:Hmd.
  - rewrite main_body_cons by exact Hmd. cbn [map for_each]. unfold bind.
    destruct (convert_file (top ++ [f]) out w) as [[[]|e] w1];
      [apply IH | reflexivity].
  - rewrite main_body_other by exact Hmd. apply IH.
Qed.

(** What [convert_file] can do to the file system: nothing, or one
    write at its destination. *)
Lemma convert_file_fs (p : path) (w w' : World) (r : result unit) :
  convert_file p out w = (r, w') ->
  fs w' = fs w \/
  exists s, write_node (dest w p out) s (fs w) = Some (fs w').
Proof.
  intros Hc.
  destruct (@convert_file_effect _ p out w w' r Hc)
    as [(e & _ & ->) | [(_ & ->) | [(_ & _ & s & Hw) | (e & zf & _ & _ & _ & Hw)]]].
  - now left.
  - now left.
  - right. now exists s.
  - right. now exists [].
Qed.

Lemma dest_outside (w : World) (p : path) : ~ is_prefix inpath (dest w p out) \/
  dest w p out = inpath.
Proof.
  unfold dest.
  destruct (lookup out (fs w)) as [[t|es]|]; try (now left).
  destruct (list_eq_dec (list_eq_dec ascii_dec) (out ++ [path_name p]) inpath)
    as [E|Hne]; [now right|left].
  intros [r E]. destruct (exists_last (l := r)) as (r' & x & ->).
  - intros ->. rewrite app_nil_r in E. contradiction.
  - rewrite app_assoc in E. apply app_inj_tail in E as [E _].
    apply Hsep. now exists r'.
Qed.

(** A conversion leaves the input tree as it was. *)
Lemma convert_file_same_under (p : path) (w w' : World) (r : result unit) :
  same_under inpath w0 w ->
  convert_file p out w = (r, w') ->
  same_under inpath w0 w'.
Proof.
  intros Hinv Hc q Hq.
  destruct (convert_file_fs _ _ Hc) as [E | [s Hw]].
  - rewrite E. now apply Hinv.
  - rewrite <- (Hinv q Hq).
    destruct (dest_outside w p) as [Hout | Heq].
    + eapply lookup_write_frame; [exact Hw|].
      intros [r1 E]. apply Hout. destruct Hq as [r2 ->].
      exists (r2 ++ r1). now rewrite app_assoc.
    + rewrite Heq in Hw.
      assert (Hd : lookup inpath (fs w) = Some (Dir es0)).
      { rewrite <- Hin. apply Hinv. exists []. now rewrite app_nil_r. }
      erewrite write_dir_fails in Hw by exact Hd. discriminate Hw.
Qed.

Lemma for_each_same_under (ps : list path) :
  forall (w w' : World) (r : result unit),
    same_under inpath w0 w ->
    for_each ps (fun p => convert_file p out) w = (r, w') ->
    same_under inpath w0 w'.
Proof.
  induction ps as [|p ps IH]; intros w w' r Hinv; cbn [for_each].
  - unfold ret. now intros [= _ <-].
  - unfold bind. destruct (convert_file p out w) as [[[]|e] w1] eqn:Hc.
    + apply IH. now apply (convert_file_same_under _ Hinv Hc).
    + intros [= _ <-]. now apply (convert_file_same_under _ Hinv Hc).
Qed.

(** The walk visits the files of the snapshot taken at the start. *)
Lemma walk_static (fuel : nat) :
  forall (top : path) (w : World),
    same_under inpath w0 w ->
    is_prefix inpath top ->
    walk fuel top (main_body out) w =
    for_each (walk_list fuel top (fs w0)) (fun p => convert_file p out) w.
Proof.
  induction fuel as [|fuel IH]; intros top w Hinv Htop; [reflexivity|].
  cbn [walk walk_list]. rewrite (Hinv top Htop).
  destruct (lookup top (fs w0)) as [[t|es]|]; try reflexivity.
  rewrite for_each_app. unfold bind at 1 2.
  rewrite main_body_for_each.
  destruct (for_each (map _ _) _ w) as [[[]|e] w1] eqn:Hb; [|reflexivity].
  apply for_each_same_under in Hb; [|exact Hinv].
  clear Hinv. revert w1 Hb.
  induction (dir_names es) as [|d ds IHd]; intros w1 Hinv1; [reflexivity|].
  cbn [for_each flat_map]. rewrite for_each_app. unfold bind.
  rewrite IH; [|exact Hinv1|].
  - destruct (for_each (walk_list fuel (top ++ [d]) (fs w0)) _ w1)
      as [[[]|e] w2] eqn:Hd; [|reflexivity].
    apply IHd. now apply (for_each_same_under _ Hinv1 Hd).
  - destruct Htop as [r ->]. exists (r ++ [d]). now rewrite app_assoc.
Qed.

End Walk.

Lemma write_keeps_files (p : path) (text : str) :
  forall q n n' t,
    write_node p text n = Some n' ->
    lookup q n = Some (File t) ->
    exists t', lookup q n' = Some (File t').
Proof.
  induction p as [|name rest IH]; intros q n n' t0; simpl.
  - destruct n as [t|es]; [|discriminate]. intros [= <-] Hq.
    destruct q; [now exists text | discriminate].
  - destruct n as [t|es]; [discriminate|].
    destruct (update_entry name _ _ es) as [es'|] eqn:Hu; [|discriminate].
    intros [= <-] Hq. destruct q as [|x q]; [discriminate|].
    simpl in *.
    destruct (list_eq_dec ascii_dec x name) as [->|Hne].
    + destruct (find_update_same _ _ _ _ Hu) as (c' & Hf & Hc). rewrite Hf.
      destruct (find_entry name es) as [c|]; [|discriminate].
      now apply (IH q c c' t0).
    + rewrite (find_update_other _ _ _ Hne Hu). now exists t0.
Qed.

Section WalkAny.
Context {L : Libs}.
Variables (out : path) (w0 : World).

Lemma convert_keeps_files (p : path) (w w' : World) (r : result unit) :
  keeps_files w0 w ->
  convert_file p out w = (r, w') ->
  keeps_files w0 w'.
Proof.
  intros Hk Hc q t Hq. destruct (Hk q t Hq) as [t1 H1].
  destruct (@convert_file_fs _ out p w w' r Hc) as [E | [s Hw]].
  - rewrite E. now exists t1.
  - eapply write_keeps_files; eassumption.
Qed.

Lemma for_each_keeps_files (ps : list path) :
  forall (w w' : World) (r : result unit),
    keeps_files w0 w ->
    for_each ps (fun p => convert_file p out) w = (r, w') ->
    keeps_files w0 w'.
Proof.
  induction ps as [|p ps IH]; intros w w' r Hk; cbn [for_each].
  - unfold ret. now intros [= _ <-].
  - unfold bind. destruct (convert_file p out w) as [[[]|e] w1] eqn:Hc.
    + apply IH. now apply (convert_keeps_files _ Hk Hc).
    + intros [= _ <-]. now apply (convert_keeps_files _ Hk Hc).
Qed.

Lemma for_each_app_ok {X} (a b : list X) (body : X -> M unit) (w w' : World) :
  for_each (a ++ b) body w = (Ok tt, w') ->
  exists w1, for_each a body w = (Ok tt, w1) /\ for_each b body w1 = (Ok tt, w').
Proof.
  rewrite for_each_app. unfold bind.
  destruct (for_each a body w) as [[[]|e] w1]; [|discriminate].
  intros Hb. now exists w1.
Qed.

(** Whatever the conversions write meanwhile, the walk is a sequence of
    conversions of [.md] files, and when none of them raises it has
    converted every such file that was there at the start. *)
Lemma walk_any (fuel : nat) :
  forall (top : path) (w : World),
    keeps_files w0 w ->
    exists ps,
      walk fuel top (main_body out) w =
        for_each ps (fun p => convert_file p out) w /\
      (forall p, In p ps ->
         endswith (path_name p) (lit ".md") = true /\ is_prefix top p) /\
      (forall w', for_each ps (fun p => convert_file p out) w = (Ok tt, w') ->
         reaches w0 fuel top ps).
Proof.
  induction fuel as [|fuel IH]; intros top w Hk.
  { exists []. repeat split; try contradiction.
    intros w' _ rel name t Hlen. lia. }
  cbn [walk].
  destruct (lookup top (fs w)) as [[t|es]|] eqn:Ht.
  1,3: exists []; repeat split; try contradiction;
       intros w' _ rel name t' _ Hl _;
       destruct (Hk _ _ Hl) as [t1 H1];
       rewrite lookup_app, Ht in H1; destruct rel; discriminate.
  set (A := map (fun f => top ++ [f])
              (filter (fun f => endswith f (lit ".md")) (file_names es))).
  assert (HA : forall p, In p A ->
             endswith (path_name p) (lit ".md") = true /\ is_prefix top p).
  { intros p Hp. apply in_map_iff in Hp as (f & <- & Hf).
    apply filter_In in Hf as [_ Hf]. rewrite path_name_last.
    split; [exact Hf | now exists [f]]. }
  (* the subdirectories, one after the other *)
  assert (Hdirs : forall ds w1,
    keeps_files w0 w1 ->
    exists ps,
      for_each ds (fun d => walk fuel (top ++ [d]) (main_body out)) w1 =
        for_each ps (fun p => convert_file p out) w1 /\
      (forall p, In p ps ->
         endswith (path_name p) (lit ".md") = true /\ is_prefix top p) /\
      (forall w', for_each ps (fun p => convert_file p out) w1 = (Ok tt, w') ->
         forall d, In d ds -> reaches w0 fuel (top ++ [d]) ps)).
  { induction ds as [|d ds IHd]; intros w1 Hk1.
    { exists []. repeat split; contradiction. }
    destruct (IH (top ++ [d]) w1 Hk1) as (pd & Ed & Hpd & Hrd).
    cbn [for_each]. unfold bind at 1. rewrite Ed.
    destruct (for_each pd _ w1) as [[[]|e] w2] eqn:Hrun.
    - destruct (IHd w2 (for_each_keeps_files _ Hk1 Hrun))
        as (ps & Es & Hps & Hrs).
      exists (pd ++ ps). split; [|split].
      + rewrite for_each_app. unfold bind. now rewrite Hrun.
      + intros p Hp. apply in_app_or in Hp as [Hp|Hp]; [|now apply Hps].
        destruct (Hpd p Hp) as [Hmd [r ->]]. split; [exact Hmd|].
        exists ([d] ++ r). now rewrite app_assoc.
      + intros w' Hrun' d' Hd' rel name t Hlen Hl Hmd.
        apply for_each_app_ok in Hrun' as (w2' & H1 & H2).
        rewrite Hrun in H1. injection H1 as <-.
        apply in_or_app. destruct Hd' as [<- | Hd'].
        * left. now apply (Hrd _ eq_refl rel name t).
        * right. now apply (Hrs _ H2 d' Hd' rel name t).
    - exists pd. split; [|split].
      + now rewrite Hrun.
      + intros p Hp. destruct (Hpd p Hp) as [Hmd [r ->]]. split; [exact Hmd|].
        exists ([d] ++ r). now rewrite app_assoc.
      + intros w' Hx. rewrite ?Hrun in Hx. discriminate Hx. }
  unfold bind. rewrite main_body_for_each. fold A.
  change (list (list str)) with (list path) in (type of A).
  destruct (for_each A (fun p : path => convert_file p out) w)
    as [[[]|e] w1] eqn:HrunA.
  - destruct (Hdirs (dir_names es) w1 (for_each_keeps_files _ Hk HrunA))
      as (ps & Es & Hps & Hrs).
    exists (A ++ ps). split; [|split].
    + rewrite for_each_app. unfold bind. rewrite HrunA. exact Es.
    + intros p Hp. apply in_app_or in Hp as [Hp|Hp]; [now apply HA | now apply Hps].
    + intros w' Hrun rel name t' Hlen Hl Hmd.
      apply for_each_app_ok in Hrun as (w1' & H1 & H2).
      rewrite HrunA in H1. injection H1 as <-.
      destruct (Hk _ _ Hl) as [t1 Hl1].
      rewrite lookup_app, Ht in Hl1. apply in_or_app.
      destruct rel as [|d rel]; cbn [app lookup] in Hl1.
      * left. destruct (find_entry name es) as [c|] eqn:Hf; [|discriminate].
        injection Hl1 as ->. apply in_map_iff. exists name.
        split; [reflexivity|]. apply filter_In. split; [|exact Hmd].
        now apply find_entry_file with t1.
      * right. destruct (find_entry d es) as [c|] eqn:Hf; [|discriminate].
        assert (Hc : exists es', c = Dir es').
        { destruct c as [tc|es']; [|now exists es'].
          destruct rel; discriminate. }
        destruct Hc as [es' ->].
        replace (top ++ (d :: rel) ++ [name]) with ((top ++ [d]) ++ rel ++ [name])
          by (now rewrite <- app_assoc).
        apply (Hrs _ H2 d (find_entry_dir _ _ Hf) rel name t').
        -- simpl in Hlen. lia.
        -- rewrite <- app_assoc. exact Hl.
        -- exact Hmd.
  - exists A. split; [|split].
    + now rewrite HrunA.
    + exact HA.
    + intros w' Hx. rewrite ?HrunA in Hx. discriminate Hx.
Qed.

End WalkAny.




(** The sample run: the two posts land side by side in the output
    directory, and the post without metadata leaves one diagnostic. *)
Example sample_run :
  exists fs',
    @main sample_libs [lit "posts"] [lit "out"] sample_world =
      (Ok tt, mkWorld fs' [parse_error_msg]) /\
    match lookup [lit "out"] fs' with
    | Some (Dir entries) =>
        map fst entries = [lit "2023-05-01-hello.md"; lit "2021-02-03-hello.md"]
    | _ => False
    end.
Proof. eexists. split; vm_compute; reflexivity. Qed.

(** * Further properties *)

(** ** The Reader on a well-formed document *)

Lemma file_lines_line (l rest : str) :
  is_line l -> file_lines (l ++ rest) = l :: file_lines rest.
Proof.
  intros (l0 & -> & Hnl). induction l0 as [|c l0 IH]; cbn [app file_lines].
  - now rewrite Ascii.eqb_refl.
  - destruct (Ascii.eqb c NL) eqn:E.
    + apply Ascii.eqb_eq in E. subst c. exfalso. apply Hnl. now left.
    + cbn [app] in IH. rewrite IH; [reflexivity|].
      intros Hin. apply Hnl. now right.
Qed.

Lemma file_lines_join (ls : list str) (rest : str) :
  Forall is_line ls -> file_lines (join ls ++ rest) = ls ++ file_lines rest.
Proof.
  unfold join. induction 1 as [|l ls Hl _ IH]; [reflexivity|].
  cbn [concat app]. rewrite <- app_assoc, file_lines_line by exact Hl.
  now rewrite IH.
Qed.

(** X1. The Reader undoes the layout of a Jekyll post. The file is read
    in text mode, where a carriage return and a line feed, and a
    carriage return alone, come as one line feed. When the text so read
    is made of lines without a delimiter, a delimiter line, metadata
    lines without a delimiter, a second delimiter line and a body, the
    Reader returns exactly those metadata lines and that body, whatever
    the body contains. A text without a carriage return is read as it
    is stored. *)
Theorem reader_inverts_layout (fp : path) (text : str) (pre : list str)
    (d1 : str) (meta : list str) (d2 : str) (body : str) :
  Forall is_line pre -> no_delim pre ->
  is_line d1 -> Parser.is_delim d1 = true ->
  Forall is_line meta -> no_delim meta ->
  is_line d2 -> Parser.is_delim d2 = true ->
  universal_newlines text = join pre ++ d1 ++ join meta ++ d2 ++ body ->
  Parser.read_lines (Parser.init fp) (file_lines (universal_newlines text)) =
    Parser.mk fp CONTENT meta VNone (file_lines body)
  /\ join (Parser.raw_front
             (Parser.read_lines (Parser.init fp)
                (file_lines (universal_newlines text))))
     = join meta
  /\ body_of fp text = body
  /\ (~ In CR text -> universal_newlines text = text).
Proof.
  intros Hpl Hpre Hd1l Hd1 Hml Hmeta Hd2l Hd2 Htext.
  assert (Hr : Parser.read_lines (Parser.init fp)
                 (file_lines (universal_newlines text)) =
               Parser.mk fp CONTENT meta VNone (file_lines body)).
  { rewrite Htext.
    rewrite file_lines_join, file_lines_line, file_lines_join, file_lines_line
      by assumption.
    rewrite read_lines_app, (read_unknown_skip (Parser.init fp) eq_refl Hpre).
    unfold Parser.read_lines at 1. cbn [fold_left].
    unfold Parser.read_line at 2. cbn [Parser.state Parser.init]. rewrite Hd1.
    fold (Parser.read_lines
            (Parser.mk (Parser.file_path (Parser.init fp)) FRONT_MATTER
               (Parser.raw_front (Parser.init fp)) (Parser.front (Parser.init fp))
               (Parser.content (Parser.init fp)))
            (meta ++ d2 :: file_lines body)).
    rewrite read_lines_app, (read_front_acc Hmeta) by reflexivity.
    unfold Parser.read_lines at 1. cbn [fold_left].
    unfold Parser.read_line at 2. cbn [Parser.state]. rewrite Hd2.
    cbn [Parser.file_path Parser.raw_front Parser.front Parser.content
         Parser.init app].
    fold (Parser.read_lines (Parser.mk fp CONTENT meta VNone []) (file_lines body)).
    now rewrite read_content_acc. }
  split; [exact Hr|]. split; [|split].
  - now rewrite Hr.
  - unfold body_of. rewrite Hr. apply join_file_lines.
  - apply universal_newlines_id.
Qed.

Lemma reader_inverts_layout_witness :
  body_of [lit "a.md"] crlf_post = text_lines [lit "one"; lit "two"; lit "three"].
Proof.
  refine (proj1 (proj2 (proj2 (@reader_inverts_layout [lit "a.md"] crlf_post []
            (text_lines [lit "---"])
            [text_lines [lit "title: Hello"]; text_lines [lit "layout: post"]]
            (text_lines [lit "---"])
            (text_lines [lit "one"; lit "two"; lit "three"])
            _ _ _ eq_refl _ _ _ eq_refl eq_refl)))).
  - constructor.
  - constructor.
  - exists (lit "---"). split; [reflexivity | not_in].
  - repeat constructor.
    + exists (lit "title: Hello"). split; [reflexivity | not_in].
    + exists (lit "layout: post"). split; [reflexivity | not_in].
  - repeat constructor.
  - exists (lit "---"). split; [reflexivity | not_in].
Defined.

(** ** The date when the path decides, and when it does not *)

Lemma re_search_date_none (path : str) :
  ~ contains_date path -> re_search JekyllDoc.date_re path = None.
Proof.
  intros Hn. pose proof (re_search_date_spec path) as Hs.
  destruct (re_search JekyllDoc.date_re path) as [m|]; [|reflexivity].
  exfalso. apply Hn. destruct Hs as (pre & post & E & Hm & _).
  now exists pre, m, post.
Qed.

Lemma first_date_unique (path m m' : str) :
  first_date_in path m -> first_date_in path m' -> m = m'.
Proof.
  intros (pre & post & E & Hm & Hmin) (pre' & post' & E' & Hm' & Hmin').
  pose proof (Hmin _ _ _ E' Hm') as L1. pose proof (Hmin' _ _ _ E Hm) as L2.
  assert (Hp : pre = pre').
  { rewrite <- (firstn_app_exact pre (m ++ post)), <- E, E'.
    replace (length pre) with (length pre') by lia. apply firstn_app_exact. }
  subst pre'. rewrite E in E'. apply app_inv_head in E'.
  rewrite <- (firstn_app_exact m post), E'.
  rewrite (date_shaped_length _ Hm), <- (date_shaped_length _ Hm').
  apply firstn_app_exact.
Qed.

Lemma re_search_first_date (path m : str) :
  first_date_in path m -> re_search JekyllDoc.date_re path = Some m.
Proof.
  intros Hf. pose proof (re_search_date_spec path) as Hs.
  destruct (re_search JekyllDoc.date_re path) as [m'|].
  - f_equal. exact (first_date_unique Hs Hf).
  - exfalso. apply Hs. destruct Hf as (pre & post & E & Hm & _).
    now exists pre, m, post.
Qed.

Lemma re_search_date_length (s m : str) :
  re_search JekyllDoc.date_re s = Some m -> 10 <= length s.
Proof.
  induction s as [|c s IH]; rewrite re_search_date_unfold.
  - cbn. discriminate.
  - destruct (is_date_shaped (firstn 10 (c :: s))) eqn:Hd.
    + intros _. apply date_shaped_length in Hd.
      rewrite length_firstn in Hd. lia.
    + intros H. apply IH in H. simpl. lia.
Qed.

Lemma firstn_app_long {X} (n : nat) (a b : list X) :
  n <= length a -> firstn n (a ++ b) = firstn n a.
Proof.
  intros L. rewrite firstn_app. replace (n - length a) with 0 by lia.
  rewrite firstn_O. apply app_nil_r.
Qed.

Lemma re_search_date_app (a b m : str) :
  re_search JekyllDoc.date_re a = Some m ->
  re_search JekyllDoc.date_re (a ++ b) = Some m.
Proof.
  induction a as [|c a IH]; intros H.
  - apply re_search_date_length in H. simpl in H. lia.
  - pose proof (re_search_date_length _ H) as L.
    rewrite re_search_date_unfold in H. rewrite re_search_date_unfold.
    rewrite firstn_app_long by exact L.
    destruct (is_date_shaped (firstn 10 (c :: a))); [exact H|].
    cbn [app]. now apply IH.
Qed.

Lemma join_path_snoc (n : str) (dir : path) (name : str) :
  join_path (n :: dir ++ [name]) = join_path (n :: dir) ++ lit "/" ++ name.
Proof.
  revert n. induction dir as [|n' dir IH]; intros n; [reflexivity|].
  change (join_path (n :: (n' :: dir) ++ [name]))
    with (n ++ lit "/" ++ join_path (n' :: dir ++ [name])).
  change (join_path (n :: n' :: dir))
    with (n ++ lit "/" ++ join_path (n' :: dir)).
  rewrite IH. now rewrite <- !app_assoc.
Qed.

Lemma path_str_snoc (dir : path) (name : str) :
  dir <> [] -> path_str (dir ++ [name]) = path_str dir ++ lit "/" ++ name.
Proof.
  intros Hd. destruct dir as [|n dir]; [congruence|].
  apply join_path_snoc.
Qed.

Lemma call_date (front : value) (f : JekyllFront.t) :
  JekyllFront.call front = Ok f ->
  exists kw, front = VDict kw /\
             JekyllFront.date f = JekyllFront.arg (lit "date") kw.
Proof.
  intros H. destruct (call_mapping front) as [[kw ->] | [E _]]; [|congruence].
  rewrite call_VDict in H. unfold JekyllFront.call_kw in H.
  exists kw. split; [reflexivity|].
  destruct (dict_mem (lit "self") kw); [discriminate|].
  destruct (dict_get (lit "title") kw); [|discriminate].
  unfold JekyllFront.init in H.
  destruct (dict_mem (lit "layout") _); [|discriminate].
  now injection H as <-.
Qed.

(** X2. When the path of the input file has no substring of the shape
    YYYY-MM-DD, the document keeps the date of its front matter: the
    value under the key [date], or [None] without that key. *)
Theorem front_date_kept (front : value) (content path : str) (doc : JekyllDoc.t) :
  ~ contains_date path ->
  JekyllDoc.init front content path = Ok doc ->
  exists kw,
    front = VDict kw /\
    JekyllFront.date (JekyllDoc.front doc) = JekyllFront.arg (lit "date") kw /\
    JekyllDoc.content doc = content.
Proof.
  intros Hn. unfold JekyllDoc.init, JekyllDoc.extract_date.
  rewrite (re_search_date_none Hn).
  destruct (JekyllFront.call front) as [f|e] eqn:Hc; [|discriminate].
  cbn [rbind]. intros H. injection H as <-.
  destruct (call_date _ Hc) as (kw & -> & Hd).
  exists kw. now repeat split.
Qed.

Lemma front_date_kept_witness :
  exists kw,
    sample_front = VDict kw /\
    JekyllFront.date
      (JekyllDoc.front
         (JekyllDoc.mk
            (JekyllFront.mk (VStr (lit "Hello")) (VStr (lit "2020-01-01")) VNone VNone
               VNone [])
            (lit "body")))
    = JekyllFront.arg (lit "date") kw /\
    JekyllDoc.content
      (JekyllDoc.mk
            (JekyllFront.mk (VStr (lit "Hello")) (VStr (lit "2020-01-01")) VNone VNone
               VNone [])
         (lit "body")) = lit "body".
Proof.
  apply (@front_date_kept sample_front (lit "body") (lit "posts/hello.md")).
  - apply (re_search_date_spec (lit "posts/hello.md")).
  - reflexivity.
Defined.

(** X3. The date is searched in the whole path, directories included:
    when the directory of the input file has a substring of the shape
    YYYY-MM-DD, the first one there is the date of the document,
    whatever the file is called and whatever its front matter says. *)
Theorem directory_date_first (dir : path) (name : str) (front : value)
    (content : str) (doc : JekyllDoc.t) (m : str) :
  dir <> [] ->
  first_date_in (path_str dir) m ->
  JekyllDoc.init front content (path_str (dir ++ [name])) = Ok doc ->
  JekyllFront.date (JekyllDoc.front doc) = VStr m.
Proof.
  intros Hd Hf Hdoc. apply (init_date _ _ _ Hdoc).
  rewrite (path_str_snoc name Hd).
  apply re_search_date_app. now apply re_search_first_date.
Qed.

Lemma directory_date_first_witness :
  JekyllFront.date
    (JekyllDoc.front
       (JekyllDoc.mk
          (JekyllFront.mk (VStr (lit "Hello")) (VStr (lit "2019-12-31")) VNone VNone
             VNone [])
          (lit "body")))
  = VStr (lit "2019-12-31").
Proof.
  apply (@directory_date_first [lit "archive-2019-12-31"] (lit "2023-05-01-hello.md")
           sample_front (lit "body")).
  - discriminate.
  - exact (re_search_date_spec (lit "archive-2019-12-31")).
  - reflexivity.
Defined.

(** ** The calendar date of the output *)

Lemma strptime_raises (s : str) (e : exn) : strptime s = Raise e -> e = ValueError.
Proof.
  unfold strptime. destruct (re_match strptime_re s) as [[n g]|]; [|congruence].
  destruct (negb (n =? length s)); [congruence|].
  destruct (valid_date _ _ _); congruence.
Qed.

Lemma strptime_valid (s : str) (d : date) : strptime s = Ok d -> valid d = true.
Proof.
  unfold strptime. destruct (re_match strptime_re s) as [[n g]|]; [|discriminate].
  destruct (negb (n =? length s)); [discriminate|].
  destruct (valid_date _ _ _) eqn:Hv; [|discriminate].
  intros E. injection E as <-. exact Hv.
Qed.

Lemma forall_range (P : Z -> bool) (n : Z) :
  forallb (fun i => P (Z.of_nat i)) (seq 0 (Z.to_nat n)) = true ->
  forall z, (0 <= z < n)%Z -> P z = true.
Proof.
  intros H z Hz. rewrite forallb_forall in H.
  rewrite <- (Z2Nat.id z) by lia. apply H. apply in_seq. lia.
Qed.

Lemma zpad2_digits (z : Z) :
  exists a b, zpad 2 z = [a; b] /\ isdigit a = true /\ isdigit b = true.
Proof.
  do 2 eexists. split; [reflexivity|]. split; apply isdigit_digit_char.
Qed.

Lemma zpad4_digits (z : Z) :
  exists a b c d,
    zpad 4 z = [a; b; c; d] /\ isdigit a = true /\ isdigit b = true
    /\ isdigit c = true /\ isdigit d = true.
Proof.
  do 4 eexists. split; [reflexivity|]. repeat split; apply isdigit_digit_char.
Qed.

Lemma py_int_zpad4 (y : Z) : (0 <= y <= 9999)%Z -> py_int (zpad 4 y) = y.
Proof.
  intros Hy. apply Z.eqb_eq.
  apply (@forall_range (fun z => (py_int (zpad 4 z) =? z)%Z) 10000%Z);
    [vm_compute; reflexivity | lia].
Qed.

Lemma month_zpad (m : Z) (a b : ascii) :
  (1 <= m <= 12)%Z -> zpad 2 m = [a; b] ->
  month2_ok a b = true /\ py_int [a; b] = m.
Proof.
  intros Hb E. cbn [zpad app] in E. injection E as <- <-.
  assert (H : (month2_ok (digit_char (m / 10 mod 10)) (digit_char (m mod 10))
               && (py_int [digit_char (m / 10 mod 10); digit_char (m mod 10)] =? m)%Z
               || (m =? 0)%Z) = true).
  { apply (@forall_range
             (fun z => month2_ok (digit_char (z / 10 mod 10)) (digit_char (z mod 10))
                       && (py_int [digit_char (z / 10 mod 10); digit_char (z mod 10)] =? z)%Z
                       || (z =? 0)%Z) 13%Z);
      [vm_compute; reflexivity | lia]. }
  apply orb_true_iff in H as [H|H]; [|apply Z.eqb_eq in H; lia].
  apply andb_true_iff in H as [H1 H2]. apply Z.eqb_eq in H2.
  split; [exact H1 | exact H2].
Qed.

Lemma day_zpad (d : Z) (a b : ascii) :
  (1 <= d <= 31)%Z -> zpad 2 d = [a; b] ->
  day2_ok a b = true /\ py_int [a; b] = d.
Proof.
  intros Hb E. cbn [zpad app] in E. injection E as <- <-.
  assert (H : (day2_ok (digit_char (d / 10 mod 10)) (digit_char (d mod 10))
               && (py_int [digit_char (d / 10 mod 10); digit_char (d mod 10)] =? d)%Z
               || (d =? 0)%Z) = true).
  { apply (@forall_range
             (fun z => day2_ok (digit_char (z / 10 mod 10)) (digit_char (z mod 10))
                       && (py_int [digit_char (z / 10 mod 10); digit_char (z mod 10)] =? z)%Z
                       || (z =? 0)%Z) 32%Z);
      [vm_compute; reflexivity | lia]. }
  apply orb_true_iff in H as [H|H]; [|apply Z.eqb_eq in H; lia].
  apply andb_true_iff in H as [H1 H2]. apply Z.eqb_eq in H2.
  split; [exact H1 | exact H2].
Qed.

Lemma days_in_month_le (y m : Z) : (days_in_month y m <= 31)%Z.
Proof.
  unfold days_in_month.
  destruct (m =? 2)%Z; [destruct (is_leap y); lia|].
  destruct (_ || _); lia.
Qed.

(** The ISO string of a calendar date parses back to that date. *)
Lemma strptime_isoformat (d : date) : valid d = true -> strptime (isoformat d) = Ok d.
Proof.
  destruct d as [y m dd]. unfold valid. cbn [year month day]. intros Hv.
  pose proof Hv as Hb. unfold valid_date in Hb.
  do 5 (apply andb_true_iff in Hb as [Hb ?]).
  pose proof (days_in_month_le y m) as Hdm.
  assert (By : (0 <= y <= 9999)%Z) by lia.
  assert (Bm : (1 <= m <= 12)%Z) by lia.
  assert (Bd : (1 <= dd <= 31)%Z) by lia.
  destruct (zpad4_digits y) as (y1 & y2 & y3 & y4 & Ey & Y1 & Y2 & Y3 & Y4).
  destruct (zpad2_digits m) as (m1 & m2 & Em & M1 & M2).
  destruct (zpad2_digits dd) as (d1 & d2 & Ed & D1 & D2).
  pose proof (py_int_zpad4 By) as Py. rewrite Ey in Py.
  destruct (month_zpad Bm Em) as [Mok Pm].
  destruct (day_zpad Bd Ed) as [Dok Pd].
  unfold isoformat. cbn [year month day]. rewrite Ey, Em, Ed.
  cbn [app lit list_ascii_of_string].
  unfold strptime, re_match. rewrite strptime_re_parts.
  cbn [rmatch]. rewrite year_match by assumption.
  cbn [is_char Ascii.eqb Bool.eqb]. cbv beta.
  rewrite month_match; try assumption;
    [|intros c s g' Hc; now rewrite (isdigit_not_hyphen _ Hc)].
  rewrite Mok. rewrite day_match by assumption. rewrite Dok.
  change (is_char "-" "-") with true. cbv iota.
  change (consumed [y1; y2; y3; y4; "-"%char; m1; m2; "-"%char; d1; d2] [])
    with 10.
  cbn [Nat.eqb negb group length]. rewrite Py, Pm, Pd, Hv. reflexivity.
Qed.

Lemma to_zola_front_date_some (jf : JekyllFront.t) (zf : ZolaFront.t) (d : date) :
  JekyllFront.to_zola_front jf = Ok zf ->
  ZolaFront.date zf = Some d ->
  exists s,
    JekyllFront.date jf = VStr s /\ s <> [] /\ strptime s = Ok d /\ valid d = true.
Proof.
  unfold JekyllFront.to_zola_front.
  destruct (truthy (JekyllFront.date jf)) eqn:Ht.
  - destruct (JekyllFront.date jf) as [|b|z|s|y m dd|l|kw]; try discriminate.
    destruct (strptime s) as [d'|e] eqn:Hs; [|discriminate].
    cbn [rbind]. intros [= <-]. cbn [ZolaFront.date]. intros [= ->].
    exists s. repeat split; [|exact Hs | exact (strptime_valid _ Hs)].
    intros ->. discriminate Ht.
  - cbn [rbind]. intros [= <-]. discriminate.
Qed.

(** X4. The Field Mapper can fail only on the date. It raises
    [TypeError] exactly when the date is truthy and not a string (a
    date object of the decoder, a number, a list), and [ValueError]
    exactly when it is a string that [strptime] does not read as a
    calendar date. With a falsy date the result carries no date; with a
    date it carries the calendar date [strptime] read. *)
Theorem to_zola_front_outcome (jf : JekyllFront.t) :
  match JekyllFront.to_zola_front jf with
  | Ok zf =>
      match ZolaFront.date zf with
      | None => truthy (JekyllFront.date jf) = false
      | Some d =>
          exists s,
            JekyllFront.date jf = VStr s /\ s <> [] /\
            strptime s = Ok d /\ valid d = true
      end
  | Raise e =>
      truthy (JekyllFront.date jf) = true /\
      ((e = TypeError /\ forall s, JekyllFront.date jf <> VStr s) \/
       (e = ValueError /\
        exists s, JekyllFront.date jf = VStr s /\ strptime s = Raise ValueError))
  end.
Proof.
  unfold JekyllFront.to_zola_front.
  destruct (truthy (JekyllFront.date jf)) eqn:Ht; [|reflexivity].
  destruct (JekyllFront.date jf) as [|b|z|s|y m d|l|kw] eqn:Hd;
    try (cbn [rbind]; split; [reflexivity|]; left; split;
         [reflexivity | intros s; discriminate]).
  destruct (strptime s) as [d|e] eqn:Hs; cbn [rbind ZolaFront.date].
  - exists s. repeat split; [|exact Hs | exact (strptime_valid _ Hs)].
    intros ->. discriminate Ht.
  - pose proof (strptime_raises _ Hs) as ->.
    split; [reflexivity|]. right. split; [reflexivity|]. now exists s.
Qed.

(** X5. The date of the output is a fixed point of the conversion: its
    ISO string YYYY-MM-DD parses back to the same calendar date, so
    mapping the front matter again with that string as its date gives
    the same result. *)
Theorem output_date_round_trip (jf : JekyllFront.t) (zf : ZolaFront.t) (d : date) :
  JekyllFront.to_zola_front jf = Ok zf ->
  ZolaFront.date zf = Some d ->
  strptime (isoformat d) = Ok d /\
  JekyllFront.to_zola_front (JekyllDoc.set_date jf (VStr (isoformat d))) = Ok zf.
Proof.
  intros Hz Hd.
  destruct (to_zola_front_date_some _ Hz Hd) as (s & Hs & Hne & Hp & Hv).
  pose proof (strptime_isoformat d Hv) as Hr. split; [exact Hr|].
  unfold JekyllFront.to_zola_front in *.
  cbn [JekyllDoc.set_date JekyllFront.date JekyllFront.title JekyllFront.subtitle
       JekyllFront.author JekyllFront.extra].
  rewrite Hs in Hz. destruct s as [|c s]; [congruence|].
  cbn [truthy] in Hz. rewrite Hp in Hz. cbn [rbind] in Hz.
  assert (Ht : truthy (VStr (isoformat d)) = true) by reflexivity.
  rewrite Ht, Hr. cbn [rbind]. rewrite <- Hz. reflexivity.
Qed.

Lemma output_date_round_trip_witness :
  strptime (isoformat (mkdate 2023 5 1)) = Ok (mkdate 2023 5 1) /\
  JekyllFront.to_zola_front
    (JekyllDoc.set_date
       (JekyllFront.mk (VStr (lit "Hello")) (VStr (lit "2023-5-1")) VNone VNone VNone [])
       (VStr (isoformat (mkdate 2023 5 1))))
  = Ok (ZolaFront.mk (VStr (lit "Hello")) (Some (mkdate 2023 5 1)) VNone VNone [] []).
Proof.
  apply (@output_date_round_trip
           (JekyllFront.mk (VStr (lit "Hello")) (VStr (lit "2023-5-1")) VNone VNone
              VNone [])); reflexivity.
Defined.

(** X6. A substring of the shape YYYY-MM-DD in the path is taken as the
    date even when it is no calendar date: the conversion of such a
    document raises [ValueError], whatever date its front matter
    gives. *)
Theorem path_date_not_calendar (front : value) (content path : str)
    (doc : JekyllDoc.t) (m : str) (e : exn) :
  first_date_in path m ->
  strptime m = Raise e ->
  JekyllDoc.init front content path = Ok doc ->
  JekyllFront.to_zola_front (JekyllDoc.front doc) = Raise ValueError.
Proof.
  intros Hf Hs Hdoc.
  pose proof (init_date _ _ _ Hdoc (re_search_first_date Hf)) as Hd.
  unfold JekyllFront.to_zola_front. rewrite Hd.
  destruct Hf as (pre & post & _ & Hm & _).
  destruct m as [|c m]; [discriminate|]. cbn [truthy].
  rewrite Hs, (strptime_raises _ Hs). reflexivity.
Qed.

Lemma path_date_not_calendar_witness :
  JekyllFront.to_zola_front
    (JekyllDoc.front
       (JekyllDoc.mk
          (JekyllFront.mk (VStr (lit "Hello")) (VStr (lit "2023-02-30")) VNone VNone
             VNone [])
          (lit "body")))
  = Raise ValueError.
Proof.
  apply (@path_date_not_calendar sample_front (lit "body")
           (lit "posts/2023-02-30-hello.md") _ (lit "2023-02-30") ValueError).
  - exact (re_search_date_spec (lit "posts/2023-02-30-hello.md")).
  - reflexivity.
  - reflexivity.
Defined.

(** ** The construction of [JekyllFront] *)

Lemma call_subtitle (front : value) (f : JekyllFront.t) :
  JekyllFront.call front = Ok f ->
  exists kw, front = VDict kw /\
             dict_get (lit "title") kw = Some (JekyllFront.title f) /\
             JekyllFront.subtitle f = JekyllFront.arg (lit "subtitle") kw.
Proof.
  intros H. destruct (call_mapping front) as [[kw ->] | [E _]]; [|congruence].
  rewrite call_VDict in H. unfold JekyllFront.call_kw in H.
  exists kw. split; [reflexivity|].
  destruct (dict_mem (lit "self") kw); [discriminate|].
  destruct (dict_get (lit "title") kw) as [t|]; [|discriminate].
  unfold JekyllFront.init in H.
  destruct (dict_mem (lit "layout") _); [|discriminate].
  now injection H as <-.
Qed.

(** X7. What the call [JekyllFront] on the decoded front matter gives. It
    succeeds exactly on a mapping whose keys are all strings, with the
    keys [title] and [layout] and without the key [self]; the optional
    fields [date], [subtitle], [author] and [tags] are then the values
    of their keys, [None] for a missing one. It raises [TypeError] on a
    value that is no mapping, on a mapping with a key that is no string
    (a number, a boolean, [None], a date), on the key [self] and on a
    missing [title], and [KeyError] only for a missing [layout] when
    the keys are strings and [title] is there. *)
Theorem call_outcome (front : value) :
  match JekyllFront.call front with
  | Ok f =>
      exists kw,
        front = VDict kw /\ dict_mem (lit "self") kw = false /\
        dict_get (lit "title") kw = Some (JekyllFront.title f) /\
        dict_mem (lit "layout") kw = true /\
        JekyllFront.date f = JekyllFront.arg (lit "date") kw /\
        JekyllFront.subtitle f = JekyllFront.arg (lit "subtitle") kw /\
        JekyllFront.author f = JekyllFront.arg (lit "author") kw /\
        JekyllFront.tags f = JekyllFront.arg (lit "tags") kw
  | Raise e =>
      (e = TypeError /\
       ((forall m, front <> VMap m) \/
        (exists m, front = VMap m /\ str_keys m = None) \/
        exists kw, front = VDict kw /\
                   (dict_mem (lit "self") kw = true \/
                    dict_mem (lit "title") kw = false)))
      \/
      (e = KeyError /\
       exists kw, front = VDict kw /\ dict_mem (lit "self") kw = false /\
                  dict_mem (lit "title") kw = true /\
                  dict_mem (lit "layout") kw = false)
  end.
Proof.
  destruct front as [| | | | | |m];
    try (left; split; [reflexivity|]; left; intros m0; discriminate).
  destruct (str_keys m) as [kw|] eqn:Hk.
  2:{ cbn [JekyllFront.call]. rewrite Hk. left. split; [reflexivity|].
      right. left. now exists m. }
  rewrite (str_keys_Some _ Hk). rewrite call_VDict. unfold JekyllFront.call_kw.
  destruct (dict_mem (lit "self") kw) eqn:Hs.
  { left. split; [reflexivity|]. right. right. exists kw.
    split; [reflexivity|]. now left. }
  destruct (dict_get (lit "title") kw) as [t|] eqn:Ht.
  2:{ left. split; [reflexivity|]. right. right. exists kw.
      split; [reflexivity|]. right. unfold dict_mem. now rewrite Ht. }
  unfold JekyllFront.init.
  rewrite (dict_mem_filter (fun k => negb (JekyllFront.is_named k)))
    by reflexivity.
  destruct (dict_mem (lit "layout") kw) eqn:Hl.
  - exists kw. now repeat split.
  - right. split; [reflexivity|]. exists kw. repeat split; try assumption.
    unfold dict_mem. now rewrite Ht.
Qed.

Lemma keys_filter (P : str -> bool) (d : dict) :
  keys (filter (fun kv => P (fst kv)) d) = filter P (keys d).
Proof.
  unfold keys. induction d as [|[k v] d IH]; [reflexivity|].
  cbn [filter map fst]. destruct (P k); cbn [map fst]; now rewrite IH.
Qed.

Lemma dict_mem_In (k : str) (d : dict) : dict_mem k d = true <-> In k (keys d).
Proof.
  unfold dict_mem, keys. induction d as [|[k' v] d IH]; cbn [dict_get map fst In].
  - split; [discriminate | contradiction].
  - destruct (str_eqb k' k) eqn:E.
    + apply str_eqb_eq in E. split; [now left | reflexivity].
    + split.
      * intros H. right. now apply IH.
      * intros [H|H]; [|now apply IH].
        subst k'. now rewrite str_eqb_refl in E.
Qed.

Lemma keys_dict_set (k : str) (v : value) (d : dict) :
  keys (dict_set k v d) = if dict_mem k d then keys d else keys d ++ [k].
Proof.
  unfold dict_mem, keys. induction d as [|[k' v'] d IH]; [reflexivity|].
  cbn [dict_set dict_get]. destruct (str_eqb k' k) eqn:E.
  - apply str_eqb_eq in E. now subst k'.
  - cbn [map fst app]. rewrite IH. now destruct (dict_get k d).
Qed.

Lemma NoDup_dict_set (k : str) (v : value) (d : dict) :
  NoDup (keys d) -> NoDup (keys (dict_set k v d)).
Proof.
  intros Hn. rewrite keys_dict_set. destruct (dict_mem k d) eqn:Hm; [exact Hn|].
  apply NoDup_app; [exact Hn | repeat constructor; intros [] |].
  intros x Hx [<-|[]]. apply dict_mem_In in Hx. congruence.
Qed.

(** X8. The table [extra] never has the keys [layout] and [header-img]
    nor a key of a named field, and it has no key twice when the
    decoded mapping has none twice: moving [header-img] to [cover]
    replaces an existing [cover] instead of adding a second one. *)
Theorem extra_keys (kw : dict) (f : JekyllFront.t) :
  JekyllFront.call (VDict kw) = Ok f ->
  (forall k, In k (keys (JekyllFront.extra f)) ->
             JekyllFront.is_named k = false /\ k <> lit "layout" /\
             k <> lit "header-img" /\
             (In k (keys kw) \/ (k = lit "cover" /\ In (lit "header-img") (keys kw))))
  /\ (NoDup (keys kw) -> NoDup (keys (JekyllFront.extra f))).
Proof.
  rewrite call_VDict. unfold JekyllFront.call_kw.
  destruct (dict_mem (lit "self") kw); [discriminate|].
  destruct (dict_get (lit "title") kw) as [t|]; [|discriminate].
  unfold JekyllFront.init. cbv zeta.
  set (e0 := filter (fun kv => negb (JekyllFront.is_named (fst kv))) kw).
  set (e1 := dict_remove (lit "layout") e0).
  destruct (dict_mem (lit "layout") e0); [|discriminate].
  intros E.
  assert (E' : JekyllFront.extra f =
               match dict_get (lit "header-img") e1 with
               | Some v => dict_set (lit "cover") v (dict_remove (lit "header-img") e1)
               | None => e1
               end) by (injection E as <-; reflexivity).
  rewrite E'. clear E E' f.
  assert (K1 : keys e1 =
               filter (fun k => negb (str_eqb k (lit "layout")))
                 (filter (fun k => negb (JekyllFront.is_named k)) (keys kw))).
  { unfold e1, e0, dict_remove.
    rewrite (keys_filter (fun k => negb (str_eqb k (lit "layout")))).
    now rewrite (keys_filter (fun k => negb (JekyllFront.is_named k))). }
  assert (In1 : forall k, In k (keys e1) ->
                  JekyllFront.is_named k = false /\ k <> lit "layout" /\ In k (keys kw)).
  { intros k. rewrite K1, !filter_In. intros [[Hk Hn] Hl].
    apply negb_true_iff in Hn, Hl. repeat split; try assumption.
    intros ->. discriminate Hl. }
  assert (N1 : NoDup (keys kw) -> NoDup (keys e1)).
  { intros Hn. rewrite K1. now do 2 apply NoDup_filter. }
  destruct (dict_get (lit "header-img") e1) as [v|] eqn:Hh; cbv iota.
  - set (e2 := dict_remove (lit "header-img") e1).
    assert (K2 : keys e2 =
                 filter (fun k => negb (str_eqb k (lit "header-img"))) (keys e1)).
    { unfold e2, dict_remove.
      now rewrite (keys_filter (fun k => negb (str_eqb k (lit "header-img")))). }
    assert (Hin : In (lit "header-img") (keys kw)).
    { apply In1. apply dict_mem_In. unfold dict_mem. now rewrite Hh. }
    split.
    + intros k. rewrite keys_dict_set.
      assert (In2 : In k (keys e2) ->
                JekyllFront.is_named k = false /\ k <> lit "layout" /\
                k <> lit "header-img" /\
                (In k (keys kw) \/ k = lit "cover" /\ In (lit "header-img") (keys kw))).
      { rewrite K2, filter_In. intros [Hk Hn]. apply negb_true_iff in Hn.
        destruct (In1 _ Hk) as (A & B & C). repeat split; try assumption.
        - intros ->. discriminate Hn.
        - now left. }
      destruct (dict_mem (lit "cover") e2); [exact In2|].
      rewrite in_app_iff. intros [Hk|[<-|[]]]; [now apply In2|].
      repeat split; try discriminate. now right.
    + intros Hn. apply NoDup_dict_set. rewrite K2. apply NoDup_filter. now apply N1.
  - split; [|exact N1].
    intros k Hk. destruct (In1 _ Hk) as (A & B & C). repeat split; try assumption.
    + intros ->. apply dict_mem_In in Hk. unfold dict_mem in Hk.
      rewrite Hh in Hk. discriminate.
    + now left.
Qed.

Lemma extra_keys_witness :
  NoDup (keys [(lit "cover", VStr (lit "b.png"))]).
Proof.
  apply (@extra_keys
           [ (lit "title", VStr (lit "Hello")); (lit "layout", VStr (lit "post"));
             (lit "cover", VStr (lit "a.png")); (lit "header-img", VStr (lit "b.png")) ]
           (JekyllFront.mk (VStr (lit "Hello")) VNone VNone VNone VNone
              [(lit "cover", VStr (lit "b.png"))])
           eq_refl).
  repeat constructor; not_in.
Defined.

(** ** What a run does to the file system and to the error stream *)

(** A write makes no directory. *)
Lemma write_makes_no_dir (p : path) (text : str) :
  forall q n n' es',
    write_node p text n = Some n' ->
    lookup q n' = Some (Dir es') ->
    exists es, lookup q n = Some (Dir es).
Proof.
  induction p as [|name rest IH]; intros q n n' es0; simpl.
  - destruct n as [t|es]; [|discriminate]. intros [= <-] Hq.
    destruct q; discriminate.
  - destruct n as [t|es]; [discriminate|].
    destruct (update_entry name _ _ es) as [es'|] eqn:Hu; [|discriminate].
    intros [= <-] Hq. destruct q as [|x q]; [now exists es|].
    simpl in *.
    destruct (list_eq_dec ascii_dec x name) as [->|Hne].
    + destruct (find_update_same _ _ _ _ Hu) as (c' & Hf & Hc).
      rewrite Hf in Hq.
      destruct (find_entry name es) as [c|].
      * now apply (IH q c c' es0).
      * destruct rest; [|discriminate]. injection Hc as <-.
        destruct q; discriminate.
    + rewrite (find_update_other _ _ _ Hne Hu) in Hq. now exists es0.
Qed.

Lemma is_prefix_snoc (q a : path) (x : str) :
  is_prefix q (a ++ [x]) -> is_prefix q a \/ q = a ++ [x].
Proof.
  intros [r E]. destruct r as [|y r _] using rev_ind.
  - right. now rewrite app_nil_r in E.
  - left. rewrite app_assoc in E. apply app_inj_tail in E as [E _].
    now exists r.
Qed.

Lemma walk_list_prefix (root : node) :
  forall fuel top p, In p (walk_list fuel top root) -> is_prefix top p.
Proof.
  induction fuel as [|fuel IH]; intros top p; cbn [walk_list]; [contradiction|].
  destruct (lookup top root) as [[t|es]|]; try contradiction.
  intros Hin. apply in_app_or in Hin as [Hin|Hin].
  - apply in_map_iff in Hin as (f & <- & _). now exists [f].
  - apply in_flat_map in Hin as (d & _ & Hin). apply IH in Hin as [r ->].
    exists ([d] ++ r). now rewrite app_assoc.
Qed.

Section Effects.
Context {L : Libs}.
Variable out : path.

Lemma for_each_preserves (R : World -> World -> Prop) :
  (forall w, R w w) ->
  (forall a b c, R a b -> R b c -> R a c) ->
  (forall p w r w', convert_file p out w = (r, w') -> R w w') ->
  forall ps w r w',
    for_each ps (fun p => convert_file p out) w = (r, w') -> R w w'.
Proof.
  intros Hrefl Htrans Hstep.
  induction ps as [|p ps IH]; intros w r w'; cbn [for_each].
  - unfold ret. intros [= _ <-]. apply Hrefl.
  - unfold bind. destruct (convert_file p out w) as [[[]|e] w1] eqn:Hc.
    + intros H. eapply Htrans; [exact (Hstep _ _ _ _ Hc) | exact (IH _ _ _ H)].
    + intros [= _ <-]. exact (Hstep _ _ _ _ Hc).
Qed.

(** A run is a sequence of conversions, or the one diagnostic of a
    missing input. *)
Lemma main_cases (inpath : path) (w : World) :
  (exists ps, main inpath out w = for_each ps (fun p => convert_file p out) w)
  \/ main inpath out w = (Ok tt, with_err w no_input_msg).
Proof.
  unfold main, bind, isfile, isdir.
  destruct (lookup inpath (fs w)) as [[t|es]|] eqn:Hl;
    cbv beta iota; rewrite ?Hl; cbv beta iota.
  - left. exists [inpath]. cbn [for_each]. unfold bind, ret.
    now destruct (convert_file inpath out w) as [[[]|e] w1].
  - left. destruct (@walk_any _ out w (height (fs w)) inpath w) as (ps & E & _).
    + intros q t Hq. now exists t.
    + exists ps. exact E.
  - right. reflexivity.
Qed.

Lemma main_preserves (R : World -> World -> Prop) :
  (forall w, R w w) ->
  (forall a b c, R a b -> R b c -> R a c) ->
  (forall p w r w', convert_file p out w = (r, w') -> R w w') ->
  (forall w, R w (with_err w no_input_msg)) ->
  forall inpath w r w', main inpath out w = (r, w') -> R w w'.
Proof.
  intros Hrefl Htrans Hstep Herr inpath w r w' Hm.
  destruct (main_cases inpath w) as [[ps E] | E]; rewrite E in Hm.
  - exact (@for_each_preserves R Hrefl Htrans Hstep ps w r w' Hm).
  - injection Hm as _ <-. apply Herr.
Qed.

End Effects.



Lemma dest_cases (w : World) (p out : path) :
  dest w p out = out \/
  (is_dir out w = true /\ dest w p out = out ++ [path_name p]).
Proof.
  unfold dest, is_dir. destruct (lookup out (fs w)) as [[t|es]|]; auto.
Qed.

(** X10. Whatever its input and output paths and however it ends, a run
    removes nothing and makes no directory: every file is still a file
    afterwards, the directories are the same, and apart from the output
    path, its entries and the directories above it, every path holds
    what it held. *)
Theorem main_footprint `{Libs} (inpath out : path) (w w' : World)
    (r : result unit) :
  main inpath out w = (r, w') ->
  keeps_files w w' /\ same_dirs w w' /\ same_outside out w w'.
Proof.
  apply (@main_preserves _ out
           (fun a b => keeps_files a b /\ same_dirs a b /\ same_outside out a b)).
  - intros a. split; [|split].
    + intros q t Hq. now exists t.
    + intros q. reflexivity.
    + intros q _ _. reflexivity.
  - intros a b c (K1 & D1 & O1) (K2 & D2 & O2). split; [|split].
    + intros q t Hq. destruct (K1 _ _ Hq) as [t1 H1]. exact (K2 _ _ H1).
    + intros q. rewrite (D1 q). apply D2.
    + intros q Hq Hn. rewrite (O2 q Hq Hn). apply O1; assumption.
  - intros p a r0 b Hc.
    assert (Hw : fs b = fs a \/
                 exists s, write_node (dest a p out) s (fs a) = Some (fs b)).
    { destruct (@convert_file_effect _ p out a b r0 Hc)
        as [(e & _ & ->) | [(_ & ->) | [(_ & _ & s & Hw)
                                       | (e & zf & _ & _ & _ & Hw)]]];
        [now left | now left | right; now exists s | right; now exists []]. }
    destruct Hw as [E | [s Hw]].
    + unfold keeps_files, same_dirs, same_outside. rewrite E. split; [|split].
      * intros q t Hq. now exists t.
      * intros q. reflexivity.
      * intros q _ _. reflexivity.
    + split; [|split].
      * intros q t Hq. eapply write_keeps_files; eassumption.
      * intros q. split.
        -- intros [es Hq]. eapply write_keeps_dirs; eassumption.
        -- intros [es Hq]. eapply write_makes_no_dir; eassumption.
      * intros q Hq Hn. eapply lookup_write_frame; [exact Hw|].
        destruct (dest_cases a p out) as [-> | [_ ->]]; [exact Hq|].
        intros Hp. apply is_prefix_snoc in Hp as [Hp | Hp];
          [now apply Hq | now apply (Hn (path_name p))].
  - intros a. split; [|split].
    + intros q t Hq. now exists t.
    + intros q. reflexivity.
    + intros q _ _. reflexivity.
Qed.

Lemma main_footprint_witness :
  exists r w',
    @main sample_libs [lit "posts"] [lit "out"] sample_world = (r, w') /\
    keeps_files sample_world w' /\ same_dirs sample_world w' /\
    same_outside [lit "out"] sample_world w'.
Proof.
  do 2 eexists. split; [vm_compute; reflexivity|].
  exact (@main_footprint sample_libs [lit "posts"] [lit "out"] sample_world _ _
           eq_refl).
Defined.

(** What one conversion prints: its diagnostic when it skips the
    document, and nothing otherwise. A conversion that skips does not
    raise. *)
Lemma convert_prints `{Libs} (p out : path) (a a' : World) (r : result unit) :
  convert_file p out a = (r, a') ->
  stderr a' = stderr a ++ (if skips a p then [parse_error_msg] else []) /\
  (skips a p = true -> r = Ok tt).
Proof.
  unfold skips.
  destruct (lookup p (fs a)) as [[text|es]|] eqn:Hp.
  2,3: rewrite convert_file_unreadable by (intros t; rewrite Hp; discriminate);
       intros [= <- <-]; rewrite app_nil_r; now split.
  rewrite (@convert_file_spec _ p out a text Hp).
  destruct (decoded p text) as [v|e];
    [|intros [= <- <-]; rewrite app_nil_r; now split].
  destruct (truthy v); cbn [negb]; [|intros [= <- <-]; now split].
  destruct (JekyllDoc.init _ _ _) as [doc|e];
    [|intros [= <- <-]; rewrite app_nil_r; now split].
  destruct (JekyllFront.to_zola_front _) as [zf|e];
    [|intros [= <- <-]; rewrite app_nil_r; now split].
  unfold write_file.
  destruct (ZolaDoc.to_string _) as [s|e];
    match goal with |- context [write_node ?D ?S (fs a)] =>
      destruct (write_node D S (fs a)) as [fs1|]
    end;
    intros [= <- <-]; cbn [stderr]; rewrite app_nil_r; now split.
Qed.

(** A sequence of conversions of files below the input directory, to a
    place that is not above it, prints one diagnostic for each document
    it skips, as the file system at the start has them, up to the
    conversion that raises, if one does. *)
Lemma for_each_prints `{Libs} (inpath out : path) (w0 : World)
    (es0 : list (str * node)) :
  lookup inpath (fs w0) = Some (Dir es0) ->
  ~ is_prefix inpath out ->
  forall ps a r b,
    (forall p, In p ps -> is_prefix inpath p) ->
    same_under inpath w0 a ->
    for_each ps (fun p => convert_file p out) a = (r, b) ->
    exists done rest,
      ps = done ++ rest /\
      stderr b =
        stderr a ++ repeat parse_error_msg (length (filter (skips w0) done)) /\
      (r = Ok tt -> rest = []) /\
      (forall e, r = Raise e ->
         exists d p, done = d ++ [p] /\ skips w0 p = false).
Proof.
  intros Hin Hsep.
  induction ps as [|p ps IH]; intros a r b Hps Hinv; cbn [for_each].
  - unfold ret. intros [= <- <-]. exists [], [].
    cbn [filter length repeat app]. rewrite app_nil_r.
    repeat split. intros e He. discriminate He.
  - assert (Hsk : skips a p = skips w0 p).
    { unfold skips. rewrite (Hinv p (Hps p (or_introl eq_refl))). reflexivity. }
    unfold bind. destruct (convert_file p out a) as [r1 a1] eqn:Hc.
    destruct (@convert_prints _ p out a a1 r1 Hc) as [He Hok].
    rewrite Hsk in He, Hok.
    destruct r1 as [[]|e].
    + intros Hrun.
      destruct (IH a1 r b) as (done & rest & -> & Hb & Hrest & Hraise).
      * intros q Hq. apply Hps. now right.
      * eapply convert_file_same_under; eassumption.
      * exact Hrun.
      * exists (p :: done), rest. split; [reflexivity|]. split; [|split].
        -- rewrite Hb, He. cbn [filter].
           destruct (skips w0 p); cbn [length repeat app];
             now rewrite <- app_assoc.
        -- exact Hrest.
        -- intros e Hr. destruct (Hraise e Hr) as (d & q & -> & Hq).
           now exists (p :: d), q.
    + intros [= <- <-]. exists [p], ps. split; [reflexivity|].
      assert (Hf : skips w0 p = false).
      { destruct (skips w0 p); [|reflexivity]. now discriminate Hok. }
      split; [|split].
      * rewrite He. cbn [filter]. now rewrite Hf.
      * intros Hr. discriminate Hr.
      * intros e' _. now exists [], p.
Qed.

(** X11. What a run prints. With an input path that is neither a file
    nor a directory it prints the one line that no input was provided,
    returns normally and leaves the file system alone. With a file it
    prints the line of [convert_file] when that document is skipped, and
    nothing otherwise. With a directory all it prints are such lines;
    and when the output path is not the directory or a place below it,
    it prints that line exactly once for each skipped document among
    those the walk lists, all of them when the run returns normally, and
    those up to the document on which it raises otherwise. *)
Theorem main_prints `{Libs} (inpath out : path) (w w' : World) (r : result unit) :
  main inpath out w = (r, w') ->
  match lookup inpath (fs w) with
  | None => r = Ok tt /\ w' = with_err w no_input_msg
  | Some (File _) =>
      stderr w' = stderr w ++ (if skips w inpath then [parse_error_msg] else [])
  | Some (Dir _) =>
      only_diagnostics w w' /\
      (~ is_prefix inpath out ->
       exists done rest,
         walk_list (height (fs w)) inpath (fs w) = done ++ rest /\
         stderr w' =
           stderr w ++ repeat parse_error_msg (length (filter (skips w) done)) /\
         (r = Ok tt -> rest = []) /\
         (forall e, r = Raise e ->
            exists d p, done = d ++ [p] /\ skips w p = false))
  end.
Proof.
  intros Hm.
  assert (Hfe : forall ps a r0 b,
            for_each ps (fun p => convert_file p out) a = (r0, b) ->
            only_diagnostics a b).
  { apply (@for_each_preserves _ out only_diagnostics).
    - intros a. exists 0. cbn [repeat]. now rewrite app_nil_r.
    - intros a b c [k1 E1] [k2 E2]. exists (k1 + k2).
      now rewrite E2, E1, repeat_app, app_assoc.
    - intros p a r0 b Hc.
      destruct (@convert_prints _ p out a b r0 Hc) as [He _].
      destruct (skips a p); [now exists 1 | now exists 0]. }
  revert Hm. unfold main, bind, isfile, isdir.
  destruct (lookup inpath (fs w)) as [[t|es]|] eqn:Hl;
    cbv beta iota; rewrite ?Hl; cbv beta iota.
  - intros Hc. exact (proj1 (@convert_prints _ inpath out w w' r Hc)).
  - intros Hw. split.
    + destruct (@walk_any _ out w (height (fs w)) inpath w) as (ps & E & _).
      * intros q t Hq. now exists t.
      * rewrite E in Hw. exact (Hfe _ _ _ _ Hw).
    + intros Hsep.
      rewrite (@walk_static _ inpath out w es Hl Hsep (height (fs w)) inpath w)
        in Hw.
      * apply (@for_each_prints _ inpath out w es Hl Hsep
                 (walk_list (height (fs w)) inpath (fs w)) w r w');
          [| intros q _; reflexivity | exact Hw].
        intros p Hp. eapply walk_list_prefix; exact Hp.
      * intros q _. reflexivity.
      * exists []. now rewrite app_nil_r.
  - unfold eprint, with_err. intros [= <- <-]. now split.
Qed.

Lemma main_prints_witness :
  exists r w',
    @main sample_libs [lit "posts"] [lit "out"] sample_world = (r, w') /\
    @only_diagnostics sample_world w' /\
    (~ is_prefix [lit "posts"] [lit "out"] ->
     exists done rest,
       walk_list (height (fs sample_world)) [lit "posts"] (fs sample_world)
         = done ++ rest /\
       stderr w' =
         stderr sample_world
         ++ repeat parse_error_msg
              (length (filter (@skips sample_libs sample_world) done)) /\
       (r = Ok tt -> rest = []) /\
       (forall e, r = Raise e ->
          exists d p, done = d ++ [p] /\ @skips sample_libs sample_world p = false)).
Proof.
  do 2 eexists. split; [vm_compute; reflexivity|].
  exact (@main_prints sample_libs [lit "posts"] [lit "out"] sample_world _ _
           eq_refl).
Defined.

(** X12. When the output path is not an existing directory, a whole run
    writes at most one file, the output path itself: each converted
    document replaces the one before, so that the run leaves the file
    system as a single write at the output path would. *)
Theorem single_output_file `{Libs} (inpath out : path) (w w' : World)
    (r : result unit) :
  is_dir out w = false ->
  main inpath out w = (r, w') ->
  fs w' = fs w \/
  exists s, write_node out s (fs w) = Some (fs w') /\
            lookup out (fs w') = Some (File s).
Proof.
  intros Hd Hm. revert Hd.
  apply (@main_preserves _ out
           (fun a b => is_dir out a = false ->
                       fs b = fs a \/
                       exists s, write_node out s (fs a) = Some (fs b) /\
                                 lookup out (fs b) = Some (File s))
           ) with (inpath := inpath) (r := r); [| | | | exact Hm].
  - intros a _. now left.
  - intros a b c Hab Hbc Ha. destruct (Hab Ha) as [E1 | (s1 & W1 & L1)].
    + assert (Hb : is_dir out b = false) by (unfold is_dir in *; now rewrite E1).
      destruct (Hbc Hb) as [E2 | (s2 & W2 & L2)].
      * left. congruence.
      * right. exists s2. rewrite <- E1. now split.
    + assert (Hb : is_dir out b = false) by (unfold is_dir; now rewrite L1).
      destruct (Hbc Hb) as [E2 | (s2 & W2 & L2)].
      * right. exists s1. rewrite E2. now split.
      * right. exists s2. split; [|exact L2].
        eapply write_write; eassumption.
  - intros p a r0 b Hc Ha.
    assert (Hw : fs b = fs a \/
                 exists s, write_node (dest a p out) s (fs a) = Some (fs b)).
    { destruct (@convert_file_effect _ p out a b r0 Hc)
        as [(e & _ & ->) | [(_ & ->) | [(_ & _ & s & Hw)
                                       | (e & zf & _ & _ & _ & Hw)]]];
        [now left | now left | right; now exists s | right; now exists []]. }
    destruct Hw as [E | [s Hw]].
    + now left.
    + right. exists s.
      destruct (dest_cases a p out) as [E | [E _]]; [|congruence].
      rewrite E in Hw. split; [exact Hw|].
      eapply lookup_write_same; exact Hw.
  - intros a _. now left.
Qed.

Lemma single_output_file_witness :
  exists r w',
    @main sample_libs [lit "posts"] [lit "all.md"] sample_world = (r, w') /\
    (fs w' = fs sample_world \/
     exists s, write_node [lit "all.md"] s (fs sample_world) = Some (fs w') /\
               lookup [lit "all.md"] (fs w') = Some (File s)).
Proof.
  do 2 eexists. split; [vm_compute; reflexivity|].
  exact (@single_output_file sample_libs [lit "posts"] [lit "all.md"] sample_world
           _ _ eq_refl eq_refl).
Defined.

(** ** What the normalization pass can change *)

(** X13. The normalization pass of the encoder only deletes: the text
    it returns is the serialized metadata with some blanks and commas
    removed, every other character kept, in place and in order; and a
    text without an opening bracket is returned as it is. When the
    serializer raises, the encoder raises the same. *)
Theorem normalization_only_deletes `{Libs} (zf : ZolaFront.t) :
  (forall s,
     deleting blank_or_comma s (re_sub ZolaFront.list_re ZolaFront.list_repl s)) /\
  (forall s, ~ In "["%char s ->
     re_sub ZolaFront.list_re ZolaFront.list_repl s = s) /\
  match toml_dumps (ZolaFront.to_toml_data zf) with
  | Ok dumped =>
      exists t,
        ZolaFront.to_toml zf = Ok (t ++ [NL]) /\
        deleting blank_or_comma (strip dumped) t
  | Raise e => ZolaFront.to_toml zf = Raise e
  end.
Proof.
  split; [|split].
  - intros s. apply (re_sub_from_deleting s 0).
  - intros s Hs. rewrite <- (app_nil_r s) at 1.
    rewrite re_sub_no_bracket by exact Hs. cbn. apply app_nil_r.
  - unfold ZolaFront.to_toml.
    destruct (toml_dumps (ZolaFront.to_toml_data zf)) as [dumped|e];
      cbn [rbind]; [|reflexivity].
    eexists. split; [reflexivity|]. apply (re_sub_from_deleting _ 0).
Qed.

(** ** Running twice *)

Lemma update_entry_ok (name : str) (f : node -> option node)
    (fresh : option node) (es : list (str * node)) :
  (exists es', update_entry name f fresh es = Some es') <->
  match find_entry name es with
  | Some c => exists c', f c = Some c'
  | None => exists c', fresh = Some c'
  end.
Proof.
  induction es as [|[n c] es IH]; simpl.
  - destruct fresh as [c'|]; simpl; split.
    + intros _. now exists c'.
    + intros _. now eexists.
    + intros [x H]. discriminate.
    + intros [x H]. discriminate.
  - destruct (str_eqb n name).
    + destruct (f c) as [c'|]; simpl; split.
      * intros _. now exists c'.
      * intros _. now eexists.
      * intros [x H]. discriminate.
      * intros [x H]. discriminate.
    + rewrite <- IH. destruct (update_entry name f fresh es) as [es'|]; simpl; split.
      * intros _. now exists es'.
      * intros _. now eexists.
      * intros [x H]. discriminate.
      * intros [x H]. discriminate.
Qed.

(** Whether a write succeeds depends on the directories only. *)
Lemma write_same_dirs (p : path) (s : str) :
  forall n m n',
    (forall q, (exists es, lookup q n = Some (Dir es)) <->
               (exists es, lookup q m = Some (Dir es))) ->
    write_node p s n = Some n' ->
    exists m', write_node p s m = Some m'.
Proof.
  induction p as [|x rest IH]; intros n m n' Hd; simpl.
  - destruct n as [t|es]; [|discriminate]. intros _.
    destruct m as [t'|es']; [now eexists|].
    destruct (proj2 (Hd []) (ex_intro _ es' eq_refl)) as [es H]. discriminate H.
  - destruct n as [t|es]; [discriminate|].
    destruct (proj1 (Hd []) (ex_intro _ es eq_refl)) as [es' Hm].
    injection Hm as ->.
    destruct (update_entry x _ _ es) as [es1|] eqn:Hu; [|discriminate].
    intros _.
    assert (Hok : exists es2,
              update_entry x (write_node rest s)
                match rest with [] => Some (File s) | _ :: _ => None end es'
              = Some es2).
    { apply update_entry_ok.
      pose proof (proj1 (update_entry_ok x (write_node rest s)
                           match rest with [] => Some (File s) | _ :: _ => None end es)
                    (ex_intro _ es1 Hu)) as Ha.
      assert (Hsub : forall q,
                (exists e, lookup (x :: q) (Dir es) = Some (Dir e)) <->
                (exists e, lookup (x :: q) (Dir es') = Some (Dir e)))
        by (intros q; apply Hd).
      cbn [lookup] in Hsub.
      destruct (find_entry x es) as [c|], (find_entry x es') as [c'|].
      - destruct Ha as [c1 Hc1]. apply (IH c c' c1); [|exact Hc1].
        intros q. apply Hsub.
      - destruct Ha as [c1 Hc1]. destruct rest as [|y r]; [now eexists|].
        destruct c as [t|ec]; [discriminate|].
        destruct (proj1 (Hsub []) (ex_intro _ ec eq_refl)) as [e H]. discriminate H.
      - destruct Ha as [c1 Hc1]. destruct rest as [|y r]; [|discriminate].
        destruct c' as [t|ec]; [now eexists|].
        destruct (proj2 (Hsub []) (ex_intro _ ec eq_refl)) as [e H]. discriminate H.
      - exact Ha. }
    destruct Hok as [es2 ->]. now eexists.
Qed.

(** A write changes the text of no other file. *)
Lemma write_other_files (d : path) (s : str) :
  forall q n n',
    write_node d s n = Some n' -> q <> d ->
    match lookup q n' with Some (File t) => Some t | _ => None end =
    match lookup q n with Some (File t) => Some t | _ => None end.
Proof.
  induction d as [|x rest IH]; intros q n n'; simpl.
  - destruct n as [t|es]; [|discriminate]. intros [= <-] Hq.
    destruct q as [|y q]; [congruence | reflexivity].
  - destruct n as [t|es]; [discriminate|].
    destruct (update_entry x _ _ es) as [es'|] eqn:Hu; [|discriminate].
    intros [= <-] Hq. destruct q as [|y q]; [reflexivity|]. simpl.
    destruct (list_eq_dec ascii_dec y x) as [->|Hne].
    + destruct (find_update_same _ _ _ _ Hu) as (c' & Hf & Hc). rewrite Hf.
      destruct (find_entry x es) as [c|].
      * apply (IH q c c' Hc). congruence.
      * destruct rest; [|discriminate]. injection Hc as <-.
        destruct q; [congruence | reflexivity].
    + now rewrite (find_update_other _ _ _ Hne Hu).
Qed.

(** The list of the walk does not depend on the fuel, once there is
    enough of it. *)
Lemma walk_list_fuel (root : node) :
  forall f1 f2 top n,
    lookup top root = Some n -> height n <= f1 -> height n <= f2 ->
    walk_list f1 top root = walk_list f2 top root.
Proof.
  induction f1 as [|f1 IH]; intros f2 top n Ht H1 H2.
  - destruct n as [t|es]; [|cbn [height] in H1; lia].
    destruct f2; [reflexivity|]. cbn [walk_list]. now rewrite Ht.
  - destruct n as [t|es].
    + destruct f2; cbn [walk_list]; now rewrite Ht.
    + destruct f2 as [|f2]; [cbn [height] in H2; lia|].
      cbn [walk_list]. rewrite Ht. f_equal.
      rewrite !flat_map_concat_map. f_equal. apply map_ext_in.
      intros d Hd.
      assert (Hc : exists c, find_entry d es = Some c).
      { unfold dir_names in Hd. apply in_map_iff in Hd as ([n0 c0] & <- & Hin).
        apply filter_In in Hin as [Hin _]. cbn [fst].
        clear -Hin. induction es as [|[n1 c1] es IHes]; [contradiction|].
        simpl. destruct (str_eqb n1 n0) eqn:E; [now eexists|].
        destruct Hin as [Heq|Hin]; [|now apply IHes].
        injection Heq as -> _. now rewrite str_eqb_refl in E. }
      destruct Hc as [c Hc]. pose proof (height_entry _ _ Hc) as Hh.
      apply (IH f2 (top ++ [d]) c).
      * rewrite lookup_app, Ht. cbn [lookup]. now rewrite Hc.
      * lia.
      * lia.
Qed.

Lemma same_dirs_sym (a b : World) : same_dirs a b -> same_dirs b a.
Proof. intros H q. symmetry. apply H. Qed.

Lemma same_dirs_trans (a b c : World) :
  same_dirs a b -> same_dirs b c -> same_dirs a c.
Proof. intros H1 H2 q. rewrite (H1 q). apply H2. Qed.

Section Rerun.
Context {L : Libs}.
Variables (inpath out : path) (w0 : World) (es0 : list (str * node)).
Hypothesis Hin : lookup inpath (fs w0) = Some (Dir es0).
Hypothesis Hsep : ~ is_prefix inpath out.

Lemma convert_same_dirs (p : path) (a a' : World) (r : result unit) :
  convert_file p out a = (r, a') -> same_dirs a a'.
Proof.
  intros Hc.
  destruct (@convert_file_fs _ out p a a' r Hc) as [E | [s Hw]].
  - intros q. now rewrite E.
  - intros q. split.
    + intros [es Hq]. eapply write_keeps_dirs; eassumption.
    + intros [es Hq]. eapply write_makes_no_dir; eassumption.
Qed.

(** On two worlds with the same input file and the same directories, a
    conversion does the same. *)
Lemma convert_file_lockstep (p : path) (a b a' : World) (r : result unit) :
  lookup p (fs b) = lookup p (fs a) ->
  same_dirs a b ->
  convert_file p out a = (r, a') ->
  exists b',
    convert_file p out b = (r, b') /\
    ((fs a' = fs a /\ fs b' = fs b) \/
     exists d s, write_node d s (fs a) = Some (fs a') /\
                 write_node d s (fs b) = Some (fs b')).
Proof.
  intros Hp Hd.
  assert (Hdest : dest b p out = dest a p out).
  { unfold dest.
    destruct (lookup out (fs a)) as [[t|es]|] eqn:Ha.
    - destruct (lookup out (fs b)) as [[t'|es']|] eqn:Hb; try reflexivity.
      destruct (proj2 (Hd out) (ex_intro _ es' Hb)) as [e H].
      rewrite Ha in H. discriminate H.
    - destruct (proj1 (Hd out) (ex_intro _ es Ha)) as [e ->]. reflexivity.
    - destruct (lookup out (fs b)) as [[t'|es']|] eqn:Hb; try reflexivity.
      destruct (proj2 (Hd out) (ex_intro _ es' Hb)) as [e H].
      rewrite Ha in H. discriminate H. }
  destruct (lookup p (fs a)) as [[text|es]|] eqn:Ha.
  2,3: rewrite !convert_file_unreadable
         by (intros t; rewrite ?Hp, ?Ha; discriminate);
       intros [= <- <-]; exists b; split; [reflexivity | left; now split].
  rewrite (@convert_file_spec _ p out a text Ha).
  rewrite (@convert_file_spec _ p out b text (eq_trans Hp eq_refl)).
  rewrite Hdest.
  destruct (decoded p text) as [v|e];
    [|intros [= <- <-]; exists b; split; [reflexivity | left; now split]].
  destruct (truthy v);
    [|intros [= <- <-]; eexists; split; [reflexivity | left; now split]].
  destruct (JekyllDoc.init _ _ _) as [doc|e];
    [|intros [= <- <-]; exists b; split; [reflexivity | left; now split]].
  destruct (JekyllFront.to_zola_front _) as [zf|e];
    [|intros [= <- <-]; exists b; split; [reflexivity | left; now split]].
  unfold write_file.
  destruct (ZolaDoc.to_string _) as [s|e];
    destruct (write_node (dest a p out) _ (fs a)) as [fa|] eqn:Hwa.
  1,3: destruct (@write_same_dirs _ _ (fs a) (fs b) _ Hd Hwa) as [fb Hwb];
       rewrite Hwb; intros [= <- <-]; eexists; split; [reflexivity|]; right;
       do 2 eexists; cbn [fs]; split; eassumption.
  all: destruct (write_node (dest a p out) _ (fs b)) as [fb|] eqn:Hwb;
       [ destruct (@write_same_dirs _ _ (fs b) (fs a) _ (same_dirs_sym Hd) Hwb)
           as [fa Hfa];
         rewrite Hfa in Hwa; discriminate Hwa
       | intros [= <- <-]; exists b; split; [reflexivity | left; now split] ].
Qed.

Lemma for_each_lockstep (wN : World) (ps : list path) :
  (forall p, In p ps -> is_prefix inpath p) ->
  forall a b r,
    same_under inpath w0 a -> same_under inpath w0 b -> same_dirs a b ->
    (forall q, file_at q b = file_at q a \/ file_at q b = file_at q wN) ->
    for_each ps (fun p => convert_file p out) a = (r, wN) ->
    exists bN,
      for_each ps (fun p => convert_file p out) b = (r, bN) /\
      same_files wN bN.
Proof.
  induction ps as [|p ps IH]; intros Hps a b r Ha Hb Hd HK; cbn [for_each].
  - unfold ret. intros [= <- <-]. exists b. split; [reflexivity|].
    intros q. destruct (HK q) as [E|E]; exact E.
  - unfold bind.
    destruct (convert_file p out a) as [r1 a1] eqn:Hc.
    assert (Hp : lookup p (fs b) = lookup p (fs a)).
    { rewrite (Ha p), (Hb p); [reflexivity | |]; apply Hps; now left. }
    destruct (convert_file_lockstep p Hp Hd Hc) as (b1 & Hcb & Hfs).
    rewrite Hcb.
    assert (HK1 : forall q, file_at q b1 = file_at q a1 \/ file_at q b1 = file_at q wN).
    { intros q. unfold file_at in *.
      destruct Hfs as [[Ea Eb] | (d & s & Wa & Wb)].
      - rewrite Ea, Eb. apply HK.
      - destruct (list_eq_dec (list_eq_dec ascii_dec) q d) as [->|Hne].
        + left. now rewrite (@lookup_write_same _ _ _ _ Wa), (@lookup_write_same _ _ _ _ Wb).
        + rewrite (@write_other_files _ _ _ _ _ Wa Hne), (@write_other_files _ _ _ _ _ Wb Hne).
          apply HK. }
    destruct r1 as [[]|e].
    + apply IH.
      * intros p' Hp'. apply Hps. now right.
      * exact (@convert_file_same_under _ inpath out w0 es0 Hin Hsep p a a1 _ Ha Hc).
      * exact (@convert_file_same_under _ inpath out w0 es0 Hin Hsep p b b1 _ Hb Hcb).
      * apply same_dirs_trans with a;
          [apply same_dirs_sym; exact (@convert_same_dirs p a a1 _ Hc)|].
        apply same_dirs_trans with b; [exact Hd | exact (@convert_same_dirs p b b1 _ Hcb)].
      * exact HK1.
    + intros [= <- <-]. exists b1. split; [reflexivity|].
      intros q. destruct (HK1 q) as [E|E]; exact E.
Qed.

End Rerun.

(** X14. Running twice changes nothing more. For an input directory
    and an output path outside it, a second run on the result of the
    first ends as the first did, on the same exception if there was
    one, and leaves every file with the text it had and the same
    directories: the documents are converted again from the same
    sources and written over the same files. *)
Theorem rerun_changes_nothing `{Libs} (inpath out : path) (w w1 : World)
    (r : result unit) (es : list (str * node)) :
  lookup inpath (fs w) = Some (Dir es) ->
  ~ is_prefix inpath out ->
  main inpath out w = (r, w1) ->
  exists w2,
    main inpath out w1 = (r, w2) /\ same_files w1 w2 /\ same_dirs w1 w2.
Proof.
  intros Hin Hsep Hm.
  assert (Hmain : forall a, lookup inpath (fs a) = Some (Dir es) ->
            main inpath out a = walk (height (fs a)) inpath (main_body out) a).
  { intros a Ha. unfold main, bind, isfile, isdir. rewrite Ha. cbv beta iota.
    rewrite ?Ha. reflexivity. }
  assert (Hw0 : same_under inpath w w) by (intros q _; reflexivity).
  assert (Htop : is_prefix inpath inpath) by (exists []; now rewrite app_nil_r).
  rewrite (Hmain w Hin) in Hm.
  rewrite (@walk_static _ inpath out w es Hin Hsep _ inpath w Hw0 Htop) in Hm.
  pose proof (@for_each_same_under _ inpath out w es Hin Hsep _ w w1 r Hw0 Hm) as Hw1.
  assert (Hin1 : lookup inpath (fs w1) = Some (Dir es))
    by (rewrite <- Hin; apply Hw1; exact Htop).
  assert (Hd1 : same_dirs w w1).
  { revert Hm. apply (@for_each_preserves _ out same_dirs).
    - intros a q. reflexivity.
    - intros a b c. apply same_dirs_trans.
    - intros p a r0 b Hc. exact (@convert_same_dirs _ out p a b r0 Hc). }
  rewrite (@walk_list_fuel (fs w) (height (fs w)) (height (fs w1)) inpath (Dir es) Hin)
    in Hm.
  2: now apply lookup_height with inpath.
  2: now apply lookup_height with inpath.
  destruct (@for_each_lockstep _ inpath out w es Hin Hsep w1
              (walk_list (height (fs w1)) inpath (fs w))
              (fun p => @walk_list_prefix (fs w) _ inpath p)
              w w1 r Hw0 Hw1 Hd1 (fun q => or_intror eq_refl) Hm)
    as (w2 & Hrun & Hfiles).
  exists w2. split; [|split].
  - rewrite (Hmain w1 Hin1).
    rewrite (@walk_static _ inpath out w es Hin Hsep _ inpath w1 Hw1 Htop).
    exact Hrun.
  - exact Hfiles.
  - revert Hrun. apply (@for_each_preserves _ out same_dirs).
    + intros a q. reflexivity.
    + intros a b c. apply same_dirs_trans.
    + intros p a r0 b Hc. exact (@convert_same_dirs _ out p a b r0 Hc).
Qed.

Lemma rerun_changes_nothing_witness :
  exists r w1 w2,
    @main sample_libs [lit "posts"] [lit "out"] sample_world = (r, w1) /\
    @main sample_libs [lit "posts"] [lit "out"] w1 = (r, w2) /\
    same_files w1 w2 /\ same_dirs w1 w2.
Proof.
  assert (Hsep : ~ is_prefix [lit "posts"] [lit "out"])
    by (intros [r E]; discriminate E).
  destruct (@rerun_changes_nothing sample_libs [lit "posts"] [lit "out"]
              sample_world _ _ _ eq_refl Hsep eq_refl) as (w2 & H).
  do 3 eexists. split; [vm_compute; reflexivity | exact H].
Defined.

(** ** From the decoded front matter to the mapping that is serialized *)

(** X15. From the front matter to the serialized mapping: [title] goes
    through as it was decoded, [description] is the value of
    [subtitle] ([None] without one), the table [extra] is there exactly
    when some key was collected, and the mapping has no other key than
    [title], [date], [description], [taxonomies] and [extra]; so
    [subtitle], [author], [tags] and [layout] are no top-level keys of
    the output. *)
Theorem fields_end_to_end (front : value) (jf : JekyllFront.t) (zf : ZolaFront.t) :
  JekyllFront.call front = Ok jf ->
  JekyllFront.to_zola_front jf = Ok zf ->
  exists kw,
    front = VDict kw /\
    dict_get (lit "title") (ZolaFront.to_toml_data zf) = dict_get (lit "title") kw /\
    dict_get (lit "description") (ZolaFront.to_toml_data zf) =
      Some (JekyllFront.arg (lit "subtitle") kw) /\
    dict_get (lit "extra") (ZolaFront.to_toml_data zf) =
      (if truthy (VDict (JekyllFront.extra jf))
       then Some (VDict (JekyllFront.extra jf)) else None) /\
    forall k, In k (keys (ZolaFront.to_toml_data zf)) ->
              In k [lit "title"; lit "date"; lit "description";
                    lit "taxonomies"; lit "extra"].
Proof.
  intros Hc Hz.
  destruct (call_subtitle _ Hc) as (kw & -> & Ht & Hsub).
  exists kw. split; [reflexivity|].
  unfold JekyllFront.to_zola_front in Hz.
  destruct (if truthy (JekyllFront.date jf) then _ else _) as [d|e];
    [|discriminate].
  cbn [rbind] in Hz. injection Hz as <-.
  unfold ZolaFront.to_toml_data.
  cbn [ZolaFront.title ZolaFront.date ZolaFront.description ZolaFront.extra
       ZolaFront.taxonomies].
  rewrite Ht, Hsub, !truthy_VDict.
  destruct (JekyllFront.taxonomies_of jf) as [|x tx];
    destruct (JekyllFront.extra jf) as [|y ex];
    (split; [reflexivity|]; split; [reflexivity|]; split; [reflexivity|]);
    intros k Hk; cbn in Hk |- *; intuition.
Qed.

Lemma fields_end_to_end_witness :
  exists kw,
    VDict [ (lit "title", VStr (lit "Hello")); (lit "layout", VStr (lit "post"));
            (lit "subtitle", VStr (lit "Sub")); (lit "comments", VBool true) ]
      = VDict kw /\
    dict_get (lit "title")
      (ZolaFront.to_toml_data
         (ZolaFront.mk (VStr (lit "Hello")) None (VStr (lit "Sub")) VNone
            [(lit "comments", VBool true)] []))
      = dict_get (lit "title") kw /\
    dict_get (lit "description")
      (ZolaFront.to_toml_data
         (ZolaFront.mk (VStr (lit "Hello")) None (VStr (lit "Sub")) VNone
            [(lit "comments", VBool true)] []))
      = Some (JekyllFront.arg (lit "subtitle") kw) /\
    dict_get (lit "extra")
      (ZolaFront.to_toml_data
         (ZolaFront.mk (VStr (lit "Hello")) None (VStr (lit "Sub")) VNone
            [(lit "comments", VBool true)] []))
      = Some (VDict [(lit "comments", VBool true)]) /\
    forall k,
      In k (keys (ZolaFront.to_toml_data
                    (ZolaFront.mk (VStr (lit "Hello")) None (VStr (lit "Sub")) VNone
                       [(lit "comments", VBool true)] []))) ->
      In k [lit "title"; lit "date"; lit "description"; lit "taxonomies"; lit "extra"].
Proof.
  exact (@fields_end_to_end
           (VDict [ (lit "title", VStr (lit "Hello")); (lit "layout", VStr (lit "post"));
                    (lit "subtitle", VStr (lit "Sub")); (lit "comments", VBool true) ])
           (JekyllFront.mk (VStr (lit "Hello")) VNone (VStr (lit "Sub")) VNone VNone
              [(lit "comments", VBool true)])
           _ eq_refl eq_refl).
Defined.

